(** * UFRF prime validation core: sieves, classifier, validation, checkpoints

    A shallow embedding of the ground-truth engine of
    [PrimeGeometricPredictor/enhanced_prime_validator.py], of the trial
    division classifier of [prime_classification_system.py] and of the
    known-primes import of [prime_validator.py], with the properties the
    design document states about them.

    Python integers are unbounded, so they are [Z]; [//] and [%] with a
    positive divisor are [Z.div] and [Z.modulo].  NumPy arrays are lists
    indexed from 0.  A Python [set] of integers is a [gset Z].  A raised
    exception is the [Raise] branch of [res].  Floating-point quotients are
    exact rationals; the square root of [is_prime] is also given in double
    precision ([math_sqrt_int]), with the range on which the two agree.

    The validator consults its classifier through [is_prime] alone; it is a
    pure function of the number here, which the classifier of the
    repository is on every cache it can hold.  The files of the model are
    the checkpoint files under the output directory, readable or corrupt,
    and what the known-primes import finds at a path; the report and the
    plots that a run writes are not part of it. *)

From Stdlib Require Import ZArith Znumtheory Lia QArith Lqa.
From stdpp Require Import gmap strings list fin_maps pretty.

Close Scope Q_scope.
Open Scope Z_scope.

(** ** Exceptions *)

Inductive exn : Set :=
| ValueError
| IndexError
| ZeroDivisionError
| OverflowError
| IsADirectoryError
| PermissionError
| UnicodeDecodeError.

Inductive res (A : Type) : Type :=
| Ok (a : A)
| Raise (e : exn).

Arguments Ok {A} a.
Arguments Raise {A} e.

#[export] Instance res_ret : MRet res := λ A a, Ok a.
#[export] Instance res_bind : MBind res := λ A B f m,
  match m with
  | Ok a => f a
  | Raise e => Raise e
  end.

(** A [for] loop whose body may raise: the state is threaded through the
    items in order and the first exception ends the loop. *)
Fixpoint for_each {A S : Type} (xs : list A) (body : S → A → res S) (s : S)
  : res S :=
  match xs with
  | [] => Ok s
  | x :: xs' =>
      match body s x with
      | Ok s' => for_each xs' body s'
      | Raise e => Raise e
      end
  end.

(** ** Python's [range] *)

Fixpoint range_from (n : nat) (start step : Z) : list Z :=
  match n with
  | O => []
  | S n' => start :: range_from n' (start + step) step
  end.

(** Number of items of [range(start, stop, step)], as CPython computes it. *)
Definition range_len (start stop step : Z) : Z :=
  if 0 <? step then
    if start <? stop then (stop - start - 1) / step + 1 else 0
  else
    if stop <? start then (start - stop - 1) / (- step) + 1 else 0.

(** [range(start, stop, step)] for a step known to be non-zero. *)
Definition range3 (start stop step : Z) : list Z :=
  range_from (Z.to_nat (range_len start stop step)) start step.

(** [range(start, stop)]. *)
Definition range2 (start stop : Z) : list Z := range3 start stop 1.

(** [range(start, stop, step)] where the step is a run-time value: a zero
    step raises [ValueError]. *)
Definition py_range (start stop step : Z) : res (list Z) :=
  if step =? 0 then Raise ValueError else Ok (range3 start stop step).

(** ** NumPy arrays *)

(** [np.ones(n, dtype=...)]: a negative dimension raises [ValueError]. *)
Definition np_ones {A : Type} (one : A) (n : Z) : res (list A) :=
  if n <? 0 then Raise ValueError else Ok (replicate (Z.to_nat n) one).

(** Position of index [i] in an array of the given length; a negative index
    counts from the end, and an index out of bounds raises [IndexError]. *)
Definition np_index {A : Type} (a : list A) (i : Z) : res nat :=
  let n := Z.of_nat (length a) in
  if (0 <=? i) && (i <? n) then Ok (Z.to_nat i)
  else if (- n <=? i) && (i <? 0) then Ok (Z.to_nat (i + n))
  else Raise IndexError.

(** [a[i]] *)
Definition np_getitem {A : Type} (a : list A) (i : Z) : res A :=
  k ← np_index a i;
  match a !! k with
  | Some x => Ok x
  | None => Raise IndexError
  end.

(** [a[i] = v] *)
Definition np_setitem {A : Type} (a : list A) (i : Z) (v : A) : res (list A) :=
  k ← np_index a i;
  mret (<[k:=v]> a).

(** A slice bound is clipped to the array, a negative one counting from the
    end. *)
Definition slice_bound (len i : Z) : Z :=
  if i <? 0 then Z.max 0 (i + len) else Z.min i len.

(** [a[start:stop:step] = v] for a positive step ([stop = None] is the end of
    the array).  The program only slices with the steps [1], [i >= 2] and
    [p >= 3]. *)
Definition np_setslice {A : Type} (start : Z) (stop : option Z) (step : Z)
    (v : A) (a : list A) : list A :=
  let len := Z.of_nat (length a) in
  let lo := slice_bound len start in
  let hi := from_option (slice_bound len) len stop in
  foldr (λ j acc, <[Z.to_nat j := v]> acc) a (range3 lo hi step).

(** [enumerate(a)] *)
Fixpoint enumerate_from {A : Type} (k : Z) (a : list A) : list (Z * A) :=
  match a with
  | [] => []
  | x :: a' => (k, x) :: enumerate_from (k + 1) a'
  end.

Definition enumerate {A : Type} (a : list A) : list (Z * A) :=
  enumerate_from 0 a.

(** [np.where(a)[0]]: the indices of the true entries, in order. *)
Definition np_where (a : list bool) : list Z :=
  fst <$> filter (λ p, snd p = true) (enumerate a).

(** [int(math.sqrt(n))] for [n >= 0].  For the limits a sieve can hold
    (below [2^52]) the rounded floating-point square root truncates to the
    integer square root. *)
Definition isqrt (n : Z) : Z := Z.sqrt n.

(** The same in double precision, as the interpreter computes it.

    [float(n)] for an integer [n >= 0]: the nearest double, ties to even,
    given by its value, which is an integer.  Below [2^53] every integer is
    a double; above, the doubles of the binade of [n] are the multiples of
    [2^e].  A result beyond the largest double raises [OverflowError]. *)
Definition float_of_int (n : Z) : res Z :=
  if n <? 2 ^ 53 then Ok n
  else
    let e := Z.log2 n - 52 in
    let q := n / 2 ^ e in
    let r := n mod 2 ^ e in
    let q :=
      if (2 ^ e <? 2 * r) || ((2 * r =? 2 ^ e) && Z.odd q) then q + 1
      else q in
    if 2 ^ 1024 <=? q * 2 ^ e then Raise OverflowError else Ok (q * 2 ^ e).

(** [int(math.sqrt(x))] for a double [x >= 0] of integer value: the square
    root rounded to the nearest double, then truncated.  With [k] the
    integer square root, the doubles from [2^(log2 k)] to [2^(log2 k + 1)]
    are the multiples of [2^u]; [m] counts them up to the rounded root. *)
Definition sqrt_double_floor (x : Z) : Z :=
  if x =? 0 then 0
  else
    let u := Z.log2 (Z.sqrt x) - 52 in
    if u <? 0 then
      let scaled := x * 4 ^ (- u) in
      let m := Z.sqrt scaled in
      let m := if (2 * m + 1) ^ 2 <=? 4 * scaled then m + 1 else m in
      m / 2 ^ (- u)
    else
      let m := Z.sqrt (x / 4 ^ u) in
      let m := if (2 * m + 1) ^ 2 * 4 ^ u <=? 4 * x then m + 1 else m in
      m * 2 ^ u.

(** [int(math.sqrt(n))] on every integer: the conversion to a double may
    raise [OverflowError], and [math.sqrt] raises [ValueError] on a negative
    number. *)
Definition math_sqrt_int (n : Z) : res Z :=
  x ← float_of_int (Z.abs n);
  if n <? 0 then Raise ValueError else Ok (sqrt_double_floor x).

(** [int(np.sqrt(n))] and [int(math.sqrt(n))] for any integer.  For a
    negative argument [np.sqrt] yields NaN, which [int] refuses, and
    [math.sqrt] raises: a [ValueError] in both cases. *)
Definition int_sqrt (n : Z) : res Z :=
  if n <? 0 then Raise ValueError else Ok (isqrt n).

(** [sum(...)] over integers. *)
Definition py_sum (xs : list Z) : Z := foldl Z.add 0 xs.

(** [a / b] on numbers, with exact rationals standing for floats. *)
Definition py_truediv (a b : Q) : res Q :=
  if Qeq_bool b 0 then Raise ZeroDivisionError else Ok (a / b)%Q.

(** [x > 0] on a number. *)
Definition Qpositive (x : Q) : bool := 0 <? Qnum x.

(** * prime_classification_system.py *)

Module PrimeClassifier.

(** [PrimeClassifier.is_prime], with [self.prime_cache] passed in and
    returned.  The square root is the integer square root, which
    [int(math.sqrt(n))] is for [n] below [2^52]; from [2^1024] on the
    program raises [OverflowError] there and writes nothing to the cache,
    as [is_prime_in_doubles] below has it. *)
Definition is_prime (n : Z) (prime_cache : gmap Z bool) : bool * gmap Z bool :=
  match prime_cache !! n with
  | Some b => (b, prime_cache)
  | None =>
      if n <? 2 then (false, <[n:=false]> prime_cache)
      else if (n =? 2) || (n =? 3) then (true, <[n:=true]> prime_cache)
      else if n mod 2 =? 0 then (false, <[n:=false]> prime_cache)
      else
        let is_prime :=
          forallb (λ i, negb (n mod i =? 0)) (range3 3 (isqrt n + 1) 2) in
        (is_prime, <[n:=is_prime]> prime_cache)
  end.

(** [is_prime] as the interpreter runs it, with the square root in double
    precision, which may raise.  Below [2^52] it is [is_prime] above. *)
Definition is_prime_in_doubles (n : Z) (prime_cache : gmap Z bool)
  : res (bool * gmap Z bool) :=
  match prime_cache !! n with
  | Some b => Ok (b, prime_cache)
  | None =>
      if n <? 2 then Ok (false, <[n:=false]> prime_cache)
      else if (n =? 2) || (n =? 3) then Ok (true, <[n:=true]> prime_cache)
      else if n mod 2 =? 0 then Ok (false, <[n:=false]> prime_cache)
      else
        sqrt_n ← math_sqrt_int n;
        let is_prime :=
          forallb (λ i, negb (n mod i =? 0)) (range3 3 (sqrt_n + 1) 2) in
        Ok (is_prime, <[n:=is_prime]> prime_cache)
  end.

(** The caches a classifier can hold: the empty one of [__init__] and those
    left by calls of [is_prime]. *)
Inductive reachable : gmap Z bool → Prop :=
| reachable_init : reachable ∅
| reachable_call n c : reachable c → reachable (is_prime n c).2.

(** The caches that the classifier of a running program can hold: the
    empty one and those left by the calls that returned. *)
Inductive reachable_in_doubles : gmap Z bool → Prop :=
| reachable_in_doubles_init : reachable_in_doubles ∅
| reachable_in_doubles_call n c b c' :
    reachable_in_doubles c →
    is_prime_in_doubles n c = Ok (b, c') →
    reachable_in_doubles c'.

(** The classifier object: [self.classification_cache] and
    [self.prime_cache]. *)
Record t : Type := mk {
  classification_cache : gmap Z (bool * string * Q);
  prime_cache : gmap Z bool
}.

(** [PrimeClassifier()] *)
Definition init : t := mk ∅ ∅.

(** An item of the lists that [batch_classify_primes] and
    [find_primes_by_classification] return. *)
Record entry : Type := Entry {
  number : Z;
  classification : string;
  confidence : Q
}.

(** [max(items, key=lambda x: x[1])]: the first item whose score no other
    item exceeds. *)
Fixpoint max_by_score (best : string * Q) (items : list (string * Q))
  : string * Q :=
  match items with
  | [] => best
  | x :: items' =>
      if Qle_bool x.2 best.2 then max_by_score best items'
      else max_by_score x items'
  end.

Section Classification.
(** [calculate_inner_octave_score], [calculate_outer_octave_score] and
    [calculate_cross_resonant_score]: floating-point functions of the number
    alone, which read and change nothing of the classifier. *)
Variable calculate_inner_octave_score : Z → Q.
Variable calculate_outer_octave_score : Z → Q.
Variable calculate_cross_resonant_score : Z → Q.

Definition classify_prime (n : Z) (self : t) : (bool * string * Q) * t :=
  match classification_cache self !! n with
  | Some result => (result, self)
  | None =>
      let '(prime, cache) := is_prime n (prime_cache self) in
      if negb prime then
        let result := (false, "non_prime", 0%Q) in
        (result, mk (<[n:=result]> (classification_cache self)) cache)
      else
        let inner_score := calculate_inner_octave_score n in
        let outer_score := calculate_outer_octave_score n in
        let cross_score := calculate_cross_resonant_score n in
        let classification :=
          max_by_score ("inner_octave", inner_score)
            [("outer_octave", outer_score); ("cross_resonant", cross_score)] in
        let result := (true, classification.1, classification.2) in
        (result, mk (<[n:=result]> (classification_cache self)) cache)
  end.

(** The loop of [batch_classify_primes] over the numbers still to visit;
    [break] ends it. *)
Fixpoint batch_classify_loop (max_count : Z) (ns : list Z)
    (results : list entry) (count : Z) (self : t) : list entry * t :=
  match ns with
  | [] => (results, self)
  | n :: ns' =>
      if (2 <? n) && (n mod 2 =? 0) then
        batch_classify_loop max_count ns' results count self
      else
        let '(prime, cache) := is_prime n (prime_cache self) in
        let self := mk (classification_cache self) cache in
        if prime then
          let '(_, classification, confidence, self) := classify_prime n self in
          let results := results ++ [Entry n classification confidence] in
          let count := count + 1 in
          if max_count <=? count then (results, self)
          else batch_classify_loop max_count ns' results count self
        else batch_classify_loop max_count ns' results count self
  end.

Definition batch_classify_primes (start end_ max_count : Z) (self : t)
  : list entry * t :=
  batch_classify_loop max_count (range2 start (end_ + 1)) [] 0 self.

(** The loop of [find_primes_by_classification]. *)
Fixpoint find_primes_loop (wanted : string) (max_count : Z) (ns : list Z)
    (matching_primes : list entry) (count : Z) (self : t)
  : list entry * t :=
  match ns with
  | [] => (matching_primes, self)
  | n :: ns' =>
      if (2 <? n) && (n mod 2 =? 0) then
        find_primes_loop wanted max_count ns' matching_primes count self
      else
        let '(prime, prime_class, confidence, self) := classify_prime n self in
        if prime && String.eqb prime_class wanted then
          let matching_primes :=
            matching_primes ++ [Entry n wanted confidence] in
          let count := count + 1 in
          if max_count <=? count then (matching_primes, self)
          else find_primes_loop wanted max_count ns' matching_primes count self
        else find_primes_loop wanted max_count ns' matching_primes count self
  end.

Definition find_primes_by_classification (wanted : string)
    (start end_ max_count : Z) (self : t) : list entry * t :=
  find_primes_loop wanted max_count (range2 start (end_ + 1)) [] 0 self.

(** The classifier objects a program can hold: a new one, and those left by
    calls of [is_prime] and of [classify_prime]. *)
Inductive reachable_classifier : t → Prop :=
| reachable_new : reachable_classifier init
| reachable_is_prime n self :
    reachable_classifier self →
    reachable_classifier
      (mk (classification_cache self) (is_prime n (prime_cache self)).2)
| reachable_classify n self :
    reachable_classifier self → reachable_classifier (classify_prime n self).2.
End Classification.

End PrimeClassifier.

(** * enhanced_prime_validator.py *)

Module Checkpoint.
Record t : Type := mk {
    last_processed : Z;
    true_positives : Z;
    false_positives : Z;
    false_negatives : Z;
    timestamp : string
  }.
End Checkpoint.

(** The local counters and sample lists of a scan.  [classifier_calls] is
    not a program variable: it records the arguments of the calls of
    [self.classifier.is_prime], latest first. *)
Module Batch.
Record t : Type := mk {
    true_positives : Z;
    false_positives : Z;
    false_negatives : Z;
    false_positive_numbers : list Z;
    false_negative_numbers : list Z;
    classifier_calls : list Z
  }.

Definition zero : t := mk 0 0 0 [] [] [].
End Batch.

Module Results.
Record t : Type := mk {
    limit : Z;
    total_known_primes : Z;
    true_positives : Z;
    false_positives : Z;
    false_negatives : Z;
    precision : Q;
    recall : Q;
    f1_score : Q;
    accuracy : Q;
    false_positive_numbers : list Z;
    false_negative_numbers : list Z;
    classifier_calls : list Z
  }.
End Results.

(** What a checkpoint file holds when it is opened for unpickling: a record
    that [save_checkpoint] wrote, or something that [pickle.load] refuses.
    Pickles of another making are outside the model. *)
Inductive pickle_file : Type :=
| Pickled (checkpoint_data : Checkpoint.t)
| Corrupt.

(** What [open(filepath, 'r')] and the reading of the lines find at a path
    where something is: a text file, a file whose bytes are not text in the
    encoding of the locale, a directory, or a file that the process may not
    read. *)
Inductive text_file : Type :=
| Lines (lines : list string)
| Undecodable
| Directory
| Forbidden.

(** The world outside the validator: the checkpoint files, by path, and the
    number of clock readings made so far.  The report and the plots, which
    a run writes beside them, are not part of it. *)
Record world : Type := World {
  files : gmap string pickle_file;
  ticks : nat
}.

(** The table of [validate_with_oeis_primes], the same in both validators:
    the first primes of OEIS A000040. *)
Definition oeis_primes : list Z :=
  [2; 3; 5; 7; 11; 13; 17; 19; 23; 29; 31; 37; 41; 43; 47; 53; 59; 61; 67; 71;
   73; 79; 83; 89; 97; 101; 103; 107; 109; 113; 127; 131; 137; 139; 149; 151;
   157; 163; 167; 173; 179; 181; 191; 193; 197; 199; 211; 223; 227; 229; 233;
   239; 241; 251; 257; 263; 269; 271; 277; 281; 283; 293; 307; 311; 313; 317;
   331; 337; 347; 349; 353; 359; 367; 373; 379; 383; 389; 397; 401; 409; 419;
   421; 431; 433; 439; 443; 449; 457; 461; 463; 467; 479; 487; 491; 499; 503;
   509; 521; 523; 541].

Module EnhancedPrimeValidator.

(** ** Sieve generator *)

(** Loop body of the standard sieve:
    [if sieve[i]: sieve[i*i::i] = False]. *)
Definition sieve_mark (sieve : list bool) (i : Z) : res (list bool) :=
  b ← np_getitem sieve i;
  mret (if b : bool then np_setslice (i * i) None i false sieve else sieve).

Definition generate_known_primes_standard (limit : Z) : res (gset Z) :=
  sieve ← np_ones true (limit + 1);
  let sieve := np_setslice 0 (Some 2) 1 false sieve in
  root ← int_sqrt limit;
  sieve ← for_each (range2 2 (root + 1)) sieve_mark sieve;
  mret (list_to_set (np_where sieve)).

(** Marking of the multiples of one base prime [p] in a segment. *)
Definition mark_multiples (segment_start segment_end : Z)
    (segment_sieve : list bool) (p : Z) : res (list bool) :=
  let start_idx := (segment_start + p - 1) / p * p in
  let start_idx :=
    if start_idx <? segment_start then start_idx + p else start_idx in
  multiples ← py_range start_idx (segment_end + 1) p;
  for_each multiples
    (λ sieve i, np_setitem sieve (i - segment_start) false) segment_sieve.

(** Body of the segment loop.  The base primes are visited in the order in
    which the set enumerates them. *)
Definition sieve_segment (limit segment_size : Z) (base_primes : gset Z)
    (all_primes : gset Z) (segment_start : Z) : res (gset Z) :=
  let segment_end := Z.min (segment_start + segment_size - 1) limit in
  let segment_size_actual := segment_end - segment_start + 1 in
  segment_sieve ← np_ones true segment_size_actual;
  segment_sieve ← for_each (elements base_primes)
                     (mark_multiples segment_start segment_end) segment_sieve;
  let segment_primes : gset Z :=
    list_to_set ((λ p, p.1 + segment_start)
                   <$> filter (λ p, p.2 = true) (enumerate segment_sieve)) in
  mret (all_primes ∪ segment_primes).

Definition default_segment_size : Z := 10000000.

Definition generate_known_primes_segmented (limit segment_size : Z)
  : res (gset Z) :=
  sqrt_limit ← int_sqrt limit;
  base_primes ← generate_known_primes_standard sqrt_limit;
  let all_primes := base_primes in
  segment_starts ← py_range (sqrt_limit + 1) (limit + 1) segment_size;
  for_each segment_starts (sieve_segment limit segment_size base_primes)
    all_primes.

(** Loop body of the bit sieve; the array holds [uint8] values. *)
Definition bit_sieve_mark (sieve : list Z) (i : Z) : res (list Z) :=
  b ← np_getitem sieve i;
  mret (if negb (b =? 0) then
          let p := 2 * i + 1 in
          let start_idx := (p * p - 1) / 2 in
          np_setslice start_idx None p 0 sieve
        else sieve).

Definition generate_known_primes_bit_sieve (limit : Z) : res (gset Z) :=
  let sieve_size := (limit - 1) / 2 in
  sieve ← np_ones 1 (sieve_size + 1);
  root ← int_sqrt limit;
  sieve ← for_each (range2 1 (root / 2 + 1)) bit_sieve_mark sieve;
  let known_primes : gset Z := {[ 2 ]} in
  mret (known_primes ∪
        list_to_set ((λ p, 2 * p.1 + 1)
                       <$> filter (λ p, p.2 ≠ 0 ∧ 0 < p.1) (enumerate sieve))).

Section Validator.
(** [self.low_memory] *)
Variable low_memory : bool.
(** [self.classifier.is_prime], as the pure function of its argument that
    the design assumes of the classifier. *)
Variable classify : Z → bool.
(** [mp.cpu_count()] *)
Variable cpu_count : positive.
(** [os.path.join(self.output_dir, f"checkpoint_{limit}.pkl")] *)
Variable checkpoint_file : Z → string.
(** [datetime.now().isoformat()] at each reading of the clock. *)
Variable isoformat_now : nat → string.

Definition generate_known_primes (limit : Z) (method : string)
  : res (gset Z) :=
  if String.eqb method "standard"
     || (String.eqb method "auto" && (limit <=? 10000000)
         && negb low_memory)
  then generate_known_primes_standard limit
  else if String.eqb method "bit"
          || (String.eqb method "auto" && (limit <=? 100000000))
  then generate_known_primes_bit_sieve limit
  else generate_known_primes_segmented limit default_segment_size.

Section FileImport.
Variable strip : string → string.
Variable int_of_string : string → option Z.

(** Same text as [PrimeValidator.load_known_primes_from_file]. *)
Definition load_known_primes_from_file
    (fs : gmap string text_file) (filepath : string) : res (gset Z) :=
  match fs !! filepath with
  | None => Ok ∅
  | Some (Lines lines) =>
      Ok (foldl (λ known_primes line,
                   match int_of_string (strip line) with
                   | Some prime => {[ prime ]} ∪ known_primes
                   | None => known_primes
                   end) ∅ lines)
  | Some Undecodable => Raise UnicodeDecodeError
  | Some Directory => Raise IsADirectoryError
  | Some Forbidden => Raise PermissionError
  end.
End FileImport.

(** ** Checkpoint store *)

Definition save_checkpoint (checkpoint_data : Checkpoint.t) (limit : Z)
    (w : world) : world :=
  World (<[checkpoint_file limit := Pickled checkpoint_data]> (files w))
        (ticks w).

(** An unreadable record is reported and treated as no checkpoint. *)
Definition load_checkpoint (limit : Z) (w : world) : option Checkpoint.t :=
  match files w !! checkpoint_file limit with
  | Some (Pickled checkpoint_data) => Some checkpoint_data
  | Some Corrupt => None
  | None => None
  end.

(** ** Validation *)

(** Body of the loop over the numbers of a batch; [cap] bounds the sample
    lists (100 in a distributed batch, 1000 in the sequential scan). *)
Definition check_number (cap : Z) (known_primes : gset Z) (st : Batch.t)
    (n : Z) : Batch.t :=
  if (2 <? n) && (n mod 2 =? 0) then st
  else
    let is_prime := classify n in
    let calls := n :: Batch.classifier_calls st in
    let is_known_prime := bool_decide (n ∈ known_primes) in
    if is_prime && is_known_prime then
      Batch.mk (Batch.true_positives st + 1) (Batch.false_positives st)
        (Batch.false_negatives st) (Batch.false_positive_numbers st)
        (Batch.false_negative_numbers st) calls
    else if is_prime && negb is_known_prime then
      Batch.mk (Batch.true_positives st) (Batch.false_positives st + 1)
        (Batch.false_negatives st)
        (if Z.of_nat (length (Batch.false_positive_numbers st)) <? cap
         then Batch.false_positive_numbers st ++ [n]
         else Batch.false_positive_numbers st)
        (Batch.false_negative_numbers st) calls
    else if negb is_prime && is_known_prime then
      Batch.mk (Batch.true_positives st) (Batch.false_positives st)
        (Batch.false_negatives st + 1) (Batch.false_positive_numbers st)
        (if Z.of_nat (length (Batch.false_negative_numbers st)) <? cap
         then Batch.false_negative_numbers st ++ [n]
         else Batch.false_negative_numbers st)
        calls
    else
      Batch.mk (Batch.true_positives st) (Batch.false_positives st)
        (Batch.false_negatives st) (Batch.false_positive_numbers st)
        (Batch.false_negative_numbers st) calls.

(** [for n in range(first, last + 1): ...] *)
Definition scan (cap : Z) (known_primes : gset Z) (first last : Z)
    (st : Batch.t) : Batch.t :=
  foldl (check_number cap known_primes) st (range2 first (last + 1)).

Definition validate_primality_test_batch (start end_ : Z)
    (known_primes : gset Z) : Batch.t :=
  scan 100 known_primes start end_ Batch.zero.

(** The four derived metrics, in the order precision, recall, F1,
    accuracy. *)
Definition calculate_metrics (true_positives false_positives
    false_negatives total_known_primes : Z) : res (Q * Q * Q * Q) :=
  precision ←
    (if 0 <? true_positives + false_positives
     then py_truediv (inject_Z true_positives)
            (inject_Z (true_positives + false_positives))
     else Ok 0%Q);
  recall ←
    (if 0 <? true_positives + false_negatives
     then py_truediv (inject_Z true_positives)
            (inject_Z (true_positives + false_negatives))
     else Ok 0%Q);
  f1_score ←
    (if Qpositive (precision + recall)
     then py_truediv (2 * precision * recall)%Q (precision + recall)%Q
     else Ok 0%Q);
  accuracy ←
    (if 0 <? total_known_primes
     then py_truediv (inject_Z true_positives) (inject_Z total_known_primes)
     else Ok 0%Q);
  mret (precision, recall, f1_score, accuracy).

(** [len([p for p in known_primes if p <= limit])] *)
Definition count_known (known_primes : gset Z) (limit : Z) : Z :=
  Z.of_nat (length (filter (λ p, p ≤ limit) (elements known_primes))).

Definition compile_results (limit : Z) (known_primes : gset Z)
    (st : Batch.t) : res Results.t :=
  let total_known_primes := count_known known_primes limit in
  '(precision, recall, f1_score, accuracy) ←
    calculate_metrics (Batch.true_positives st) (Batch.false_positives st)
      (Batch.false_negatives st) total_known_primes;
  mret (Results.mk limit total_known_primes (Batch.true_positives st)
          (Batch.false_positives st) (Batch.false_negatives st)
          precision recall f1_score accuracy
          (Batch.false_positive_numbers st)
          (Batch.false_negative_numbers st)
          (Batch.classifier_calls st)).

(** [mp.Pool(processes).starmap(f, args)]: the results come back in the
  order of the arguments, whatever the number of processes.  A pool has
  at least one process ([mp.Pool] refuses a smaller count), hence
  [positive]. *)
Definition pool_starmap {A B : Type} (processes : positive) (f : A → B)
  (args : list A) : list B :=
f <$> args.

(** Merge of the sample lists of the batches. *)
Definition combine_samples (batch_results : list Batch.t)
  : list Z * list Z :=
  foldl (λ '(fps, fns) result,
           let fps := fps ++ take 100 (Batch.false_positive_numbers result) in
           let fns := fns ++ take 100 (Batch.false_negative_numbers result) in
           let fps := if 1000 <=? Z.of_nat (length fps)
                      then take 1000 fps else fps in
           let fns := if 1000 <=? Z.of_nat (length fns)
                      then take 1000 fns else fns in
           (fps, fns))
        ([], []) batch_results.

Definition validate_primality_test_distributed (limit : Z)
    (known_primes : gset Z) (batch_size : Z)
    (num_processes : option positive) : res Results.t :=
  let num_processes := default cpu_count num_processes in
  batch_starts ← py_range 2 (limit + 1) batch_size;
  let batches :=
    (λ batch_start,
       (batch_start, Z.min (batch_start + batch_size - 1) limit))
      <$> batch_starts in
  let batch_results :=
    pool_starmap num_processes
      (λ b, validate_primality_test_batch b.1 b.2 known_primes) batches in
  let true_positives := py_sum (Batch.true_positives <$> batch_results) in
  let false_positives := py_sum (Batch.false_positives <$> batch_results) in
  let false_negatives := py_sum (Batch.false_negatives <$> batch_results) in
  let '(false_positive_numbers, false_negative_numbers) :=
    combine_samples batch_results in
  compile_results limit known_primes
    (Batch.mk true_positives false_positives false_negatives
       false_positive_numbers false_negative_numbers
       (concat (reverse (Batch.classifier_calls <$> batch_results)))).

(** Body of the loop over the batches of the sequential scan. *)
Definition process_batch (limit : Z) (known_primes : gset Z)
    (use_checkpoint : bool) (batch_size : Z) (acc : Batch.t * world)
    (batch_start : Z) : Batch.t * world :=
  let '(st, w) := acc in
  let batch_end := Z.min (batch_start + batch_size - 1) limit in
  let st := scan 1000 known_primes batch_start batch_end st in
  if use_checkpoint then
    let checkpoint_data :=
      Checkpoint.mk batch_end (Batch.true_positives st)
        (Batch.false_positives st) (Batch.false_negatives st)
        (isoformat_now (ticks w)) in
    (st, save_checkpoint checkpoint_data limit
           (World (files w) (S (ticks w))))
  else (st, w).

(** The counters and the first number of a sequential scan. *)
Definition initial_scan (limit : Z) (use_checkpoint : bool) (w : world)
  : Z * Batch.t :=
  match (if use_checkpoint then load_checkpoint limit w else None) with
  | Some checkpoint_data =>
      (Checkpoint.last_processed checkpoint_data + 1,
       Batch.mk (Checkpoint.true_positives checkpoint_data)
         (Checkpoint.false_positives checkpoint_data)
         (Checkpoint.false_negatives checkpoint_data) [] [] [])
  | None => (2, Batch.zero)
  end.

(** [validate_primality_test]; writing the report and the plots, which
    leave the result and the checkpoint files alone, is left out. *)
Definition validate_primality_test (limit : Z)
    (known_primes : option (gset Z)) (use_checkpoint : bool)
    (batch_size : Z) (distributed : bool) (w : world)
  : res (Results.t * world) :=
  known_primes ←
    match known_primes with
    | Some known_primes => Ok known_primes
    | None =>
        if low_memory then generate_known_primes limit "segmented"
        else generate_known_primes limit "auto"
    end;
  if distributed then
    results ← validate_primality_test_distributed limit known_primes
                batch_size None;
    mret (results, w)
  else
    let '(start, st) := initial_scan limit use_checkpoint w in
    batch_starts ← py_range start (limit + 1) batch_size;
    let '(st, w) :=
      foldl (process_batch limit known_primes use_checkpoint batch_size)
        (st, w) batch_starts in
    results ← compile_results limit known_primes st;
    mret (results, w).

(** [validate_with_oeis_primes], with the defaults of the run it starts. *)
Definition validate_with_oeis_primes (limit : Z) (w : world)
  : res (Results.t * world) :=
  known_primes ←
    (if 541 <? limit then generate_known_primes limit "auto"
     else Ok (list_to_set (filter (λ p, p ≤ limit) oeis_primes)));
  validate_primality_test limit (Some known_primes) false 1000000 false w.

(** [run_comprehensive_validation]: the results of the runs, by limit; the
    plot is left out. *)
Definition run_comprehensive_validation (limits : list Z) (w : world)
  : res (gmap Z Results.t * world) :=
  for_each limits
    (λ '(all_results, w) limit,
       '(results, w) ←
         validate_primality_test limit None false 1000000 false w;
       mret (<[limit := results]> all_results, w))
    (∅, w).

End Validator.

(** ** Command line *)

(** The parsed arguments of the command line; [output_dir] is in the path of
    the checkpoint files. *)
Module Args.
Record t : Type := mk {
    limit : Z;
    comprehensive : bool;
    oeis : bool;
    segmented_sieve : bool;
    low_memory : bool;
    checkpoint : bool;
    distributed : bool;
    batch_size : Z;
    processes : option Z
  }.
End Args.

Section Main.
Variable classify : Z → bool.
Variable cpu_count : positive.
Variable checkpoint_file : Z → string.
Variable isoformat_now : nat → string.

(** [main], after [parse_arguments]; the messages are left out. *)
Definition main (args : Args.t) (w : world) : res world :=
  let low_memory := Args.low_memory args in
  if Args.comprehensive args then
    let limits := [100; 1000; 10000; 100000] in
    let limits :=
      if 100000 <? Args.limit args then limits ++ [Args.limit args]
      else limits in
    '(_, w) ←
      run_comprehensive_validation low_memory classify cpu_count
        checkpoint_file isoformat_now limits w;
    mret w
  else if Args.oeis args then
    '(_, w) ←
      validate_with_oeis_primes low_memory classify cpu_count
        checkpoint_file isoformat_now (Args.limit args) w;
    mret w
  else
    let sieve_method :=
      if Args.segmented_sieve args then "segmented" else "auto" in
    known_primes ←
      generate_known_primes low_memory (Args.limit args) sieve_method;
    '(_, w) ←
      validate_primality_test low_memory classify cpu_count checkpoint_file
        isoformat_now (Args.limit args) (Some known_primes)
        (Args.checkpoint args) (Args.batch_size args)
        (Args.distributed args) w;
    mret w.
End Main.
End EnhancedPrimeValidator.

(** * prime_validator.py *)

Module PrimeValidator.
Section FileImport.
(** [str.strip] and [int] on a string ([None] for a [ValueError]). *)
Variable strip : string → string.
Variable int_of_string : string → option Z.

(** [PrimeValidator.load_known_primes_from_file].  The file system maps
    each path at which something is to what is there; opening an absent
    path raises [FileNotFoundError], the one exception that the function
    catches around [open] and the loop over the lines. *)
Definition load_known_primes_from_file
    (fs : gmap string text_file) (filepath : string) : res (gset Z) :=
  match fs !! filepath with
  | None => Ok ∅
  | Some (Lines lines) =>
      Ok (foldl (λ known_primes line,
                   match int_of_string (strip line) with
                   | Some prime => {[ prime ]} ∪ known_primes
                   | None => known_primes
                   end) ∅ lines)
  | Some Undecodable => Raise UnicodeDecodeError
  | Some Directory => Raise IsADirectoryError
  | Some Forbidden => Raise PermissionError
  end.
End FileImport.

(** Loop body of [PrimeValidator.generate_known_primes]. *)
Definition sieve_mark (sieve : list bool) (i : Z) : res (list bool) :=
  b ← np_getitem sieve i;
  mret (if b : bool then np_setslice (i * i) None i false sieve else sieve).

(** [PrimeValidator.generate_known_primes]: the standard sieve. *)
Definition generate_known_primes (limit : Z) : res (gset Z) :=
  sieve ← np_ones true (limit + 1);
  let sieve := np_setslice 0 (Some 2) 1 false sieve in
  root ← int_sqrt limit;
  sieve ← for_each (range2 2 (root + 1)) sieve_mark sieve;
  mret (list_to_set (np_where sieve)).

(** Body of the loop of [PrimeValidator.validate_primality_test]: every
    number is put to [self.classifier], whose cache is passed through, and
    the sample lists have no bound. *)
Definition check_number (known_primes : gset Z)
    (acc : Batch.t * gmap Z bool) (n : Z) : Batch.t * gmap Z bool :=
  let '(st, prime_cache) := acc in
  let '(is_prime, prime_cache) := PrimeClassifier.is_prime n prime_cache in
  let calls := n :: Batch.classifier_calls st in
  let is_known_prime := bool_decide (n ∈ known_primes) in
  if is_prime && is_known_prime then
    (Batch.mk (Batch.true_positives st + 1) (Batch.false_positives st)
       (Batch.false_negatives st) (Batch.false_positive_numbers st)
       (Batch.false_negative_numbers st) calls, prime_cache)
  else if is_prime && negb is_known_prime then
    (Batch.mk (Batch.true_positives st) (Batch.false_positives st + 1)
       (Batch.false_negatives st) (Batch.false_positive_numbers st ++ [n])
       (Batch.false_negative_numbers st) calls, prime_cache)
  else if negb is_prime && is_known_prime then
    (Batch.mk (Batch.true_positives st) (Batch.false_positives st)
       (Batch.false_negatives st + 1) (Batch.false_positive_numbers st)
       (Batch.false_negative_numbers st ++ [n]) calls, prime_cache)
  else
    (Batch.mk (Batch.true_positives st) (Batch.false_positives st)
       (Batch.false_negatives st) (Batch.false_positive_numbers st)
       (Batch.false_negative_numbers st) calls, prime_cache).

(** [PrimeValidator.validate_primality_test]; the report and the plots are
    left out.  The metrics are computed by the same text as in the enhanced
    validator. *)
Definition validate_primality_test (limit : Z)
    (known_primes : option (gset Z)) (prime_cache : gmap Z bool)
  : res (Results.t * gmap Z bool) :=
  known_primes ←
    match known_primes with
    | Some known_primes => Ok known_primes
    | None => generate_known_primes limit
    end;
  let '(st, prime_cache) :=
    foldl (check_number known_primes) (Batch.zero, prime_cache)
      (range2 2 (limit + 1)) in
  results ← EnhancedPrimeValidator.compile_results limit known_primes st;
  mret (results, prime_cache).

Definition validate_with_oeis_primes (limit : Z) (prime_cache : gmap Z bool)
  : res (Results.t * gmap Z bool) :=
  known_primes ←
    (if 541 <? limit then generate_known_primes limit
     else Ok (list_to_set (filter (λ p, p ≤ limit) oeis_primes)));
  validate_primality_test limit (Some known_primes) prime_cache.

(** [run_comprehensive_validation]: the results of the runs, by limit; the
    plot is left out. *)
Definition run_comprehensive_validation (limits : list Z)
    (prime_cache : gmap Z bool) : res (gmap Z Results.t * gmap Z bool) :=
  for_each limits
    (λ '(all_results, prime_cache) limit,
       '(results, prime_cache) ←
         validate_primality_test limit None prime_cache;
       mret (<[limit := results]> all_results, prime_cache))
    (∅, prime_cache).
(** The parsed arguments of the command line. *)
Module Args.
Record t : Type := mk {
    limit : Z;
    comprehensive : bool;
    oeis : bool
  }.
End Args.

(** [main], after [parse_arguments]: the validator is new, and so is the
    cache of its classifier; the messages are left out. *)
Definition main (args : Args.t) : res unit :=
  let prime_cache : gmap Z bool := ∅ in
  if Args.comprehensive args then
    let limits := [100; 1000; 10000] in
    let limits :=
      if 10000 <? Args.limit args then limits ++ [Args.limit args]
      else limits in
    _ ← run_comprehensive_validation limits prime_cache;
    mret ()
  else if Args.oeis args then
    _ ← validate_with_oeis_primes (Args.limit args) prime_cache;
    mret ()
  else
    _ ← validate_primality_test (Args.limit args) None prime_cache;
    mret ().
End PrimeValidator.

(** * Notions of the design document *)

(** The ground-truth oracle of the design's testable properties: trial
    division of [n] by every candidate divisor from 2 up to its square
    root. *)
Definition trial_division (n : Z) : bool :=
  forallb (λ d, negb (n mod d =? 0)) (range2 2 (Z.sqrt n + 1)).

(** The design's [ValidationCounters] of a scan state and of a result. *)
Definition counters (st : Batch.t) : Z * Z * Z :=
  (Batch.true_positives st, Batch.false_positives st,
   Batch.false_negatives st).

Definition result_counters (r : Results.t) : Z * Z * Z :=
  (Results.true_positives r, Results.false_positives r,
   Results.false_negatives r).

(** The metrics as the design derives them: each quotient, and 0 when its
    denominator is 0. *)
Definition ratio_or_zero (num den : Q) : Q :=
  if Qeq_bool den 0 then 0%Q else (num / den)%Q.

Definition metrics_as_designed (r : Results.t) : Prop :=
  let tp := Results.true_positives r in
  let fp := Results.false_positives r in
  let fn := Results.false_negatives r in
  Results.precision r = ratio_or_zero (inject_Z tp) (inject_Z (tp + fp)) ∧
  Results.recall r = ratio_or_zero (inject_Z tp) (inject_Z (tp + fn)) ∧
  Results.f1_score r
    = ratio_or_zero (2 * Results.precision r * Results.recall r)%Q
        (Results.precision r + Results.recall r)%Q ∧
  Results.accuracy r
    = ratio_or_zero (inject_Z tp) (inject_Z (Results.total_known_primes r)).


(** A checkpoint a run can have written: its counters are counts. *)
Definition checkpoint_counts (c : Checkpoint.t) : Prop :=
  0 ≤ Checkpoint.true_positives c ∧ 0 ≤ Checkpoint.false_positives c
  ∧ 0 ≤ Checkpoint.false_negatives c.

(** Primality as a boolean: from 2 on, and no divisor found by trial
    division. *)
Definition primeb (n : Z) : bool := (2 <=? n) && trial_division n.

(** What [classify_prime] answers for a number on a new classifier. *)
Definition classification_of (inner_score outer_score cross_score : Z → Q)
    (n : Z) : bool * string * Q :=
  (PrimeClassifier.classify_prime inner_score outer_score cross_score n
     PrimeClassifier.init).1.

Import EnhancedPrimeValidator.

(** * Notions used in the proofs *)

(** State of the array once every [d < i] has been handled: the entries up
    to [limit] that are still set are the numbers from 2 on without a
    divisor [d] in [2, i) whose square they reach. *)
Definition standard_inv (limit i : Z) (sieve : list bool) : Prop :=
  Z.of_nat (length sieve) = limit + 1 ∧
  ∀ k : nat, Z.of_nat k ≤ limit →
    ∃ b : bool, sieve !! k = Some b ∧
      (b = true ↔ 2 ≤ Z.of_nat k ∧
         ∀ d, 2 ≤ d < i → d * d ≤ Z.of_nat k → ¬ (d | Z.of_nat k)).

(** The same for the bit sieve, index [k] standing for [2k+1] and loop
    index [j] for the divisor [2j+1]. *)
Definition bit_inv (limit i : Z) (sieve : list Z) : Prop :=
  Z.of_nat (length sieve) = (limit - 1) / 2 + 1 ∧
  ∀ k : nat, Z.of_nat k ≤ (limit - 1) / 2 →
    ∃ b : Z, sieve !! k = Some b ∧
      (b ≠ 0 ↔
         ∀ j, 1 ≤ j < i →
           (2 * j + 1) * (2 * j + 1) ≤ 2 * Z.of_nat k + 1 →
           ¬ (2 * j + 1 | 2 * Z.of_nat k + 1)).

(** Counters that are counts. *)
Definition batch_counts (st : Batch.t) : Prop :=
  0 ≤ Batch.true_positives st ∧ 0 ≤ Batch.false_positives st
  ∧ 0 ≤ Batch.false_negatives st.


(** What one number adds to the three counters. *)
Definition increment (classify : Z → bool) (known_primes : gset Z) (n : Z)
  : Z * Z * Z :=
  counters (check_number classify 0 known_primes Batch.zero n).

(** The batch results of the distributed run, for the given batch starts. *)
Definition batch_results_of (classify : Z → bool) (limit : Z)
    (known_primes : gset Z) (batch_size : Z) (starts : list Z)
  : list Batch.t :=
  (λ b : Z * Z, validate_primality_test_batch classify b.1 b.2 known_primes)
    <$> ((λ batch_start,
            (batch_start, Z.min (batch_start + batch_size - 1) limit))
           <$> starts).

(** * A concrete validator

    The validator as the repository builds it, for running the model: the
    classifier is [PrimeClassifier] starting from its empty cache, with four
    processor cores, checkpoints under [output] and a fixed clock. *)

Definition example_classifier (n : Z) : bool :=
  (PrimeClassifier.is_prime n ∅).1.

Definition example_checkpoint_file (limit : Z) : string :=
  "output/checkpoint_" +:+ pretty limit +:+ ".pkl".

Definition example_clock (k : nat) : string :=
  "2025-01-01T00:00:00." +:+ pretty k.

Definition example_validate :=
  validate_primality_test false example_classifier 4%positive
    example_checkpoint_file example_clock.

Definition example_known_primes : gset Z :=
  list_to_set [2; 3; 5; 7; 11; 13; 17; 19; 23; 29].


(** A reading of [int] for the examples: decimal digits, with an optional
    minus sign. *)
Definition example_digit (c : Ascii.ascii) : option Z :=
  let n := Z.of_nat (Ascii.nat_of_ascii c) in
  if (48 <=? n) && (n <=? 57) then Some (n - 48) else None.

Fixpoint example_digits (acc : Z) (s : string) : option Z :=
  match s with
  | EmptyString => Some acc
  | String c s' =>
      match example_digit c with
      | Some d => example_digits (10 * acc + d) s'
      | None => None
      end
  end.

Definition example_int (s : string) : option Z :=
  match s with
  | EmptyString => None
  | String c s' =>
      if Z.of_nat (Ascii.nat_of_ascii c) =? 45 then
        match s' with
        | EmptyString => None
        | _ => Z.opp <$> example_digits 0 s'
        end
      else example_digits 0 s
  end.

(** The classifier of the design's scenario: odd and greater than 1. *)
Definition odd_classifier (n : Z) : bool := (1 <? n) && (n mod 2 =? 1).

(** A text file of primes with two lines that are no integers, beside a
    directory and a binary file. *)
Definition example_files : gmap string text_file :=
  {[ "primes.txt" := Lines ["2"; "3"; "five"; ""; "7"; "3"];
     "output" := Directory;
     "primes.pkl" := Undecodable ]}.

(** Score functions for running the classifier of the model: any three
    functions of the number will do. *)
Definition example_inner_score (n : Z) : Q := inject_Z (n mod 3) / 2.
Definition example_outer_score (n : Z) : Q := inject_Z (n mod 5) / 4.
Definition example_cross_score (n : Z) : Q := inject_Z (n mod 7) / 6.

Definition example_classify_prime :=
  PrimeClassifier.classify_prime example_inner_score example_outer_score
    example_cross_score.

(** The item that [batch_classify_primes] lists for a prime [n]. *)
Definition entry_of (inner_score outer_score cross_score : Z → Q) (n : Z)
  : PrimeClassifier.entry :=
  let r := classification_of inner_score outer_score cross_score n in
  PrimeClassifier.Entry n r.1.2 r.2.

(** The primes of a class, as a new classifier sees them. *)
Definition in_class (inner_score outer_score cross_score : Z → Q)
    (wanted : string) (n : Z) : bool :=
  let r := classification_of inner_score outer_score cross_score n in
  r.1.1 && String.eqb r.1.2 wanted.

(** The item that [find_primes_by_classification] lists for [n]. *)
Definition match_of (inner_score outer_score cross_score : Z → Q)
    (wanted : string) (n : Z) : PrimeClassifier.entry :=
  PrimeClassifier.Entry n wanted
    (classification_of inner_score outer_score cross_score n).2.

(** The numbers of a list on which a primality test and a ground-truth set
    agree that they are prime, and those on which they differ. *)
Definition agreed_primes (test : Z → bool) (known_primes : gset Z)
    (ns : list Z) : list Z :=
  filter (λ n, test n = true ∧ n ∈ known_primes) ns.

Definition wrongly_accepted (test : Z → bool) (known_primes : gset Z)
    (ns : list Z) : list Z :=
  filter (λ n, test n = true ∧ n ∉ known_primes) ns.

Definition wrongly_refused (test : Z → bool) (known_primes : gset Z)
    (ns : list Z) : list Z :=
  filter (λ n, test n = false ∧ n ∈ known_primes) ns.

(** The numbers the enhanced validator puts to the classifier: all but the
    even numbers above 2. *)
Definition candidates (ns : list Z) : list Z :=
  filter (λ n, (2 <? n) && (n mod 2 =? 0) = false) ns.

(** The set of the primes up to a limit. *)
Definition primes_up_to (limit : Z) : gset Z :=
  list_to_set (filter (λ n, primeb n = true) (range2 2 (limit + 1))).




(** * Properties *)

(** ** The error monad and loops *)

Lemma bind_Ok {A B : Type} (f : A → res B) (a : A) : (Ok a ≫= f) = f a.
Proof. reflexivity. Qed.

Lemma for_each_app {A St : Type} (xs ys : list A) (body : St → A → res St) s s' :
  for_each xs body s = Ok s' →
  for_each (xs ++ ys) body s = for_each ys body s'.
Proof.
  revert s. induction xs as [|x xs IH]; intros s; simpl.
  - by intros [= ->].
  - destruct (body s x); [apply IH | discriminate].
Qed.

(** Invariant rule for a loop over an arithmetic progression. *)
Lemma for_each_range_from {St : Type} (P : Z → St → Prop)
    (body : St → Z → res St) (n : nat) (start step : Z) (s : St) :
  P start s →
  (∀ (k : nat) t, (k < n)%nat → P (start + Z.of_nat k * step) t →
     ∃ t', body t (start + Z.of_nat k * step) = Ok t'
           ∧ P (start + (Z.of_nat k + 1) * step) t') →
  ∃ s', for_each (range_from n start step) body s = Ok s'
        ∧ P (start + Z.of_nat n * step) s'.
Proof.
  revert start s. induction n as [|n IH]; intros start s H0 Hstep; simpl.
  - exists s. split; [done|].
    by replace (start + Z.of_nat 0 * step) with start by lia.
  - destruct (Hstep 0%nat s) as (t & Hb & Ht); [lia | |].
    { by replace (start + Z.of_nat 0 * step) with start by lia. }
    replace (start + Z.of_nat 0 * step) with start in Hb by lia.
    replace (start + (Z.of_nat 0 + 1) * step) with (start + step) in Ht by lia.
    rewrite Hb.
    destruct (IH (start + step) t) as (s' & Hs' & HP); [done | |].
    + intros k u Hk Hu.
      replace (start + step + Z.of_nat k * step)
        with (start + Z.of_nat (S k) * step) in * by lia.
      destruct (Hstep (S k) u) as (u' & Hu1 & Hu2); [lia | done |].
      exists u'. split; [done|].
      by replace (start + step + (Z.of_nat k + 1) * step)
        with (start + (Z.of_nat (S k) + 1) * step) by lia.
    + exists s'. split; [done|].
      by replace (start + Z.of_nat (S n) * step)
        with (start + step + Z.of_nat n * step) by lia.
Qed.

Lemma foldl_range_from {St : Type} (P : Z → St → Prop) (body : St → Z → St)
    (n : nat) (start step : Z) (s : St) :
  P start s →
  (∀ (k : nat) t, (k < n)%nat → P (start + Z.of_nat k * step) t →
     P (start + (Z.of_nat k + 1) * step) (body t (start + Z.of_nat k * step))) →
  P (start + Z.of_nat n * step) (foldl body s (range_from n start step)).
Proof.
  revert start s. induction n as [|n IH]; intros start s H0 Hstep; simpl.
  - by replace (start + Z.of_nat 0 * step) with start by lia.
  - replace (start + Z.of_nat (S n) * step)
      with (start + step + Z.of_nat n * step) by lia.
    apply IH.
    + specialize (Hstep 0%nat s).
      replace (start + Z.of_nat 0 * step) with start in Hstep by lia.
      replace (start + (Z.of_nat 0 + 1) * step) with (start + step)
        in Hstep by lia.
      apply Hstep; [lia | done].
    + intros k u Hk Hu.
      specialize (Hstep (S k) u).
      replace (start + Z.of_nat (S k) * step)
        with (start + step + Z.of_nat k * step) in Hstep by lia.
      replace (start + (Z.of_nat (S k) + 1) * step)
        with (start + step + (Z.of_nat k + 1) * step) in Hstep by lia.
      apply Hstep; [lia | done].
Qed.

(** ** Ranges *)

Lemma elem_of_range_from (n : nat) (start step x : Z) :
  x ∈ range_from n start step
  ↔ ∃ i : nat, (i < n)%nat ∧ x = start + Z.of_nat i * step.
Proof.
  revert start. induction n as [|n IH]; intros start; simpl.
  - split; [intros H; inversion H | intros (i & ? & ?); lia].
  - rewrite elem_of_cons, IH. split.
    + intros [-> | (i & Hi & ->)].
      * exists 0%nat. split; lia.
      * exists (S i). split; lia.
    + intros (i & Hi & ->). destruct i as [|i].
      * left. lia.
      * right. exists i. split; lia.
Qed.

Lemma range_len_spec (start stop step i : Z) :
  0 < step → 0 ≤ i →
  (i < range_len start stop step ↔ start + i * step < stop).
Proof.
  intros Hstep Hi. unfold range_len.
  destruct (Z.ltb_spec 0 step); [|lia].
  destruct (Z.ltb_spec start stop).
  - pose proof (Z.div_mod (stop - start - 1) step ltac:(lia)) as Hdm.
    pose proof (Z.mod_pos_bound (stop - start - 1) step Hstep) as Hmod.
    split; intros; nia.
  - split; intros; nia.
Qed.

Lemma range_len_nonneg (start stop step : Z) :
  0 < step → 0 ≤ range_len start stop step.
Proof.
  intros Hstep. unfold range_len.
  destruct (Z.ltb_spec 0 step); [|lia].
  destruct (Z.ltb_spec start stop); [|lia].
  pose proof (Z.div_pos (stop - start - 1) step). lia.
Qed.

Lemma elem_of_range3 (start stop step x : Z) :
  0 < step →
  x ∈ range3 start stop step
  ↔ start ≤ x < stop ∧ (x - start) mod step = 0.
Proof.
  intros Hstep. unfold range3. rewrite elem_of_range_from. split.
  - intros (i & Hi & ->).
    assert (Z.of_nat i < range_len start stop step) as Hlt by lia.
    apply range_len_spec in Hlt; [|lia..].
    split; [nia|].
    replace (start + Z.of_nat i * step - start) with (Z.of_nat i * step) by lia.
    apply Z.mod_mul. lia.
  - intros [[Hlo Hhi] Hmod].
    apply Z.mod_divide in Hmod; [|lia].
    destruct Hmod as [q Hq].
    assert (0 ≤ q) by nia.
    exists (Z.to_nat q). split.
    + assert (q < range_len start stop step); [|lia].
      apply range_len_spec; [lia..|]. nia.
    + lia.
Qed.

Lemma range_len_1 (start stop : Z) :
  range_len start stop 1 = Z.max 0 (stop - start).
Proof.
  unfold range_len. simpl.
  destruct (Z.ltb_spec start stop); [|lia].
  rewrite Z.div_1_r. lia.
Qed.

Lemma range2_range_from (start stop : Z) :
  range2 start stop = range_from (Z.to_nat (stop - start)) start 1.
Proof.
  unfold range2, range3. rewrite range_len_1. f_equal. lia.
Qed.

Lemma elem_of_range2 (start stop x : Z) :
  x ∈ range2 start stop ↔ start ≤ x < stop.
Proof.
  unfold range2. rewrite elem_of_range3 by lia.
  rewrite Z.mod_1_r. intuition lia.
Qed.

Lemma range_from_app (n m : nat) (start step : Z) :
  range_from (n + m) start step
  = range_from n start step ++ range_from m (start + Z.of_nat n * step) step.
Proof.
  revert start. induction n as [|n IH]; intros start; simpl.
  - f_equal. lia.
  - f_equal. rewrite IH. do 2 f_equal. lia.
Qed.

Lemma range2_split (a b c : Z) :
  a ≤ b → b ≤ c → range2 a c = range2 a b ++ range2 b c.
Proof.
  intros Hab Hbc. rewrite !range2_range_from.
  replace (Z.to_nat (c - a)) with (Z.to_nat (b - a) + Z.to_nat (c - b))%nat by lia.
  rewrite range_from_app. do 2 f_equal. lia.
Qed.

Lemma range2_empty (a b : Z) : b ≤ a → range2 a b = [].
Proof.
  intros H. rewrite range2_range_from.
  by replace (Z.to_nat (b - a)) with 0%nat by lia.
Qed.

(** ** Arrays *)

Lemma np_ones_Ok {A : Type} (one : A) (n : Z) :
  0 ≤ n → np_ones one n = Ok (replicate (Z.to_nat n) one).
Proof. intros H. unfold np_ones. by destruct (Z.ltb_spec n 0); [lia|]. Qed.

Lemma np_index_Ok {A : Type} (a : list A) (i : Z) :
  0 ≤ i < Z.of_nat (length a) → np_index a i = Ok (Z.to_nat i).
Proof.
  intros H. unfold np_index.
  destruct (Z.leb_spec 0 i); [|lia].
  by destruct (Z.ltb_spec i (Z.of_nat (length a))); [|lia].
Qed.

Lemma np_getitem_Ok {A : Type} (a : list A) (i : Z) (x : A) :
  0 ≤ i → a !! Z.to_nat i = Some x → np_getitem a i = Ok x.
Proof.
  intros Hi Hx. unfold np_getitem.
  rewrite np_index_Ok; [simpl; by rewrite Hx|].
  apply lookup_lt_Some in Hx. lia.
Qed.

Lemma np_setitem_Ok {A : Type} (a : list A) (i : Z) (v : A) :
  0 ≤ i < Z.of_nat (length a) →
  np_setitem a i v = Ok (<[Z.to_nat i := v]> a).
Proof. intros H. unfold np_setitem. by rewrite np_index_Ok. Qed.

(** Filling the positions listed in [js]. *)
Lemma length_fill {A : Type} (v : A) (js : list Z) (a : list A) :
  length (foldr (λ j acc, <[Z.to_nat j := v]> acc) a js) = length a.
Proof.
  induction js as [|j js IH]; simpl; [done|]. by rewrite length_insert.
Qed.

Lemma lookup_fill {A : Type} (v : A) (js : list Z) (a : list A) (k : nat) :
  (∀ j, j ∈ js → 0 ≤ j) →
  foldr (λ j acc, <[Z.to_nat j := v]> acc) a js !! k
  = if decide (Z.of_nat k ∈ js) then const v <$> a !! k else a !! k.
Proof.
  induction js as [|j js IH]; intros Hpos; cbn [foldr].
  - case_decide as H; [inversion H | done].
  - assert (0 ≤ j) by (apply Hpos; left).
    assert (∀ j', j' ∈ js → 0 ≤ j') as Hpos' by (intros; apply Hpos; by right).
    specialize (IH Hpos').
    destruct (decide (Z.to_nat j = k)) as [<-|Hne].
    + rewrite decide_True by (rewrite Z2Nat.id by lia; left).
      destruct (decide (Z.to_nat j < length a)%nat) as [Hlt|Hge].
      * rewrite list_lookup_insert_eq by (by rewrite length_fill).
        destruct (lookup_lt_is_Some_2 a _ Hlt) as [x ->]. done.
      * rewrite list_insert_ge by (rewrite length_fill; lia).
        rewrite IH. rewrite (lookup_ge_None_2 a) by lia.
        by case_decide.
    + rewrite list_lookup_insert_ne by done. rewrite IH.
      destruct (decide (Z.of_nat k ∈ js)) as [Hin|Hnin].
      * by rewrite decide_True by (by right).
      * rewrite decide_False; [done|].
        rewrite elem_of_cons. intros [?|?]; [lia | done].
Qed.

Lemma length_np_setslice {A : Type} start stop step (v : A) a :
  length (np_setslice start stop step v a) = length a.
Proof. apply length_fill. Qed.

(** [a[start::step] = v] for a start within or beyond the array. *)
Lemma lookup_np_setslice_from {A : Type} (start step : Z) (v : A)
    (a : list A) (k : nat) :
  0 ≤ start → 0 < step →
  np_setslice start None step v a !! k
  = if decide (start ≤ Z.of_nat k ∧ (Z.of_nat k - start) mod step = 0)
    then const v <$> a !! k else a !! k.
Proof.
  intros Hstart Hstep. unfold np_setslice, slice_bound. simpl.
  destruct (Z.ltb_spec start 0); [lia|].
  rewrite lookup_fill.
  2:{ intros j Hj. apply elem_of_range3 in Hj; lia. }
  destruct (decide (Z.of_nat k < Z.of_nat (length a))) as [Hk|Hk].
  - case_decide as Hin;
      rewrite elem_of_range3 in * by done.
    + rewrite decide_True; [done|].
      destruct Hin as [[Hlo _] Hmod].
      destruct (Z.min_spec start (Z.of_nat (length a))) as [[? E]|[? E]];
        rewrite E in *; [done | lia].
    + rewrite decide_False; [done|].
      intros [Hlo Hmod]. apply Hin.
      rewrite Z.min_l by lia. done.
  - rewrite (lookup_ge_None_2 a) by lia.
    by repeat case_decide.
Qed.

(** [a[0:2] = v] *)
Lemma lookup_np_setslice_0_2 {A : Type} (v : A) (a : list A) (k : nat) :
  np_setslice 0 (Some 2) 1 v a !! k
  = if decide (k < 2)%nat then const v <$> a !! k else a !! k.
Proof.
  unfold np_setslice, slice_bound. simpl.
  rewrite lookup_fill.
  2:{ intros j Hj. apply elem_of_range3 in Hj; lia. }
  destruct (decide (Z.of_nat k < Z.of_nat (length a))) as [Hk|Hk].
  - case_decide as Hin;
      rewrite elem_of_range3 in * by lia.
    + rewrite decide_True; [done | lia].
    + rewrite decide_False; [done|].
      intros Hlt. apply Hin. rewrite Z.mod_1_r. lia.
  - rewrite (lookup_ge_None_2 a) by lia.
    by repeat case_decide.
Qed.

Lemma elem_of_enumerate_from {A : Type} (k i : Z) (x : A) (a : list A) :
  (i, x) ∈ enumerate_from k a
  ↔ ∃ j : nat, a !! j = Some x ∧ i = k + Z.of_nat j.
Proof.
  revert k. induction a as [|y a IH]; intros k; simpl.
  - split; [intros H; inversion H | intros (j & H & _); done].
  - rewrite elem_of_cons, IH. split.
    + intros [[= -> ->] | (j & Hj & ->)].
      * exists 0%nat. split; [done | lia].
      * exists (S j). split; [done | lia].
    + intros (j & Hj & ->). destruct j as [|j]; simpl in Hj.
      * left. injection Hj as ->. f_equal. lia.
      * right. exists j. split; [done | lia].
Qed.

Lemma elem_of_enumerate {A : Type} (i : Z) (x : A) (a : list A) :
  (i, x) ∈ enumerate a ↔ 0 ≤ i ∧ a !! Z.to_nat i = Some x.
Proof.
  unfold enumerate. rewrite elem_of_enumerate_from. split.
  - intros (j & Hj & ->). split; [lia|]. by rewrite Z.add_0_l, Nat2Z.id.
  - intros [Hi Hx]. exists (Z.to_nat i). split; [done | lia].
Qed.

Lemma elem_of_np_where (a : list bool) (i : Z) :
  i ∈ np_where a ↔ 0 ≤ i ∧ a !! Z.to_nat i = Some true.
Proof.
  unfold np_where. rewrite list_elem_of_fmap. split.
  - intros ([j b] & -> & Hin). apply list_elem_of_filter in Hin as [Hb Hin].
    simpl in *. subst b. by apply elem_of_enumerate.
  - intros H. exists (i, true). split; [done|].
    apply list_elem_of_filter. split; [done|]. by apply elem_of_enumerate.
Qed.

(** ** Primes and small divisors *)

Lemma prime_no_small_divisor (n : Z) :
  2 ≤ n → (prime n ↔ ∀ d, 2 ≤ d → d * d ≤ n → ¬ (d | n)).
Proof.
  intros Hn. rewrite <- prime_alt. unfold Z.prime. split.
  - intros [_ H] d Hd Hdd. apply H. nia.
  - intros H. split; [lia|]. intros e He [q Hq].
    assert (1 < q) by nia.
    destruct (Z.le_ge_cases e q).
    + apply (H e); [lia | nia | by exists q].
    + apply (H q); [lia | nia | exists e; lia].
Qed.

Lemma exists_prime_divisor (n : Z) : 2 ≤ n → ∃ p, prime p ∧ (p | n).
Proof.
  intros Hn. remember (Z.to_nat n) as m eqn:Hm. revert n Hn Hm.
  induction m as [m IH] using lt_wf_ind. intros n Hn ->.
  destruct (prime_dec n) as [Hp|Hnp].
  - exists n. split; [done | apply Z.divide_refl].
  - destruct (not_prime_divide n ltac:(lia) Hnp) as (d & Hd & Hdn).
    destruct (IH (Z.to_nat d) ltac:(lia) d ltac:(lia) eq_refl)
      as (p & Hp & Hpd).
    exists p. split; [done|]. by apply Z.divide_trans with d.
Qed.

Lemma composite_small_prime_factor (n : Z) :
  2 ≤ n → ¬ prime n → ∃ p, prime p ∧ (p | n) ∧ p * p ≤ n.
Proof.
  intros Hn Hnp.
  destruct (not_prime_divide n ltac:(lia) Hnp) as (d & Hd & [q Hq]).
  assert (1 < q) by nia.
  assert (∃ e, 2 ≤ e ∧ e * e ≤ n ∧ (e | n)) as (e & He & Hee & Hen).
  { destruct (Z.le_ge_cases d q).
    - exists d. split; [lia|]. split; [nia | by exists q].
    - exists q. split; [lia|]. split; [nia | exists d; lia]. }
  destruct (exists_prime_divisor e He) as (p & Hp & Hpe).
  exists p. split; [done|]. split; [by apply Z.divide_trans with e|].
  pose proof (Z.prime_ge_2 p (proj2 (prime_alt p) Hp)).
  pose proof (Z.divide_pos_le p e ltac:(lia) Hpe). nia.
Qed.

(** ** The standard sieve *)

Lemma standard_inv_init (limit : Z) :
  0 ≤ limit →
  standard_inv limit 2
    (np_setslice 0 (Some 2) 1 false (replicate (Z.to_nat (limit + 1)) true)).
Proof.
  intros Hl. split.
  - rewrite length_np_setslice, length_replicate. lia.
  - intros k Hk. rewrite lookup_np_setslice_0_2.
    rewrite lookup_replicate_2 by lia.
    case_decide; simpl; eexists; (split; [done|]).
    + split; [done | lia].
    + split; [intros _; split; [lia|intros; lia] | done].
Qed.

Lemma standard_inv_step (limit i : Z) (sieve : list bool) :
  2 ≤ i → i * i ≤ limit → standard_inv limit i sieve →
  ∃ sieve', sieve_mark sieve i = Ok sieve'
            ∧ standard_inv limit (i + 1) sieve'.
Proof.
  intros Hi Hii [Hlen Hinv].
  destruct (Hinv (Z.to_nat i) ltac:(nia)) as (b & Hb & Hbspec).
  rewrite Z2Nat.id in Hbspec by lia.
  unfold sieve_mark. rewrite (np_getitem_Ok _ _ b) by (done || lia). simpl.
  eexists. split; [done|].
  destruct b.
  - split; [by rewrite length_np_setslice|].
    intros k Hk. destruct (Hinv k Hk) as (c & Hc & Hcspec).
    rewrite lookup_np_setslice_from by nia. rewrite Hc. simpl.
    case_decide as Hmark.
    + exists false. split; [done|]. split; [done|].
      intros [_ Hnd]. exfalso. destruct Hmark as [Hle Hmod].
      apply (Hnd i); [lia | done |].
      apply Z.mod_divide in Hmod; [|lia].
      destruct Hmod as [q Hq]. exists (q + i). lia.
    + exists c. split; [done|]. rewrite Hcspec. split.
      * intros [H2 Hnd]. split; [done|]. intros d Hd Hdd Hdiv.
        destruct (decide (d = i)) as [->|Hne].
        -- apply Hmark. split; [done|].
           apply Z.mod_divide; [lia|].
           destruct Hdiv as [q Hq]. exists (q - i). lia.
        -- apply (Hnd d); [lia | done..].
      * intros [H2 Hnd]. split; [done|]. intros d Hd. apply Hnd. lia.
  - split; [done|].
    intros k Hk. destruct (Hinv k Hk) as (c & Hc & Hcspec).
    exists c. split; [done|]. rewrite Hcspec. split.
    + intros [H2 Hnd]. split; [done|]. intros d Hd Hdd Hdiv.
      destruct (decide (d = i)) as [->|Hne]; [|apply (Hnd d); (lia || done)].
      assert (true = false); [|done].
      symmetry. apply Hbspec. split; [lia|].
      intros e He Hee Hei. apply (Hnd e); [lia | nia |].
      by apply Z.divide_trans with i.
    + intros [H2 Hnd]. split; [done|]. intros d Hd. apply Hnd. lia.
Qed.

(** The set the standard sieve returns, for every limit it accepts. *)
Lemma standard_sieve_elem (limit : Z) :
  0 ≤ limit →
  ∃ known_primes,
    generate_known_primes_standard limit = Ok known_primes ∧
    ∀ n, n ∈ known_primes ↔ 2 ≤ n ≤ limit ∧ prime n.
Proof.
  intros Hl. unfold generate_known_primes_standard.
  rewrite np_ones_Ok by lia. simpl.
  unfold int_sqrt. destruct (Z.ltb_spec limit 0); [lia|]. simpl.
  pose proof (Z.sqrt_spec limit Hl) as Hsqrt. simpl in Hsqrt.
  pose proof (Z.sqrt_nonneg limit) as Hs0.
  unfold isqrt. set (root := Z.sqrt limit) in *.
  rewrite range2_range_from.
  destruct (for_each_range_from
              (λ i sieve, 2 ≤ i ≤ Z.max 2 (root + 1) ∧ standard_inv limit i sieve)
              sieve_mark (Z.to_nat (root + 1 - 2)) 2 1
              (np_setslice 0 (Some 2) 1 false
                 (replicate (Z.to_nat (limit + 1)) true)))
    as (sieve & Hrun & [_ [Hlen Hinv]]).
  { split; [lia | by apply standard_inv_init]. }
  { intros k t Hk [Hrange Ht].
    destruct (standard_inv_step limit (2 + Z.of_nat k * 1) t)
      as (t' & Ht' & Hinv'); [lia | nia | done |].
    exists t'. split; [done|]. split; [lia|].
    by replace (2 + (Z.of_nat k + 1) * 1) with (2 + Z.of_nat k * 1 + 1) by lia. }
  rewrite Hrun. simpl. eexists. split; [done|].
  intros n. rewrite elem_of_list_to_set, elem_of_np_where. split.
  - intros [Hn Hlook].
    assert (n ≤ limit) as Hnl.
    { apply lookup_lt_Some in Hlook. lia. }
    destruct (Hinv (Z.to_nat n) ltac:(lia)) as (b & Hb & Hbspec).
    rewrite Z2Nat.id in Hbspec by lia.
    assert (b = true) as -> by congruence.
    destruct Hbspec as [[H2 Hnd] _]; [done|].
    split; [lia|]. apply prime_no_small_divisor; [done|].
    intros d Hd Hdd. apply Hnd; [nia | done].
  - intros [[H2 Hnl] Hp]. split; [lia|].
    destruct (Hinv (Z.to_nat n) ltac:(lia)) as (b & Hb & Hbspec).
    rewrite Z2Nat.id in Hbspec by lia.
    rewrite Hb. f_equal. apply Hbspec. split; [done|].
    intros d Hd Hdd. apply prime_no_small_divisor; (lia || done).
Qed.

(** ** The bit sieve *)

(** Index [k] of the bit sieve stands for the odd number [2k+1]; the slice
    that starts at the index of [p^2] and steps by [p] covers the odd
    multiples of [p] from [p^2] on. *)
Lemma bit_slice_multiples (p k : Z) :
  3 ≤ p → p mod 2 = 1 → 0 ≤ k →
  ((p * p - 1) / 2 ≤ k ∧ (k - (p * p - 1) / 2) mod p = 0)
  ↔ (p * p ≤ 2 * k + 1 ∧ (p | 2 * k + 1)).
Proof.
  intros Hp Hodd Hk.
  assert (∃ h, p * p = 2 * h + 1) as [h Hh].
  { pose proof (Z.div_mod p 2 ltac:(lia)) as E. rewrite Hodd in E.
    exists (2 * (p / 2) * (p / 2) + 2 * (p / 2)). nia. }
  assert ((p * p - 1) / 2 = h) as ->.
  { replace (p * p - 1) with (h * 2) by lia. apply Z.div_mul. lia. }
  split.
  - intros [Hle Hmod]. apply Z.mod_divide in Hmod; [|lia].
    destruct Hmod as [m Hm]. split; [lia|].
    exists (p + 2 * m). nia.
  - intros [Hle [q Hq]]. split; [lia|].
    apply Z.mod_divide; [lia|].
    assert (p ≤ q) by nia.
    assert (q mod 2 = 1) as Hq2.
    { pose proof (Z.div_mod q 2 ltac:(lia)) as E.
      pose proof (Z.mod_pos_bound q 2 ltac:(lia)).
      pose proof (Z.div_mod p 2 ltac:(lia)) as E'. rewrite Hodd in E'.
      assert (q mod 2 = 0 ∨ q mod 2 = 1) as [E0|E1] by lia; [|done].
      rewrite E0 in E. exfalso.
      assert (2 * k + 1 = 2 * ((q / 2) * p)) by nia. lia. }
    pose proof (Z.div_mod p 2 ltac:(lia)) as Ep. rewrite Hodd in Ep.
    pose proof (Z.div_mod q 2 ltac:(lia)) as Eq. rewrite Hq2 in Eq.
    exists (q / 2 - p / 2). nia.
Qed.

Lemma bit_inv_step (limit i : Z) (sieve : list Z) :
  1 ≤ i ≤ (limit - 1) / 2 → bit_inv limit i sieve →
  ∃ sieve', bit_sieve_mark sieve i = Ok sieve'
            ∧ bit_inv limit (i + 1) sieve'.
Proof.
  intros Hi [Hlen Hinv].
  destruct (Hinv (Z.to_nat i) ltac:(lia)) as (b & Hb & Hbspec).
  rewrite Z2Nat.id in Hbspec by lia.
  unfold bit_sieve_mark. rewrite (np_getitem_Ok _ _ b) by (done || lia). simpl.
  eexists. split; [done|].
  assert ((2 * i + 1) mod 2 = 1) as Hodd.
  { rewrite Z.add_comm, Z.mul_comm, Z.mod_add by lia. done. }
  destruct (Z.eqb_spec b 0) as [->|Hb0]; simpl.
  - split; [done|].
    intros k Hk. destruct (Hinv k Hk) as (c & Hc & Hcspec).
    exists c. split; [done|]. rewrite Hcspec. split.
    + intros Hnd j Hj Hjj Hdiv.
      destruct (decide (j = i)) as [->|Hne]; [|apply (Hnd j); (lia || done)].
      apply Hbspec; [|done].
      intros e He Hee Hei. apply (Hnd e); [lia | nia |].
      by apply Z.divide_trans with (2 * i + 1).
    + intros Hnd j Hj. apply Hnd. lia.
  - split; [by rewrite length_np_setslice|].
    intros k Hk. destruct (Hinv k Hk) as (c & Hc & Hcspec).
    assert (0 ≤ (2 * i + 1) * (2 * i + 1) - 1) by nia.
    rewrite lookup_np_setslice_from
      by (try apply Z.div_pos; lia).
    rewrite Hc. simpl.
    case_decide as Hmark.
    + exists 0. split; [done|]. split; [done|].
      intros Hnd. exfalso.
      apply bit_slice_multiples in Hmark; [|lia..].
      destruct Hmark as [Hle Hdiv]. by apply (Hnd i); [lia|..].
    + exists c. split; [done|]. rewrite Hcspec. split.
      * intros Hnd j Hj Hjj Hdiv.
        destruct (decide (j = i)) as [->|Hne];
          [|apply (Hnd j); (lia || done)].
        apply Hmark. apply bit_slice_multiples; [lia..|done].
      * intros Hnd j Hj. apply Hnd. lia.
Qed.

Lemma odd_divisor_of_odd (d n : Z) :
  0 < d → n mod 2 = 1 → (d | n) → d mod 2 = 1.
Proof.
  intros Hd Hn [q Hq].
  pose proof (Z.mod_pos_bound d 2 ltac:(lia)).
  pose proof (Z.div_mod d 2 ltac:(lia)) as E.
  assert (d mod 2 = 0 ∨ d mod 2 = 1) as [E0|E1] by lia; [|done].
  exfalso. rewrite E0 in E.
  assert (n = (q * (d / 2)) * 2) as Hn2 by nia.
  rewrite Hn2, Z.mod_mul in Hn by lia. done.
Qed.

(** From limit 2 on the bit sieve returns the primes up to the limit. *)
Lemma bit_sieve_elem (limit : Z) :
  2 ≤ limit →
  ∃ known_primes,
    generate_known_primes_bit_sieve limit = Ok known_primes ∧
    ∀ n, n ∈ known_primes ↔ 2 ≤ n ≤ limit ∧ prime n.
Proof.
  intros Hl. unfold generate_known_primes_bit_sieve.
  assert (0 ≤ (limit - 1) / 2) as Hsz by (apply Z.div_pos; lia).
  rewrite np_ones_Ok by lia. simpl.
  unfold int_sqrt. destruct (Z.ltb_spec limit 0); [lia|]. simpl.
  pose proof (Z.sqrt_spec limit ltac:(lia)) as Hsqrt. simpl in Hsqrt.
  pose proof (Z.sqrt_nonneg limit) as Hs0.
  unfold isqrt. set (root := Z.sqrt limit) in *.
  assert (0 ≤ root / 2) as Hr2 by (apply Z.div_pos; lia).
  assert (root / 2 ≤ (limit - 1) / 2) as Hr2l.
  { apply Z.div_le_mono; [lia|]. nia. }
  pose proof (Z.div_mod root 2 ltac:(lia)) as Hrdm.
  pose proof (Z.mod_pos_bound root 2 ltac:(lia)) as Hrmod.
  pose proof (Z.div_mod (limit - 1) 2 ltac:(lia)) as Hldm.
  pose proof (Z.mod_pos_bound (limit - 1) 2 ltac:(lia)) as Hlmod.
  rewrite range2_range_from.
  destruct (for_each_range_from
              (λ i sieve, 1 ≤ i ∧ bit_inv limit i sieve)
              bit_sieve_mark (Z.to_nat (root / 2 + 1 - 1)) 1 1
              (replicate (Z.to_nat ((limit - 1) / 2 + 1)) 1))
    as (sieve & Hrun & [_ [Hlen Hinv]]).
  { split; [lia|]. split; [rewrite length_replicate; lia|].
    intros k Hk. exists 1. split; [apply lookup_replicate_2; lia|].
    split; [intros _ j Hj; lia | done]. }
  { intros k t Hk [Hrange Ht].
    destruct (bit_inv_step limit (1 + Z.of_nat k * 1) t)
      as (t' & Ht' & Hinv'); [lia | done |].
    exists t'. split; [done|]. split; [lia|].
    by replace (1 + (Z.of_nat k + 1) * 1) with (1 + Z.of_nat k * 1 + 1) by lia. }
  rewrite Hrun. simpl. eexists. split; [done|].
  replace (1 + Z.of_nat (Z.to_nat (root / 2 + 1 - 1)) * 1)
    with (root / 2 + 1) in Hinv by lia.
  intros n. rewrite elem_of_union, elem_of_singleton, elem_of_list_to_set.
  rewrite list_elem_of_fmap. split.
  - intros [-> | ([k b] & -> & Hin)]; [split; [lia | apply prime_alt, Z.prime_2]|].
    apply list_elem_of_filter in Hin as [[Hb Hk] Hin]. simpl in *.
    apply elem_of_enumerate in Hin as [_ Hlook].
    assert (k ≤ (limit - 1) / 2) as Hkl.
    { apply lookup_lt_Some in Hlook. lia. }
    destruct (Hinv (Z.to_nat k) ltac:(lia)) as (c & Hc & Hcspec).
    rewrite Z2Nat.id in Hcspec by lia.
    assert (c = b) as -> by congruence.
    split; [lia|]. apply prime_no_small_divisor; [lia|].
    intros d Hd Hdd Hdiv.
    assert (d mod 2 = 1) as Hdodd.
    { apply (odd_divisor_of_odd d (2 * k + 1)); [lia | | done].
      rewrite Z.add_comm, Z.mul_comm, Z.mod_add by lia. done. }
    pose proof (Z.div_mod d 2 ltac:(lia)) as Hddm. rewrite Hdodd in Hddm.
    apply (proj1 Hcspec Hb (d / 2)).
    + split; [lia|].
      assert (d ≤ root) by nia. lia.
    + by rewrite <- Hddm.
    + by rewrite <- Hddm.
  - intros [[H2 Hnl] Hp].
    destruct (decide (n = 2)) as [->|Hn2]; [by left | right].
    assert (n mod 2 = 1) as Hnodd.
    { pose proof (Z.mod_pos_bound n 2 ltac:(lia)).
      assert (n mod 2 = 0 ∨ n mod 2 = 1) as [E0|E1] by lia; [|done].
      exfalso. apply (proj1 (prime_no_small_divisor n H2) Hp 2); [lia| |].
      - pose proof (Z.div_mod n 2 ltac:(lia)). nia.
      - apply Z.mod_divide; lia. }
    pose proof (Z.div_mod n 2 ltac:(lia)) as Hndm. rewrite Hnodd in Hndm.
    assert (n / 2 ≤ (limit - 1) / 2) as Hkl.
    { apply Z.div_le_lower_bound; lia. }
    destruct (Hinv (Z.to_nat (n / 2)) ltac:(lia)) as (c & Hc & Hcspec).
    rewrite Z2Nat.id in Hcspec by lia.
    exists (n / 2, c). split; [simpl; lia|].
    apply list_elem_of_filter. split.
    + simpl. split; [|lia]. apply Hcspec.
      intros j Hj Hjj. rewrite <- Hndm in *.
      apply prime_no_small_divisor; (lia || done).
    + apply elem_of_enumerate. split; [lia | done].
Qed.

(** ** The segmented sieve *)

(** Clearing the entries of a segment that stand for the numbers [js]. *)
Lemma clear_numbers (a : Z) (js : list Z) (sieve : list bool) :
  (∀ j, j ∈ js → a ≤ j < a + Z.of_nat (length sieve)) →
  ∃ sieve',
    for_each js (λ sieve i, np_setitem sieve (i - a) false) sieve = Ok sieve'
    ∧ length sieve' = length sieve
    ∧ ∀ k : nat, sieve' !! k
        = if decide (a + Z.of_nat k ∈ js) then const false <$> sieve !! k
          else sieve !! k.
Proof.
  revert sieve. induction js as [|j js IH]; intros sieve Hjs; cbn [for_each].
  - exists sieve. split; [done|]. split; [done|].
    intros k. case_decide as H; [inversion H | done].
  - assert (a ≤ j < a + Z.of_nat (length sieve)) by (apply Hjs; left).
    rewrite np_setitem_Ok by lia.
    destruct (IH (<[Z.to_nat (j - a) := false]> sieve))
      as (sieve' & Hrun & Hlen & Hlook).
    { intros j' Hj'. rewrite length_insert. apply Hjs. by right. }
    exists sieve'. split; [done|].
    rewrite length_insert in Hlen. split; [done|].
    intros k. rewrite Hlook.
    destruct (decide (Z.to_nat (j - a) = k)) as [<-|Hne].
    + rewrite (decide_True (P := _ ∈ j :: js))
        by (rewrite Z2Nat.id by lia; replace (a + (j - a)) with j by lia; left).
      rewrite list_lookup_insert_eq by lia.
      destruct (lookup_lt_is_Some_2 sieve (Z.to_nat (j - a)) ltac:(lia))
        as [x ->].
      by case_decide.
    + rewrite list_lookup_insert_ne by done.
      case_decide as Hin.
      * by rewrite decide_True by (by right).
      * rewrite decide_False; [done|].
        rewrite elem_of_cons. intros [?|?]; [lia | done].
Qed.

(** One base prime clears exactly its multiples in the segment. *)
Lemma mark_multiples_spec (a e p : Z) (sieve : list bool) :
  1 ≤ a → 2 ≤ p → Z.of_nat (length sieve) = e - a + 1 →
  ∃ sieve',
    mark_multiples a e sieve p = Ok sieve'
    ∧ length sieve' = length sieve
    ∧ ∀ k : nat, sieve' !! k
        = if decide ((a + Z.of_nat k) mod p = 0)
          then const false <$> sieve !! k else sieve !! k.
Proof.
  intros Ha Hp Hlen. unfold mark_multiples.
  set (m := (a + p - 1) / p * p).
  assert (a ≤ m < a + p ∧ (p | m)) as [Hm Hpm].
  { pose proof (Z.div_mod (a + p - 1) p ltac:(lia)) as E.
    pose proof (Z.mod_pos_bound (a + p - 1) p ltac:(lia)).
    unfold m. split; [nia|]. by exists ((a + p - 1) / p). }
  destruct (Z.ltb_spec m a); [lia|].
  unfold py_range. destruct (Z.eqb_spec p 0) as [|_]; [lia|]. simpl.
  destruct (clear_numbers a (range3 m (e + 1) p) sieve)
    as (sieve' & Hrun & Hlen' & Hlook).
  { intros j Hj. apply elem_of_range3 in Hj; lia. }
  exists sieve'. split; [done|]. split; [done|].
  intros k. rewrite Hlook.
  destruct (decide (Z.of_nat k < Z.of_nat (length sieve))) as [Hk|Hk].
  - case_decide as Hin; rewrite elem_of_range3 in Hin by lia.
    + rewrite decide_True; [done|].
      destruct Hin as [_ Hmod]. apply Z.mod_divide in Hmod; [|lia].
      apply Z.mod_divide; [lia|].
      replace (a + Z.of_nat k) with ((a + Z.of_nat k - m) + m) by lia.
      by apply Z.divide_add_r.
    + rewrite decide_False; [done|].
      intros Hdiv. apply Z.mod_divide in Hdiv; [|lia]. apply Hin.
      assert (p | a + Z.of_nat k - m) as Hd by (by apply Z.divide_sub_r).
      split; [|by apply Z.mod_divide; [lia|]].
      split; [|lia].
      destruct Hd as [q Hq]. destruct Hpm as [q' Hq'].
      destruct Hdiv as [q'' Hq''].
      destruct (Z.lt_ge_cases q'' q'); [exfalso | nia].
      pose proof (Z.mul_le_mono_nonneg_r q'' (q' - 1) p ltac:(lia) ltac:(lia)).
      lia.
  - rewrite (lookup_ge_None_2 sieve) by lia. by repeat case_decide.
Qed.

(** All the base primes together leave the numbers none of them divides. *)
Lemma mark_all_spec (a e : Z) (ps : list Z) (sieve : list bool) :
  1 ≤ a → (∀ p, p ∈ ps → 2 ≤ p) → Z.of_nat (length sieve) = e - a + 1 →
  ∃ sieve',
    for_each ps (mark_multiples a e) sieve = Ok sieve'
    ∧ length sieve' = length sieve
    ∧ ∀ k : nat, sieve' !! k = Some true
        ↔ sieve !! k = Some true ∧ ∀ p, p ∈ ps → ¬ (p | a + Z.of_nat k).
Proof.
  intros Ha. revert sieve.
  induction ps as [|p ps IH]; intros sieve Hps Hlen; cbn [for_each].
  - exists sieve. split; [done|]. split; [done|].
    intros k. split; [intros H; split; [done|]; intros p Hp; inversion Hp|].
    by intros [? _].
  - destruct (mark_multiples_spec a e p sieve)
      as (sieve1 & Hrun1 & Hlen1 & Hlook1); [done | apply Hps; left | done |].
    rewrite Hrun1.
    destruct (IH sieve1) as (sieve' & Hrun & Hlen' & Hlook).
    { intros q Hq. apply Hps. by right. }
    { by rewrite Hlen1. }
    exists sieve'. split; [done|]. split; [congruence|].
    intros k. rewrite Hlook, Hlook1. split.
    + intros [H1 Hnd]. case_decide as Hdiv.
      * destruct (sieve !! k); discriminate.
      * split; [done|]. intros q Hq.
        apply elem_of_cons in Hq as [->|Hq]; [|by apply Hnd].
        intros Hd. apply Hdiv. apply Z.mod_divide; [|done].
        assert (2 ≤ p) by (apply Hps; left). lia.
    + intros [H1 Hnd]. split.
      * rewrite decide_False; [done|]. intros Hd.
        apply (Hnd p); [left|]. apply Z.mod_divide; [|done].
        assert (2 ≤ p) by (apply Hps; left). lia.
      * intros q Hq. apply Hnd. by right.
Qed.

Lemma sieve_segment_spec (limit segment_size : Z) (base_primes all_primes : gset Z)
    (a : Z) :
  1 ≤ segment_size → 1 ≤ a ≤ limit → (∀ p, p ∈ base_primes → 2 ≤ p) →
  ∃ all_primes',
    sieve_segment limit segment_size base_primes all_primes a = Ok all_primes'
    ∧ ∀ n, n ∈ all_primes'
        ↔ n ∈ all_primes
          ∨ (a ≤ n ≤ Z.min (a + segment_size - 1) limit
             ∧ ∀ p, p ∈ base_primes → ¬ (p | n)).
Proof.
  intros Hsz Ha Hbase. unfold sieve_segment.
  set (e := Z.min (a + segment_size - 1) limit).
  rewrite np_ones_Ok by lia. simpl.
  destruct (mark_all_spec a e (elements base_primes)
              (replicate (Z.to_nat (e - a + 1)) true))
    as (sieve & Hrun & Hlen & Hlook).
  { lia. }
  { intros p Hp. apply Hbase. by apply elem_of_elements. }
  { rewrite length_replicate. lia. }
  rewrite Hrun. simpl. eexists. split; [done|].
  rewrite length_replicate in Hlen.
  intros n. rewrite elem_of_union, elem_of_list_to_set, list_elem_of_fmap.
  split.
  - intros [Hin | ([k b] & -> & Hin)]; [by left | right].
    apply list_elem_of_filter in Hin as [Hb Hin]. simpl in *. subst b.
    apply elem_of_enumerate in Hin as [Hk Hin].
    pose proof (lookup_lt_Some _ _ _ Hin) as Hlt.
    apply Hlook in Hin as [_ Hnd].
    split; [lia|]. intros p Hp.
    specialize (Hnd p). rewrite elem_of_elements in Hnd.
    rewrite Z2Nat.id, Z.add_comm in Hnd by lia. by apply Hnd.
  - intros [Hin | [Hn Hnd]]; [by left | right].
    exists (n - a, true). split; [simpl; lia|].
    apply list_elem_of_filter. split; [done|].
    apply elem_of_enumerate. split; [lia|].
    apply Hlook. split; [apply lookup_replicate_2; lia|].
    intros p Hp. rewrite Z2Nat.id by lia.
    replace (a + (n - a)) with n by lia.
    apply Hnd. by apply elem_of_elements.
Qed.

(** Beyond the square root of the limit, a number up to the limit is prime
    exactly when no prime up to the root divides it. *)
Lemma prime_iff_no_base_divisor (limit n : Z) (base_primes : gset Z) :
  0 ≤ limit →
  (∀ p, p ∈ base_primes ↔ 2 ≤ p ≤ Z.sqrt limit ∧ prime p) →
  Z.sqrt limit < n ≤ limit → 2 ≤ n →
  (prime n ↔ ∀ p, p ∈ base_primes → ¬ (p | n)).
Proof.
  intros Hl Hbase Hn H2.
  pose proof (Z.sqrt_spec limit Hl) as Hsqrt. simpl in Hsqrt. split.
  - intros Hp p Hpb Hdiv. apply Hbase in Hpb as [Hpr _].
    apply prime_alt in Hp. destruct Hp as [_ Hp]. apply (Hp p); [lia | done].
  - intros Hnd. destruct (prime_dec n) as [|Hnp]; [done | exfalso].
    destruct (composite_small_prime_factor n H2 Hnp) as (p & Hp & Hpn & Hpp).
    apply (Hnd p); [|done]. apply Hbase.
    pose proof (Z.prime_ge_2 p (proj2 (prime_alt p) Hp)).
    split; [|done]. nia.
Qed.

(** The segmented sieve returns the primes up to the limit, whatever the
    positive window size. *)
Lemma segmented_sieve_elem (limit segment_size : Z) :
  0 ≤ limit → 1 ≤ segment_size →
  ∃ known_primes,
    generate_known_primes_segmented limit segment_size = Ok known_primes ∧
    ∀ n, n ∈ known_primes ↔ 2 ≤ n ≤ limit ∧ prime n.
Proof.
  intros Hl Hsz. unfold generate_known_primes_segmented.
  unfold int_sqrt. destruct (Z.ltb_spec limit 0); [lia|]. simpl.
  pose proof (Z.sqrt_spec limit Hl) as Hsqrt. simpl in Hsqrt.
  pose proof (Z.sqrt_nonneg limit) as Hs0.
  unfold isqrt. set (root := Z.sqrt limit) in *.
  destruct (standard_sieve_elem root Hs0) as (base & Hbase_run & Hbase).
  rewrite Hbase_run. simpl.
  unfold py_range. destruct (Z.eqb_spec segment_size 0) as [|_]; [lia|]. simpl.
  unfold range3.
  pose proof (range_len_nonneg (root + 1) (limit + 1) segment_size ltac:(lia))
    as Hlen0.
  set (len := range_len (root + 1) (limit + 1) segment_size) in *.
  destruct (for_each_range_from
              (λ x all_primes,
                 ∀ n, n ∈ all_primes ↔ (2 ≤ n ≤ limit ∧ n < x) ∧ prime n)
              (sieve_segment limit segment_size base)
              (Z.to_nat len) (root + 1) segment_size base)
    as (all_primes & Hrun & Hall).
  { intros n. rewrite Hbase. split.
    - intros [Hn Hp]. split; [|done]. nia.
    - intros [[Hn Hlt] Hp]. split; [lia | done]. }
  { intros k t Hk Ht.
    set (a := root + 1 + Z.of_nat k * segment_size) in *.
    assert (a < limit + 1) as Ha.
    { apply range_len_spec; [lia | lia |]. fold len. lia. }
    assert (root + 1 ≤ a) as Hra by (unfold a; nia).
    destruct (sieve_segment_spec limit segment_size base t a)
      as (t' & Ht' & Hspec); [lia | lia | |].
    { intros p Hp. apply Hbase in Hp. lia. }
    exists t'. split; [done|].
    replace (root + 1 + (Z.of_nat k + 1) * segment_size)
      with (a + segment_size) by (unfold a; lia).
    intros n. rewrite Hspec, Ht. split.
    - intros [[[Hn Hlt] Hp] | [Hn Hnd]]; [split; [lia | done]|].
      assert (2 ≤ n) by nia.
      split; [lia|].
      apply (prime_iff_no_base_divisor limit n base); (lia || done).
    - intros [[Hn Hlt] Hp].
      destruct (Z.lt_ge_cases n a); [left; split; [lia | done] | right].
      split; [lia|].
      apply (prime_iff_no_base_divisor limit n base); (lia || done). }
  rewrite Hrun. exists all_primes. split; [done|].
  intros n. rewrite Hall. split; [intros [[? _] ?]; done|].
  intros [Hn Hp]. split; [|done]. split; [done|].
  assert (¬ (root + 1 + len * segment_size < limit + 1)) as Hend.
  { rewrite <- range_len_spec by lia. fold len. lia. }
  lia.
Qed.

(** ** The sieves against the oracle and against each other *)

Lemma forallb_range (f : Z → bool) (l : list Z) :
  forallb f l = true ↔ ∀ x, x ∈ l → f x = true.
Proof.
  rewrite forallb_forall. split; intros H x Hx; apply H;
    by apply list_elem_of_In.
Qed.

Lemma sqrt_bound (d n : Z) : 0 ≤ d → 0 ≤ n → (d ≤ Z.sqrt n ↔ d * d ≤ n).
Proof.
  intros Hd Hn. pose proof (Z.sqrt_spec n Hn) as H. simpl in H.
  pose proof (Z.sqrt_nonneg n). split; intros; nia.
Qed.

Lemma trial_division_prime (n : Z) :
  2 ≤ n → (trial_division n = true ↔ prime n).
Proof.
  intros Hn. unfold trial_division.
  rewrite forallb_range, prime_no_small_divisor by done. split.
  - intros H d Hd Hdd Hdiv.
    specialize (H d). rewrite elem_of_range2 in H.
    rewrite negb_true_iff, Z.eqb_neq in H. apply H.
    + split; [done|]. apply sqrt_bound in Hdd; lia.
    + apply Z.mod_divide; [lia | done].
  - intros H d Hd. apply elem_of_range2 in Hd.
    rewrite negb_true_iff, Z.eqb_neq. intros Hmod.
    apply (H d); [lia | apply sqrt_bound; lia |].
    apply Z.mod_divide; [lia | done].
Qed.

(** C1.  For every limit from 0 on, the standard sieve returns a set in
    which each [n] of [2..limit] occurs exactly when [n] is prime, which is
    exactly when trial division up to the square root of [n] finds no
    divisor. *)
Theorem standard_sieve_correct (limit : Z) :
  0 ≤ limit →
  ∃ known_primes,
    generate_known_primes_standard limit = Ok known_primes ∧
    ∀ n, 2 ≤ n ≤ limit →
      (n ∈ known_primes ↔ prime n)
      ∧ (n ∈ known_primes ↔ trial_division n = true).
Proof.
  intros Hl. destruct (standard_sieve_elem limit Hl) as (S & Hrun & Helem).
  exists S. split; [done|]. intros n Hn.
  rewrite trial_division_prime by lia. rewrite Helem. intuition.
Qed.

Lemma standard_sieve_correct_witness :
  0 ≤ 30 ∧
  ∃ known_primes,
    generate_known_primes_standard 30 = Ok known_primes ∧
    ∀ n, 2 ≤ n ≤ 30 →
      (n ∈ known_primes ↔ prime n)
      ∧ (n ∈ known_primes ↔ trial_division n = true).
Proof. split; [lia | apply (standard_sieve_correct 30); lia]. Defined.

(** From limit 2 on the three strategies return the same set, whatever the
    positive window of the segmented one. *)
Lemma sieves_agree_from_2 (limit segment_size : Z) :
  2 ≤ limit → 1 ≤ segment_size →
  ∃ known_primes,
    generate_known_primes_standard limit = Ok known_primes
    ∧ generate_known_primes_bit_sieve limit = Ok known_primes
    ∧ generate_known_primes_segmented limit segment_size = Ok known_primes.
Proof.
  intros Hl Hsz.
  destruct (standard_sieve_elem limit ltac:(lia)) as (S1 & H1 & E1).
  destruct (bit_sieve_elem limit Hl) as (S2 & H2 & E2).
  destruct (segmented_sieve_elem limit segment_size ltac:(lia) Hsz)
    as (S3 & H3 & E3).
  assert (S2 = S1) as -> by (apply set_eq; intros n; by rewrite E1, E2).
  assert (S3 = S1) as -> by (apply set_eq; intros n; by rewrite E1, E3).
  by exists S1.
Qed.

(** Below 2 the standard and the segmented sieve return the empty set. *)
Lemma standard_segmented_empty_below_2 (limit segment_size : Z) :
  0 ≤ limit < 2 → 1 ≤ segment_size →
  generate_known_primes_standard limit = Ok ∅
  ∧ generate_known_primes_segmented limit segment_size = Ok ∅.
Proof.
  intros Hl Hsz.
  destruct (standard_sieve_elem limit ltac:(lia)) as (S1 & H1 & E1).
  destruct (segmented_sieve_elem limit segment_size ltac:(lia) Hsz)
    as (S3 & H3 & E3).
  assert (S1 = ∅) as ->
    by (apply set_eq; intros n; rewrite E1, elem_of_empty; intuition lia).
  assert (S3 = ∅) as ->
    by (apply set_eq; intros n; rewrite E3, elem_of_empty; intuition lia).
  done.
Qed.

(** C2.  At limit 1 (and at limit 0) the bit sieve returns [{2}] where the
    standard and the segmented sieve return the empty set: the three
    strategies do not return identical sets there. *)
Theorem sieves_differ_below_2 :
  generate_known_primes_standard 1 = Ok ∅
  ∧ generate_known_primes_segmented 1 default_segment_size = Ok ∅
  ∧ generate_known_primes_bit_sieve 1 = Ok {[ 2 ]}
  ∧ generate_known_primes_standard 0 = Ok ∅
  ∧ generate_known_primes_segmented 0 default_segment_size = Ok ∅
  ∧ generate_known_primes_bit_sieve 0 = Ok {[ 2 ]}
  ∧ generate_known_primes_bit_sieve 1 ≠ generate_known_primes_standard 1.
Proof.
  repeat split; try (vm_compute; reflexivity).
  vm_compute. discriminate.
Qed.

(** C6.  For limit 0 and for limit 1 the bit sieve returns a set that holds
    2, not the empty set. *)
Theorem bit_sieve_not_empty_below_2 (limit : Z) :
  0 ≤ limit < 2 →
  ∃ known_primes,
    generate_known_primes_bit_sieve limit = Ok known_primes
    ∧ 2 ∈ known_primes ∧ known_primes ≠ ∅.
Proof.
  intros Hl.
  assert (generate_known_primes_bit_sieve limit = Ok {[ 2 ]}) as ->.
  { assert (limit = 0 ∨ limit = 1) as [-> | ->] by lia;
      vm_compute; reflexivity. }
  exists {[ 2 ]}. split; [done|].
  assert (2 ∈ ({[ 2 ]} : gset Z)) as Hin by (by apply elem_of_singleton).
  split; [done|]. intros E. rewrite E in Hin.
  by apply (not_elem_of_empty (C := gset Z) 2).
Qed.

Lemma bit_sieve_not_empty_below_2_witness :
  0 ≤ 1 < 2 ∧
  ∃ known_primes,
    generate_known_primes_bit_sieve 1 = Ok known_primes
    ∧ 2 ∈ known_primes ∧ known_primes ≠ ∅.
Proof. split; [lia | apply (bit_sieve_not_empty_below_2 1); lia]. Defined.

(** ** The square root in double precision *)

Lemma pow4_square (s : Z) : 0 ≤ s → 4 ^ s = 2 ^ s * 2 ^ s.
Proof.
  intros Hs. change 4 with (2 ^ 2).
  rewrite <- Z.pow_mul_r, <- Z.pow_add_r by lia. f_equal. lia.
Qed.

(** Below [2^52] the rounded square root of a double never reaches the next
    integer: truncated, it is the integer square root. *)
Lemma sqrt_double_floor_exact (x : Z) :
  0 ≤ x < 2 ^ 52 → sqrt_double_floor x = Z.sqrt x.
Proof.
  intros Hx. unfold sqrt_double_floor.
  destruct (Z.eqb_spec x 0) as [->|Hx0]; [done|].
  pose proof (Z.sqrt_spec x ltac:(lia)) as Hk.
  pose proof (Z.sqrt_nonneg x) as Hk0. unfold Z.succ in Hk.
  set (k := Z.sqrt x) in *.
  assert (1 ≤ k) as Hk1 by nia.
  assert (k < 2 ^ 26) as Hk26.
  { destruct (Z.lt_ge_cases k (2 ^ 26)) as [|Hge]; [done | exfalso].
    assert (2 ^ 26 * 2 ^ 26 ≤ k * k) by nia.
    change (2 ^ 26 * 2 ^ 26) with (2 ^ 52) in *. lia. }
  pose proof (Z.log2_nonneg k) as Hj0.
  assert (Z.log2 k < 26) as Hj by (apply Z.log2_lt_pow2; lia).
  set (j := Z.log2 k) in *.
  destruct (Z.ltb_spec (j - 52) 0) as [_|]; [|lia].
  replace (- (j - 52)) with (52 - j) by lia.
  set (s := 52 - j). assert (27 ≤ s ≤ 52) as Hs by lia.
  rewrite (pow4_square s) by lia.
  assert (2 ^ 27 ≤ 2 ^ s) as HP by (apply Z.pow_le_mono_r; lia).
  set (P := 2 ^ s) in *.
  assert (k + 1 ≤ P) as HkP.
  { change (2 ^ 27) with (2 * 2 ^ 26) in HP. lia. }
  assert (0 ≤ x * (P * P)) as Hsc by nia.
  pose proof (Z.sqrt_spec (x * (P * P)) Hsc) as Hm. unfold Z.succ in Hm.
  pose proof (Z.sqrt_nonneg (x * (P * P))) as Hm0.
  set (m := Z.sqrt (x * (P * P))) in *.
  assert (k * P ≤ m) as Hlo.
  { destruct (Z.lt_ge_cases m (k * P)) as [Hlt|]; [exfalso | done].
    assert ((m + 1) * (m + 1) ≤ (k * P) * (k * P)) by nia. nia. }
  assert (m < (k + 1) * P) as Hhi.
  { destruct (Z.lt_ge_cases m ((k + 1) * P)) as [|Hle]; [done | exfalso].
    assert (((k + 1) * P) * ((k + 1) * P) ≤ m * m) by nia. nia. }
  assert (∀ m', k * P ≤ m' < (k + 1) * P → m' / P = k) as Hdiv.
  { intros m' Hm'. symmetry. apply (Z.div_unique m' P k (m' - k * P)); lia. }
  destruct (Z.leb_spec ((2 * m + 1) ^ 2) (4 * (x * (P * P)))) as [Hup|_];
    apply Hdiv; [|lia].
  split; [lia|].
  destruct (Z.eq_dec (m + 1) ((k + 1) * P)) as [Heq|]; [exfalso|lia].
  assert (2 * m + 1 = 2 * (k + 1) * P - 1) as E by lia.
  rewrite E in Hup. rewrite Z.pow_2_r in Hup.
  assert (x ≤ (k + 1) * (k + 1) - 1) as Hx1 by lia.
  assert (4 * (x * (P * P)) ≤ 4 * (((k + 1) * (k + 1) - 1) * (P * P)))
    as Hx2 by nia.
  assert (4 * (P * P) + 1 ≤ 4 * (k + 1) * P) as Hc by nia.
  nia.
Qed.

(** Below [2^52] the square root that the interpreter computes is the one
    of the model. *)
Lemma math_sqrt_int_exact (n : Z) :
  0 ≤ n < 2 ^ 52 → math_sqrt_int n = Ok (isqrt n).
Proof.
  intros Hn. unfold math_sqrt_int, float_of_int, isqrt.
  rewrite Z.abs_eq by lia.
  assert (2 ^ 52 < 2 ^ 53) by done.
  destruct (Z.ltb_spec n (2 ^ 53)) as [_|]; [|lia].
  simpl. destruct (Z.ltb_spec n 0) as [|_]; [lia|].
  f_equal. apply sqrt_double_floor_exact. lia.
Qed.

(** From [2^1024] on the conversion to a double overflows. *)
Lemma math_sqrt_int_overflow (n : Z) :
  2 ^ 1024 ≤ n → math_sqrt_int n = Raise OverflowError.
Proof.
  intros Hn. unfold math_sqrt_int, float_of_int.
  assert (0 < 2 ^ 1024) by (by apply Z.pow_pos_nonneg).
  rewrite Z.abs_eq by lia.
  assert (2 ^ 53 < 2 ^ 1024) by (by apply Z.pow_lt_mono_r).
  destruct (Z.ltb_spec n (2 ^ 53)) as [|_]; [lia|].
  assert (1024 ≤ Z.log2 n) as Hlog by (apply Z.log2_le_pow2; lia).
  pose proof (Z.log2_spec n ltac:(lia)) as [Hlo _].
  set (e := Z.log2 n - 52) in *.
  assert (0 < 2 ^ e) as Hpe by (apply Z.pow_pos_nonneg; lia).
  assert (2 ^ Z.log2 n = 2 ^ 52 * 2 ^ e) as Hsplit
    by (rewrite <- Z.pow_add_r by lia; f_equal; lia).
  assert (2 ^ 52 ≤ n / 2 ^ e) as Hq
    by (apply Z.div_le_lower_bound; lia).
  assert (2 ^ 1024 ≤ 2 ^ Z.log2 n) as Hbig
    by (apply Z.pow_le_mono_r; lia).
  assert (∀ q, n / 2 ^ e ≤ q → 2 ^ 1024 ≤ q * 2 ^ e) as Hall.
  { intros q Hle. rewrite Hsplit in Hbig.
    assert (2 ^ 52 * 2 ^ e ≤ q * 2 ^ e); [|lia].
    apply Z.mul_le_mono_nonneg_r; lia. }
  destruct ((2 ^ e <? 2 * (n mod 2 ^ e))
            || ((2 * (n mod 2 ^ e) =? 2 ^ e) && Z.odd (n / 2 ^ e))).
  - destruct (Z.leb_spec (2 ^ 1024) ((n / 2 ^ e + 1) * 2 ^ e)) as [_|Hlt];
      [done|]. specialize (Hall (n / 2 ^ e + 1)). lia.
  - destruct (Z.leb_spec (2 ^ 1024) (n / 2 ^ e * 2 ^ e)) as [_|Hlt];
      [done|]. specialize (Hall (n / 2 ^ e)). lia.
Qed.

(** ** The classifier *)

(** Below [2^52] the classifier runs as the model with the integer square
    root has it. *)
Lemma is_prime_in_doubles_exact (n : Z) (c : gmap Z bool) :
  n < 2 ^ 52 →
  PrimeClassifier.is_prime_in_doubles n c = Ok (PrimeClassifier.is_prime n c).
Proof.
  intros Hn. unfold PrimeClassifier.is_prime_in_doubles,
    PrimeClassifier.is_prime.
  destruct (c !! n); [done|].
  destruct (Z.ltb_spec n 2); [done|].
  destruct ((n =? 2) || (n =? 3)); [done|].
  destruct (n mod 2 =? 0); [done|].
  by rewrite math_sqrt_int_exact, bind_Ok by lia.
Qed.

(** Trial division by the odd numbers from 3 up to the square root decides
    the primality of an odd number from 5 on. *)
Lemma odd_trial_division_prime (n : Z) :
  4 ≤ n → n mod 2 ≠ 0 →
  forallb (λ i, negb (n mod i =? 0)) (range3 3 (isqrt n + 1) 2) = true
  ↔ prime n.
Proof.
  intros Hn Hodd. unfold isqrt.
  assert (n mod 2 = 1) as Hodd1.
  { pose proof (Z.mod_pos_bound n 2 ltac:(lia)). lia. }
  rewrite forallb_range, prime_no_small_divisor by lia. split.
  - intros H d Hd Hdd Hdiv.
    assert (d mod 2 = 1) as Hd2
      by (apply (odd_divisor_of_odd d n); (lia || done)).
    pose proof (Z.div_mod d 2 ltac:(lia)) as Hdm. rewrite Hd2 in Hdm.
    specialize (H d). rewrite elem_of_range3 in H by lia.
    rewrite negb_true_iff, Z.eqb_neq in H. apply H.
    + split; [apply sqrt_bound in Hdd; lia|].
      replace (d - 3) with ((d / 2 - 1) * 2) by lia. apply Z.mod_mul. lia.
    + apply Z.mod_divide; [lia | done].
  - intros H d Hd. apply elem_of_range3 in Hd as [Hd _]; [|lia].
    rewrite negb_true_iff, Z.eqb_neq. intros Hmod.
    apply (H d); [lia | apply sqrt_bound; lia |].
    apply Z.mod_divide; [lia | done].
Qed.

(** With an empty cache the classifier is right on every integer. *)
Lemma is_prime_fresh (n : Z) :
  (PrimeClassifier.is_prime n ∅).1 = true ↔ prime n.
Proof.
  unfold PrimeClassifier.is_prime. rewrite lookup_empty.
  destruct (Z.ltb_spec n 2) as [Hlt|Hge]; simpl.
  - split; [done|]. intros Hp.
    pose proof (Z.prime_ge_2 n (proj2 (prime_alt n) Hp)). lia.
  - destruct (Z.eqb_spec n 2) as [->|Hn2]; simpl.
    { split; [intros _; apply prime_alt, Z.prime_2 | done]. }
    destruct (Z.eqb_spec n 3) as [->|Hn3]; simpl.
    { split; [intros _; apply prime_alt, Z.prime_3 | done]. }
    destruct (Z.eqb_spec (n mod 2) 0) as [Heven|Hodd]; simpl.
    + split; [done|]. intros Hp. exfalso.
      apply (proj1 (prime_no_small_divisor n Hge) Hp 2); [lia | lia |].
      apply Z.mod_divide; [lia | done].
    + apply odd_trial_division_prime; [lia | done].
Qed.

(** Every entry of a cache the classifier can hold is the answer the
    classifier computes afresh. *)
Lemma reachable_consistent (c : gmap Z bool) :
  PrimeClassifier.reachable c →
  ∀ m b, c !! m = Some b → b = (PrimeClassifier.is_prime m ∅).1.
Proof.
  induction 1 as [|n c Hc IH]; intros m b Hm.
  - by rewrite lookup_empty in Hm.
  - revert Hm. unfold PrimeClassifier.is_prime at 1.
    destruct (c !! n) as [b'|] eqn:Hn; simpl; [by apply IH|].
    assert (∀ v, v = (PrimeClassifier.is_prime n ∅).1 →
                 <[n:=v]> c !! m = Some b →
                 b = (PrimeClassifier.is_prime m ∅).1) as Hins.
    { intros v Hv. destruct (decide (n = m)) as [->|Hne].
      - rewrite lookup_insert_eq. congruence.
      - rewrite lookup_insert_ne by done. apply IH. }
    unfold PrimeClassifier.is_prime in Hins at 1.
    rewrite lookup_empty in Hins.
    destruct (n <? 2); [by apply Hins|].
    destruct ((n =? 2) || (n =? 3)); [by apply Hins|].
    destruct (n mod 2 =? 0); by apply Hins.
Qed.

Lemma is_prime_cache_independent (n : Z) (c : gmap Z bool) :
  PrimeClassifier.reachable c →
  (PrimeClassifier.is_prime n c).1 = (PrimeClassifier.is_prime n ∅).1.
Proof.
  intros Hc. unfold PrimeClassifier.is_prime at 1.
  destruct (c !! n) as [b|] eqn:Hn; simpl.
  - by apply (reachable_consistent c Hc).
  - unfold PrimeClassifier.is_prime. rewrite lookup_empty.
    destruct (n <? 2); [done|].
    destruct ((n =? 2) || (n =? 3)); [done|].
    by destruct (n mod 2 =? 0).
Qed.


(** ** Metrics *)

Lemma Qeq_bool_0 (x : Q) : Qeq_bool x 0 = (Qnum x =? 0).
Proof. unfold Qeq_bool. simpl. by rewrite Z.mul_1_r. Qed.

(** A guard [den > 0] protects the division, and on a denominator that is
    not negative it is the guard [den != 0]. *)
Lemma guarded_div (num den : Q) :
  0 ≤ Qnum den →
  (if Qpositive den then py_truediv num den else Ok 0%Q)
  = Ok (ratio_or_zero num den).
Proof.
  intros Hden. unfold Qpositive, py_truediv, ratio_or_zero.
  rewrite Qeq_bool_0.
  destruct (Z.ltb_spec 0 (Qnum den)), (Z.eqb_spec (Qnum den) 0);
    (done || lia).
Qed.

Lemma guarded_div_never_raises (num den : Q) :
  ∃ q, (if Qpositive den then py_truediv num den else Ok 0%Q) = Ok q.
Proof.
  unfold Qpositive, py_truediv. rewrite Qeq_bool_0.
  destruct (Z.ltb_spec 0 (Qnum den)); [|by eexists].
  destruct (Z.eqb_spec (Qnum den) 0); [lia | by eexists].
Qed.

Lemma Qnum_ratio_nonneg (a b : Z) :
  0 ≤ a → 0 ≤ b → 0 ≤ Qnum (ratio_or_zero (inject_Z a) (inject_Z b)).
Proof.
  intros Ha Hb. unfold ratio_or_zero. rewrite Qeq_bool_0. simpl.
  destruct (Z.eqb_spec b 0); [done|].
  destruct b as [|p|p]; [done | | lia]. simpl. lia.
Qed.

Lemma Qnum_plus_nonneg (x y : Q) :
  0 ≤ Qnum x → 0 ≤ Qnum y → 0 ≤ Qnum (x + y)%Q.
Proof. intros Hx Hy. destruct x, y. simpl in *. nia. Qed.

Lemma calculate_metrics_spec (tp fp fn total : Z) :
  0 ≤ tp → 0 ≤ fp → 0 ≤ fn → 0 ≤ total →
  let precision := ratio_or_zero (inject_Z tp) (inject_Z (tp + fp)) in
  let recall := ratio_or_zero (inject_Z tp) (inject_Z (tp + fn)) in
  calculate_metrics tp fp fn total
  = Ok (precision, recall,
        ratio_or_zero (2 * precision * recall)%Q (precision + recall)%Q,
        ratio_or_zero (inject_Z tp) (inject_Z total)).
Proof.
  intros Htp Hfp Hfn Htot precision recall. unfold calculate_metrics.
  change (0 <? tp + fp) with (Qpositive (inject_Z (tp + fp))).
  change (0 <? tp + fn) with (Qpositive (inject_Z (tp + fn))).
  change (0 <? total) with (Qpositive (inject_Z total)).
  rewrite (guarded_div (inject_Z tp) (inject_Z (tp + fp))) by (simpl; lia).
  rewrite bind_Ok.
  rewrite (guarded_div (inject_Z tp) (inject_Z (tp + fn))) by (simpl; lia).
  rewrite bind_Ok. fold precision recall.
  rewrite (guarded_div (2 * precision * recall)%Q (precision + recall)%Q).
  2:{ apply Qnum_plus_nonneg; apply Qnum_ratio_nonneg; lia. }
  rewrite bind_Ok.
  rewrite (guarded_div (inject_Z tp) (inject_Z total)) by (simpl; lia).
  by rewrite bind_Ok.
Qed.

Lemma calculate_metrics_never_raises (tp fp fn total : Z) :
  ∃ m, calculate_metrics tp fp fn total = Ok m.
Proof.
  unfold calculate_metrics.
  change (0 <? tp + fp) with (Qpositive (inject_Z (tp + fp))).
  change (0 <? tp + fn) with (Qpositive (inject_Z (tp + fn))).
  change (0 <? total) with (Qpositive (inject_Z total)).
  destruct (guarded_div_never_raises (inject_Z tp) (inject_Z (tp + fp)))
    as [p ->]. simpl.
  destruct (guarded_div_never_raises (inject_Z tp) (inject_Z (tp + fn)))
    as [r ->]. simpl.
  destruct (guarded_div_never_raises (2 * p * r)%Q (p + r)%Q) as [f ->].
  simpl.
  destruct (guarded_div_never_raises (inject_Z tp) (inject_Z total))
    as [a ->]. simpl. by eexists.
Qed.

Lemma count_known_nonneg (known_primes : gset Z) (limit : Z) :
  0 ≤ count_known known_primes limit.
Proof. unfold count_known. lia. Qed.

Lemma compile_results_spec (limit : Z) (known_primes : gset Z) (st : Batch.t) :
  batch_counts st →
  ∃ r, compile_results limit known_primes st = Ok r
       ∧ metrics_as_designed r
       ∧ result_counters r = counters st
       ∧ Results.classifier_calls r = Batch.classifier_calls st
       ∧ Results.false_positive_numbers r = Batch.false_positive_numbers st
       ∧ Results.false_negative_numbers r = Batch.false_negative_numbers st
       ∧ Results.total_known_primes r = count_known known_primes limit.
Proof.
  intros (Htp & Hfp & Hfn). unfold compile_results.
  rewrite calculate_metrics_spec
    by (done || apply count_known_nonneg).
  simpl. eexists. split; [done|]. by repeat split.
Qed.

Lemma compile_results_never_raises (limit : Z) (known_primes : gset Z)
    (st : Batch.t) :
  ∃ r, compile_results limit known_primes st = Ok r.
Proof.
  unfold compile_results.
  destruct (calculate_metrics_never_raises (Batch.true_positives st)
              (Batch.false_positives st) (Batch.false_negatives st)
              (count_known known_primes limit)) as [[[[p r] f] a] ->].
  simpl. by eexists.
Qed.

(** ** Scans *)

Section Scans.
Variable classify : Z → bool.

Lemma check_number_true_positives cap known_primes st n :
  Batch.true_positives (check_number classify cap known_primes st n)
  = Batch.true_positives st + (increment classify known_primes n).1.1.
Proof.
  unfold increment, check_number.
  destruct ((2 <? n) && (n mod 2 =? 0)); simpl; [lia|].
  destruct (classify n), (bool_decide (n ∈ known_primes)); simpl; lia.
Qed.

Lemma check_number_false_positives cap known_primes st n :
  Batch.false_positives (check_number classify cap known_primes st n)
  = Batch.false_positives st + (increment classify known_primes n).1.2.
Proof.
  unfold increment, check_number.
  destruct ((2 <? n) && (n mod 2 =? 0)); simpl; [lia|].
  destruct (classify n), (bool_decide (n ∈ known_primes)); simpl; lia.
Qed.

Lemma check_number_false_negatives cap known_primes st n :
  Batch.false_negatives (check_number classify cap known_primes st n)
  = Batch.false_negatives st + (increment classify known_primes n).2.
Proof.
  unfold increment, check_number.
  destruct ((2 <? n) && (n mod 2 =? 0)); simpl; [lia|].
  destruct (classify n), (bool_decide (n ∈ known_primes)); simpl; lia.
Qed.

Lemma increment_nonneg known_primes n :
  0 ≤ (increment classify known_primes n).1.1 ∧ 0 ≤ (increment classify known_primes n).1.2
  ∧ 0 ≤ (increment classify known_primes n).2.
Proof.
  unfold increment, check_number.
  destruct ((2 <? n) && (n mod 2 =? 0)); simpl; [lia|].
  destruct (classify n), (bool_decide (n ∈ known_primes)); simpl; lia.
Qed.

(** A counter that every step raises by an amount depending on the number
    alone grows by the same total from any start, in any scan. *)
Lemma foldl_additive (f : Batch.t → Z) (g : Z → Z)
    (c c' : Batch.t → Z → Batch.t) :
  (∀ st n, f (c st n) = f st + g n) →
  (∀ st n, f (c' st n) = f st + g n) →
  ∀ ns st st', f (foldl c st ns) - f st = f (foldl c' st' ns) - f st'.
Proof.
  intros Hc Hc'. induction ns as [|n ns IH]; intros st st'; simpl; [lia|].
  specialize (IH (c st n) (c' st' n)). rewrite Hc, Hc' in IH. lia.
Qed.

Lemma foldl_counters cap cap' known_primes ns st st' :
  let run cap st := foldl (check_number classify cap known_primes) st ns in
  Batch.true_positives (run cap st) - Batch.true_positives st
  = Batch.true_positives (run cap' st') - Batch.true_positives st'
  ∧ Batch.false_positives (run cap st) - Batch.false_positives st
    = Batch.false_positives (run cap' st') - Batch.false_positives st'
  ∧ Batch.false_negatives (run cap st) - Batch.false_negatives st
    = Batch.false_negatives (run cap' st') - Batch.false_negatives st'.
Proof.
  simpl. split; [|split].
  - apply (foldl_additive _ (λ n, (increment classify known_primes n).1.1));
      intros; apply check_number_true_positives.
  - apply (foldl_additive _ (λ n, (increment classify known_primes n).1.2));
      intros; apply check_number_false_positives.
  - apply (foldl_additive _ (λ n, (increment classify known_primes n).2));
      intros; apply check_number_false_negatives.
Qed.

Lemma foldl_counts cap known_primes ns st :
  batch_counts st →
  batch_counts (foldl (check_number classify cap known_primes) st ns).
Proof.
  revert st. induction ns as [|n ns IH]; intros st Hst; simpl; [done|].
  apply IH. destruct Hst as (H1 & H2 & H3).
  pose proof (increment_nonneg known_primes n) as (I1 & I2 & I3).
  unfold batch_counts.
  rewrite check_number_true_positives, check_number_false_positives,
    check_number_false_negatives. lia.
Qed.

(** Scanning up to [b] and then from [b+1] is scanning the whole range. *)
Lemma scan_split cap known_primes (a b c : Z) st :
  a ≤ b + 1 → b ≤ c →
  scan classify cap known_primes a c st
  = scan classify cap known_primes (b + 1) c
      (scan classify cap known_primes a b st).
Proof.
  intros Hab Hbc. unfold scan.
  rewrite (range2_split a (b + 1) (c + 1)) by lia. apply foldl_app.
Qed.


(** ** The sequential loop over the batches *)

Section Sequential.
Variable checkpoint_file : Z → string.
Variable isoformat_now : nat → string.

(** Whatever the batch size and with or without checkpoints, the batches of
    the sequential scan leave the state of one scan of [start..limit]. *)
Lemma sequential_batches (limit : Z) known_primes (use_checkpoint : bool)
    (batch_size start : Z) st w :
  1 ≤ batch_size →
  (foldl (process_batch classify checkpoint_file isoformat_now limit
            known_primes use_checkpoint batch_size)
     (st, w) (range3 start (limit + 1) batch_size)).1
  = scan classify 1000 known_primes start limit st.
Proof.
  intros Hbs. unfold range3.
  pose proof (range_len_nonneg start (limit + 1) batch_size ltac:(lia)) as Hlen0.
  set (len := range_len start (limit + 1) batch_size) in *.
  pose proof (foldl_range_from
    (λ x (acc : Batch.t * world),
       acc.1 = foldl (check_number classify 1000 known_primes) st
                 (range2 start (Z.min x (limit + 1))))
    (process_batch classify checkpoint_file isoformat_now limit known_primes
       use_checkpoint batch_size)
    (Z.to_nat len) start batch_size (st, w)) as Hloop.
  simpl in Hloop. rewrite Hloop.
  - unfold scan. do 2 f_equal.
    assert (¬ (start + len * batch_size < limit + 1)) as Hend.
    { rewrite <- range_len_spec by lia. fold len. lia. }
    lia.
  - by rewrite range2_empty by lia.
  - intros k [t u] Hk Ht. simpl in Ht.
    set (x := start + Z.of_nat k * batch_size) in *.
    assert (x < limit + 1) as Hx.
    { apply range_len_spec; [lia | lia |]. fold len. lia. }
    assert (start ≤ x) by (unfold x; nia).
    unfold process_batch.
    assert ((let batch_end := Z.min (x + batch_size - 1) limit in
             scan classify 1000 known_primes x batch_end t)
            = foldl (check_number classify 1000 known_primes) st
                (range2 start
                   (Z.min (start + (Z.of_nat k + 1) * batch_size) (limit + 1))))
      as Hscan.
    { simpl. unfold scan. rewrite Ht.
      rewrite <- foldl_app.
      replace (Z.min x (limit + 1)) with x by lia.
      rewrite <- range2_split by lia. do 2 f_equal. unfold x. lia. }
    simpl in Hscan. by destruct use_checkpoint; simpl.
Qed.

End Sequential.

(** ** The batches of the distributed run *)

Lemma foldl_add_start (a : Z) (xs : list Z) :
  foldl Z.add a xs = a + foldl Z.add 0 xs.
Proof.
  revert a. induction xs as [|x xs IH]; intros a; cbn [foldl]; [lia|].
  rewrite (IH (a + x)), (IH (0 + x)). lia.
Qed.

Lemma py_sum_cons (x : Z) (xs : list Z) : py_sum (x :: xs) = x + py_sum xs.
Proof. unfold py_sum. cbn [foldl]. apply foldl_add_start. Qed.

Lemma batch_sums (f : Batch.t → Z) (limit : Z) known_primes (batch_size : Z) :
  1 ≤ batch_size → f Batch.zero = 0 →
  (∀ cap ns st st',
     f (foldl (check_number classify cap known_primes) st ns) - f st
     = f (foldl (check_number classify 1000 known_primes) st' ns) - f st') →
  ∀ (n : nat) (x : Z),
    (n = 0%nat ∨ x + (Z.of_nat n - 1) * batch_size ≤ limit) →
    py_sum (f <$> batch_results_of classify limit known_primes batch_size
                    (range_from n x batch_size))
    = f (foldl (check_number classify 1000 known_primes) Batch.zero
           (range2 x (Z.min (x + Z.of_nat n * batch_size) (limit + 1)))).
Proof.
  intros Hbs Hzero Hadd.
  induction n as [|n IH]; intros x Hx.
  - simpl. rewrite range2_empty by lia. simpl. by rewrite Hzero.
  - destruct Hx as [|Hx]; [done|].
    assert (x ≤ limit) by nia.
    cbn [range_from batch_results_of fmap list_fmap].
    unfold batch_results_of in IH. rewrite py_sum_cons, IH.
    2:{ destruct n; [by left | right]. nia. }
    cbn [fst snd]. unfold validate_primality_test_batch, scan.
    set (e := Z.min (x + batch_size - 1) limit).
    replace (Z.min (x + batch_size + Z.of_nat n * batch_size) (limit + 1))
      with (Z.min (x + Z.of_nat (S n) * batch_size) (limit + 1)) by lia.
    set (m := Z.min (x + Z.of_nat (S n) * batch_size) (limit + 1)).
    assert (e + 1 ≤ m) by (unfold e, m; nia).
    rewrite (range2_split x (e + 1) m) by (unfold e; lia).
    rewrite foldl_app.
    pose proof (Hadd 100 (range2 x (e + 1)) Batch.zero Batch.zero) as H1.
    pose proof (Hadd 1000 (range2 (e + 1) m) Batch.zero
                  (foldl (check_number classify 1000 known_primes) Batch.zero
                     (range2 x (e + 1)))) as H2.
    destruct (decide (x + batch_size ≤ limit + 1)) as [Hle|Hgt].
    + replace (x + batch_size) with (e + 1) by (unfold e; lia).
      fold m. lia.
    + assert (m = e + 1) as Hm by (unfold e, m; nia).
      rewrite Hm in *. rewrite (range2_empty (x + batch_size)) by (unfold e; lia).
      rewrite (range2_empty (e + 1) (e + 1)) in * by lia.
      simpl in *. lia.
Qed.

End Scans.

(** ** Validation runs *)

Lemma py_sum_nonneg (xs : list Z) : (∀ x, x ∈ xs → 0 ≤ x) → 0 ≤ py_sum xs.
Proof.
  induction xs as [|x xs IH]; intros H; [done|].
  rewrite py_sum_cons.
  assert (0 ≤ x) by (apply H; left).
  assert (0 ≤ py_sum xs) by (apply IH; intros; apply H; by right). lia.
Qed.

Section Runs.
Variable low_memory : bool.
Variable classify : Z → bool.
Variable cpu_count : positive.
Variable checkpoint_file : Z → string.
Variable isoformat_now : nat → string.

Lemma batch_zero_counts : batch_counts Batch.zero.
Proof. unfold batch_counts. simpl. lia. Qed.

Lemma scan_counts cap known_primes a b st :
  batch_counts st → batch_counts (scan classify cap known_primes a b st).
Proof. apply foldl_counts. Qed.

Lemma process_batches_counts limit known_primes use_checkpoint batch_size
    starts st w :
  batch_counts st →
  batch_counts
    (foldl (process_batch classify checkpoint_file isoformat_now limit
              known_primes use_checkpoint batch_size) (st, w) starts).1.
Proof.
  revert st w. induction starts as [|x xs IH]; intros st w Hst; [done|].
  cbn [foldl]. unfold process_batch at 2.
  destruct use_checkpoint; apply IH; by apply scan_counts.
Qed.

Lemma process_batches_world limit known_primes batch_size starts st w :
  (foldl (process_batch classify checkpoint_file isoformat_now limit
            known_primes false batch_size) (st, w) starts).2 = w.
Proof.
  revert st. induction starts as [|x xs IH]; intros st; [done|].
  cbn [foldl]. unfold process_batch at 2. apply IH.
Qed.

Lemma initial_scan_counts limit use_checkpoint w :
  (use_checkpoint = true →
   ∀ c, load_checkpoint checkpoint_file limit w = Some c →
        checkpoint_counts c) →
  batch_counts (initial_scan checkpoint_file limit use_checkpoint w).2.
Proof.
  intros Hck. unfold initial_scan.
  destruct use_checkpoint; [|apply batch_zero_counts].
  destruct (load_checkpoint checkpoint_file limit w) as [c|] eqn:Hc;
    [|apply batch_zero_counts].
  by apply Hck.
Qed.

(** The sequential run on a supplied ground-truth set. *)
Lemma validate_sequential_spec limit known_primes use_checkpoint batch_size w :
  1 ≤ batch_size →
  batch_counts (initial_scan checkpoint_file limit use_checkpoint w).2 →
  ∃ r w',
    validate_primality_test low_memory classify cpu_count checkpoint_file
      isoformat_now limit (Some known_primes) use_checkpoint batch_size
      false w = Ok (r, w')
    ∧ metrics_as_designed r
    ∧ (let i := initial_scan checkpoint_file limit use_checkpoint w in
       let st := scan classify 1000 known_primes i.1 limit i.2 in
       result_counters r = counters st
       ∧ Results.classifier_calls r = Batch.classifier_calls st)
    ∧ (use_checkpoint = false → w' = w).
Proof.
  intros Hbs Hinit. unfold validate_primality_test. rewrite bind_Ok.
  destruct (initial_scan checkpoint_file limit use_checkpoint w)
    as [start st0] eqn:Hi.
  simpl in Hinit. unfold py_range.
  destruct (Z.eqb_spec batch_size 0) as [|_]; [lia|]. rewrite bind_Ok.
  pose proof (sequential_batches classify checkpoint_file isoformat_now limit
                known_primes use_checkpoint batch_size start st0 w Hbs) as Hseq.
  pose proof (process_batches_world limit known_primes batch_size
                (range3 start (limit + 1) batch_size) st0 w) as Hw.
  destruct (foldl _ (st0, w) _) as [st w'] eqn:Hfold.
  simpl in Hseq, Hw. subst st.
  destruct (compile_results_spec limit known_primes
              (scan classify 1000 known_primes start limit st0))
    as (r & Hr & Hm & Hc & Hcalls & _); [by apply scan_counts|].
  rewrite Hr, bind_Ok. exists r, w'.
  split; [reflexivity|]. split; [exact Hm|]. split; [by split|].
  intros ->. by rewrite Hfold in Hw.
Qed.

(** The counters of every batch result, and so their sums, are counts. *)
Lemma batch_results_counts limit known_primes batch_size starts :
  ∀ b, b ∈ batch_results_of classify limit known_primes batch_size starts →
       batch_counts b.
Proof.
  intros b Hb. unfold batch_results_of in Hb.
  apply list_elem_of_fmap in Hb as (p & -> & _).
  apply scan_counts, batch_zero_counts.
Qed.

Lemma batch_sums_counts limit known_primes batch_size starts fps fns calls :
  let rs := batch_results_of classify limit known_primes batch_size starts in
  batch_counts
    (Batch.mk (py_sum (Batch.true_positives <$> rs))
       (py_sum (Batch.false_positives <$> rs))
       (py_sum (Batch.false_negatives <$> rs)) fps fns calls).
Proof.
  intros rs. unfold batch_counts. simpl.
  repeat split; apply py_sum_nonneg; intros x Hx;
    apply list_elem_of_fmap in Hx as (b & -> & Hb);
    apply batch_results_counts in Hb; unfold batch_counts in Hb; lia.
Qed.

(** The distributed run. *)
Lemma validate_distributed_spec limit known_primes batch_size num_processes :
  1 ≤ batch_size →
  ∃ r,
    validate_primality_test_distributed classify cpu_count limit known_primes
      batch_size num_processes = Ok r
    ∧ metrics_as_designed r
    ∧ result_counters r
      = counters (scan classify 1000 known_primes 2 limit Batch.zero).
Proof.
  intros Hbs. unfold validate_primality_test_distributed, py_range.
  destruct (Z.eqb_spec batch_size 0) as [|_]; [lia|]. rewrite bind_Ok.
  unfold pool_starmap.
  change (_ <$> (_ <$> range3 2 (limit + 1) batch_size))
    with (batch_results_of classify limit known_primes batch_size
            (range3 2 (limit + 1) batch_size)).
  set (rs := batch_results_of classify limit known_primes batch_size
               (range3 2 (limit + 1) batch_size)).
  destruct (combine_samples rs) as [fps fns].
  destruct (compile_results_spec limit known_primes
              (Batch.mk (py_sum (Batch.true_positives <$> rs))
                 (py_sum (Batch.false_positives <$> rs))
                 (py_sum (Batch.false_negatives <$> rs)) fps fns
                 (concat (reverse (Batch.classifier_calls <$> rs)))))
    as (r & Hr & Hm & Hc & _); [apply batch_sums_counts|].
  exists r. split; [done|]. split; [done|].
  rewrite Hc. unfold counters. simpl.
  pose proof (range_len_nonneg 2 (limit + 1) batch_size ltac:(lia)) as Hlen0.
  assert (∀ f : Batch.t → Z, f Batch.zero = 0 →
            (∀ cap ns st st',
               f (foldl (check_number classify cap known_primes) st ns) - f st
               = f (foldl (check_number classify 1000 known_primes) st' ns)
                 - f st') →
            py_sum (f <$> rs)
            = f (scan classify 1000 known_primes 2 limit Batch.zero))
    as Hsum.
  { intros f Hzero Hadd. unfold rs, range3.
    set (len := range_len 2 (limit + 1) batch_size) in *.
    rewrite (batch_sums classify f limit known_primes batch_size Hbs Hzero Hadd).
    - assert (¬ (2 + len * batch_size < limit + 1)) as Hend.
      { rewrite <- range_len_spec by lia. fold len. lia. }
      rewrite Z2Nat.id by lia. by rewrite Z.min_r by lia.
    - destruct (decide (len = 0)) as [E|E]; [left; lia | right].
      assert (2 + (len - 1) * batch_size < limit + 1).
      { apply range_len_spec; [lia | lia |]. fold len. lia. }
      rewrite Z2Nat.id by lia. lia. }
  rewrite !Hsum; [done | done | | done | | done |];
    intros cap ns st st';
    by pose proof (foldl_counters classify cap 1000 known_primes ns st st')
      as (? & ? & ?).
Qed.
End Runs.

Section EquivalenceClaims.
Variable low_memory : bool.
Variable classify : Z → bool.
Variable cpu_count : positive.
Variable checkpoint_file : Z → string.
Variable isoformat_now : nat → string.

(** ** Distributed and sequential runs *)

(** C3.  For every limit from 2 on, every classifier, every batch size from
    1 on and every number of workers (given, or the default of the pool),
    the distributed run and the sequential scan of [2..limit] both return,
    with the same true-positive, false-positive and false-negative
    counters. *)
Theorem distributed_equals_sequential (limit : Z) (known_primes : gset Z)
    (batch_size sequential_batch_size : Z) (num_processes : option positive)
    (w : world) :
  2 ≤ limit → 1 ≤ batch_size → 1 ≤ sequential_batch_size →
  ∃ rd rs w',
    validate_primality_test_distributed classify cpu_count limit known_primes
      batch_size num_processes = Ok rd
    ∧ validate_primality_test low_memory classify cpu_count checkpoint_file
        isoformat_now limit (Some known_primes) false sequential_batch_size
        false w = Ok (rs, w')
    ∧ result_counters rd = result_counters rs.
Proof.
  intros Hl Hbs Hsbs.
  destruct (validate_distributed_spec classify cpu_count limit known_primes
              batch_size num_processes Hbs) as (rd & Hrd & _ & Hcd).
  destruct (validate_sequential_spec low_memory classify cpu_count
              checkpoint_file isoformat_now limit known_primes false
              sequential_batch_size w Hsbs)
    as (rs & w' & Hrs & _ & [Hcs _] & _); [apply batch_zero_counts|].
  exists rd, rs, w'. split; [done|]. split; [done|].
  by rewrite Hcd, Hcs.
Qed.

(** ** Checkpoints *)

Lemma load_save_checkpoint (limit : Z) (c : Checkpoint.t) (w : world) :
  load_checkpoint checkpoint_file limit
    (save_checkpoint checkpoint_file c limit w) = Some c.
Proof.
  unfold load_checkpoint, save_checkpoint. simpl.
  by rewrite lookup_insert_eq.
Qed.

(** C5.  Saving a record for a limit and loading for that limit returns the
    record; a second save replaces the first, of which nothing is left. *)
Theorem checkpoint_round_trip (limit : Z) (c c' : Checkpoint.t) (w : world) :
  load_checkpoint checkpoint_file limit
    (save_checkpoint checkpoint_file c limit w) = Some c
  ∧ load_checkpoint checkpoint_file limit
      (save_checkpoint checkpoint_file c' limit
         (save_checkpoint checkpoint_file c limit w)) = Some c'
  ∧ save_checkpoint checkpoint_file c' limit
      (save_checkpoint checkpoint_file c limit w)
    = save_checkpoint checkpoint_file c' limit w.
Proof.
  unfold load_checkpoint, save_checkpoint. simpl.
  rewrite !lookup_insert_eq. by rewrite insert_insert_eq.
Qed.

End EquivalenceClaims.

Lemma distributed_equals_sequential_witness :
  2 ≤ 100 ∧ 1 ≤ 7 ∧ 1 ≤ 1000000 ∧
  ∃ rd rs w',
    validate_primality_test_distributed example_classifier 4%positive 100
      example_known_primes 7 (Some 3%positive) = Ok rd
    ∧ example_validate 100 (Some example_known_primes) false 1000000 false
        (World ∅ 0) = Ok (rs, w')
    ∧ result_counters rd = result_counters rs.
Proof.
  split; [lia|]. split; [lia|]. split; [lia|].
  apply (distributed_equals_sequential false example_classifier 4%positive
           example_checkpoint_file example_clock 100 example_known_primes
           7 1000000 (Some 3%positive) (World ∅ 0)); lia.
Defined.

(** ** Metrics of a completed run *)


(** The ground truth a run generates for itself: the sieve accepts every
    limit from 0 on and refuses a negative one with [ValueError]. *)
Lemma generated_ground_truth (low_memory : bool) (limit : Z) :
  let generated :=
    if low_memory then generate_known_primes low_memory limit "segmented"
    else generate_known_primes low_memory limit "auto" in
  (0 ≤ limit → ∃ known_primes, generated = Ok known_primes)
  ∧ (limit < 0 → generated = Raise ValueError).
Proof.
  destruct low_memory; unfold generate_known_primes; simpl.
  - split.
    + intros Hl.
      destruct (segmented_sieve_elem limit default_segment_size Hl)
        as (S & HS & _); [unfold default_segment_size; lia|]. by exists S.
    + intros Hl. unfold generate_known_primes_segmented, int_sqrt.
      by destruct (Z.ltb_spec limit 0); [|lia].
  - rewrite andb_true_r. split.
    + intros Hl. destruct (Z.leb_spec limit 10000000).
      { destruct (standard_sieve_elem limit Hl) as (S & HS & _). by exists S. }
      destruct (Z.leb_spec limit 100000000).
      { destruct (bit_sieve_elem limit ltac:(lia)) as (S & HS & _).
        by exists S. }
      destruct (segmented_sieve_elem limit default_segment_size Hl)
        as (S & HS & _); [unfold default_segment_size; lia|]. by exists S.
    + intros Hl. destruct (Z.leb_spec limit 10000000); [|lia].
      unfold generate_known_primes_standard, np_ones.
      destruct (Z.ltb_spec (limit + 1) 0); [done|]. rewrite bind_Ok.
      unfold int_sqrt. by destruct (Z.ltb_spec limit 0); [|lia].
Qed.

Section RunClaims.
Variable low_memory : bool.
Variable classify : Z → bool.
Variable cpu_count : positive.
Variable checkpoint_file : Z → string.
Variable isoformat_now : nat → string.

(** The guards of the metrics: a quotient is taken only of a positive
    denominator, and the metric is 0 otherwise. *)
Lemma calculate_metrics_guarded (tp fp fn total : Z) :
  ∃ precision recall f1_score accuracy,
    calculate_metrics tp fp fn total
    = Ok (precision, recall, f1_score, accuracy)
    ∧ (tp + fp ≤ 0 → precision = 0%Q)
    ∧ (tp + fn ≤ 0 → recall = 0%Q)
    ∧ ((precision + recall <= 0)%Q → f1_score = 0%Q)
    ∧ (total ≤ 0 → accuracy = 0%Q).
Proof.
  assert (∀ num den,
            ∃ q, (if Qpositive den then py_truediv num den else Ok 0%Q)
                 = Ok q
                 ∧ ((den <= 0)%Q → q = 0%Q)) as Hdiv.
  { intros num den. unfold Qpositive, py_truediv. rewrite Qeq_bool_0.
    unfold Qle. simpl. rewrite Z.mul_1_r.
    destruct (Z.ltb_spec 0 (Qnum den)); [|by eexists].
    destruct (Z.eqb_spec (Qnum den) 0); [lia|].
    eexists. split; [done|]. lia. }
  assert (∀ d : Z, d ≤ 0 → (inject_Z d <= 0)%Q) as Hinj
    by (intros d Hd; unfold Qle; simpl; lia).
  unfold calculate_metrics.
  change (0 <? tp + fp) with (Qpositive (inject_Z (tp + fp))).
  change (0 <? tp + fn) with (Qpositive (inject_Z (tp + fn))).
  change (0 <? total) with (Qpositive (inject_Z total)).
  destruct (Hdiv (inject_Z tp) (inject_Z (tp + fp))) as (p & -> & Hp).
  rewrite bind_Ok.
  destruct (Hdiv (inject_Z tp) (inject_Z (tp + fn))) as (r & -> & Hr).
  rewrite bind_Ok.
  destruct (Hdiv (2 * p * r)%Q (p + r)%Q) as (f & -> & Hf). rewrite bind_Ok.
  destruct (Hdiv (inject_Z tp) (inject_Z total)) as (a & -> & Ha).
  rewrite bind_Ok. exists p, r, f, a. split; [done|].
  split; [intros; by apply Hp, Hinj|]. split; [intros; by apply Hr, Hinj|].
  split; [done|]. intros. by apply Ha, Hinj.
Qed.

(** A result whose metrics obey their guards. *)
Lemma compile_results_guarded (limit : Z) (known_primes : gset Z)
    (st : Batch.t) :
  ∃ r, compile_results limit known_primes st = Ok r
       ∧ (Results.true_positives r + Results.false_positives r ≤ 0 →
          Results.precision r = 0%Q)
       ∧ (Results.true_positives r + Results.false_negatives r ≤ 0 →
          Results.recall r = 0%Q)
       ∧ ((Results.precision r + Results.recall r <= 0)%Q →
          Results.f1_score r = 0%Q)
       ∧ (Results.total_known_primes r ≤ 0 → Results.accuracy r = 0%Q).
Proof.
  unfold compile_results.
  destruct (calculate_metrics_guarded (Batch.true_positives st)
              (Batch.false_positives st) (Batch.false_negatives st)
              (count_known known_primes limit))
    as (p & r & f & a & -> & Hp & Hr & Hf & Ha).
  rewrite bind_Ok. by eexists.
Qed.

(** A run on a supplied ground-truth set raises [ValueError] or returns
    what [compile_results] makes of some counters. *)
Lemma validate_supplied_outcome limit known_primes use_checkpoint batch_size
    distributed w :
  validate_primality_test low_memory classify cpu_count checkpoint_file
    isoformat_now limit (Some known_primes) use_checkpoint batch_size
    distributed w = Raise ValueError
  ∨ ∃ r w' st,
      validate_primality_test low_memory classify cpu_count checkpoint_file
        isoformat_now limit (Some known_primes) use_checkpoint batch_size
        distributed w = Ok (r, w')
      ∧ compile_results limit known_primes st = Ok r.
Proof.
  unfold validate_primality_test, validate_primality_test_distributed,
    py_range.
  rewrite bind_Ok.
  destruct (Z.eqb_spec batch_size 0) as [|_];
    [left; destruct distributed; [done|];
     by destruct (initial_scan checkpoint_file limit use_checkpoint w)
    | right].
  destruct distributed.
  - rewrite bind_Ok. cbv zeta.
    destruct (combine_samples _) as [fps fns].
    match goal with
    | |- context [compile_results ?l ?k ?st] =>
        destruct (compile_results_never_raises l k st) as (r & Hr);
        rewrite Hr, bind_Ok; by exists r, w, st
    end.
  - destruct (initial_scan checkpoint_file limit use_checkpoint w)
      as [start st0].
    rewrite bind_Ok.
    destruct (foldl _ (st0, w) _) as [st w'].
    destruct (compile_results_never_raises limit known_primes st)
      as (r & Hr).
    rewrite Hr, bind_Ok. by exists r, w', st.
Qed.

(** X28.  No validation run, whatever its arguments and whatever the
    checkpoint it resumes from, raises a division by zero, and in the result
    of a run that returns, a metric whose denominator is not positive is 0:
    the precision when there are no positives, the recall when there are no
    true positives and false negatives, the accuracy when there are no
    known primes, the F1 score when precision and recall are both 0. *)
Theorem metrics_guarded (limit : Z) (known_primes : option (gset Z))
    (use_checkpoint : bool) (batch_size : Z) (distributed : bool) (w : world) :
  validate_primality_test low_memory classify cpu_count checkpoint_file
    isoformat_now limit known_primes use_checkpoint batch_size distributed w
  ≠ Raise ZeroDivisionError
  ∧ ∀ r w',
      validate_primality_test low_memory classify cpu_count checkpoint_file
        isoformat_now limit known_primes use_checkpoint batch_size
        distributed w = Ok (r, w') →
      (Results.true_positives r + Results.false_positives r ≤ 0 →
       Results.precision r = 0%Q)
      ∧ (Results.true_positives r + Results.false_negatives r ≤ 0 →
         Results.recall r = 0%Q)
      ∧ ((Results.precision r + Results.recall r <= 0)%Q →
         Results.f1_score r = 0%Q)
      ∧ (Results.total_known_primes r ≤ 0 → Results.accuracy r = 0%Q).
Proof.
  assert (∀ known,
            validate_primality_test low_memory classify cpu_count
              checkpoint_file isoformat_now limit (Some known) use_checkpoint
              batch_size distributed w ≠ Raise ZeroDivisionError
            ∧ ∀ r w',
                validate_primality_test low_memory classify cpu_count
                  checkpoint_file isoformat_now limit (Some known)
                  use_checkpoint batch_size distributed w = Ok (r, w') →
                (Results.true_positives r + Results.false_positives r ≤ 0 →
                 Results.precision r = 0%Q)
                ∧ (Results.true_positives r + Results.false_negatives r ≤ 0 →
                   Results.recall r = 0%Q)
                ∧ ((Results.precision r + Results.recall r <= 0)%Q →
                   Results.f1_score r = 0%Q)
                ∧ (Results.total_known_primes r ≤ 0 →
                   Results.accuracy r = 0%Q)) as Hsupplied.
  { intros known.
    destruct (validate_supplied_outcome limit known use_checkpoint
                batch_size distributed w)
      as [E | (r & w' & st & E & Hr)]; rewrite E; (split; [done|]);
      [done|].
    intros ? ? [= <- <-].
    destruct (compile_results_guarded limit known st) as (r' & Hr' & Hg).
    rewrite Hr in Hr'. by injection Hr' as <-. }
  destruct known_primes as [known|]; [apply Hsupplied|].
  pose proof (generated_ground_truth low_memory limit) as [Hgen Hneg].
  simpl in Hgen, Hneg.
  assert (validate_primality_test low_memory classify cpu_count
            checkpoint_file isoformat_now limit None use_checkpoint
            batch_size distributed w
          = (if low_memory
             then generate_known_primes low_memory limit "segmented"
             else generate_known_primes low_memory limit "auto")
            ≫= λ known,
                 validate_primality_test low_memory classify cpu_count
                   checkpoint_file isoformat_now limit (Some known)
                   use_checkpoint batch_size distributed w) as -> by done.
  destruct (Z.lt_ge_cases limit 0) as [Hl|Hl].
  - rewrite Hneg by done. by split.
  - destruct (Hgen Hl) as [known ->]. rewrite bind_Ok. apply Hsupplied.
Qed.
End RunClaims.


(** ** Import of known primes *)

Section ImportClaims.
Variable strip : string → string.
Variable int_of_string : string → option Z.


End ImportClaims.

Example load_known_primes_example :
  load_known_primes_from_file id example_int example_files "primes.txt"
  = Ok (list_to_set [2; 3; 7])
  ∧ load_known_primes_from_file id example_int example_files "missing.txt"
    = Ok ∅.
Proof. split; vm_compute; reflexivity. Qed.


(** ** The scenarios of the design document *)

Example segmented_30_window_7 :
  generate_known_primes_segmented 30 7
  = Ok (list_to_set [2; 3; 5; 7; 11; 13; 17; 19; 23; 29]).
Proof. vm_compute. reflexivity. Qed.

Example odd_classifier_100 :
  ∃ r w,
    validate_primality_test false odd_classifier 4%positive
      example_checkpoint_file example_clock 100 None false 1000000 false
      (World ∅ 0) = Ok (r, w)
    ∧ result_counters r = (24, 25, 1)
    ∧ Results.false_negative_numbers r = [2]
    ∧ Results.false_positive_numbers r
      = [9; 15; 21; 25; 27; 33; 35; 39; 45; 49; 51; 55; 57; 63; 65; 69; 75;
         77; 81; 85; 87; 91; 93; 95; 99].
Proof.
  destruct (validate_primality_test false odd_classifier 4%positive
              example_checkpoint_file example_clock 100 None false 1000000
              false (World ∅ 0)) as [[r w]|e] eqn:Hrun;
    vm_compute in Hrun; [|discriminate].
  exists r, w. split; [done|]. by injection Hrun as <- <-.
Qed.

Example limit_1_boundary :
  generate_known_primes_standard 1 = Ok ∅
  ∧ ∃ r w,
      example_validate 1 None false 1000000 false (World ∅ 0) = Ok (r, w)
      ∧ result_counters r = (0, 0, 0)
      ∧ Results.precision r = 0%Q ∧ Results.recall r = 0%Q
      ∧ Results.f1_score r = 0%Q ∧ Results.accuracy r = 0%Q.
Proof.
  split; [vm_compute; reflexivity|].
  destruct (example_validate 1 None false 1000000 false (World ∅ 0))
    as [[r w]|e] eqn:Hrun; vm_compute in Hrun; [|discriminate].
  exists r, w. split; [done|]. by injection Hrun as <- <-.
Qed.

(** * Further properties of the sieves *)

(** X1.  For every limit from 0 on, the set the standard sieve returns is
    the set of the primes up to the limit: it holds no number below 2 and
    none above the limit. *)
Theorem standard_sieve_exact (limit : Z) :
  0 ≤ limit →
  ∃ known_primes,
    generate_known_primes_standard limit = Ok known_primes ∧
    ∀ n, n ∈ known_primes ↔ 2 ≤ n ≤ limit ∧ prime n.
Proof. apply standard_sieve_elem. Qed.

Lemma standard_sieve_exact_witness :
  0 ≤ 100 ∧
  ∃ known_primes,
    generate_known_primes_standard 100 = Ok known_primes ∧
    ∀ n, n ∈ known_primes ↔ 2 ≤ n ≤ 100 ∧ prime n.
Proof. split; [lia | apply (standard_sieve_exact 100); lia]. Defined.

(** X2.  For every limit from 0 on and every window of at least one number,
    the segmented sieve returns the set of the primes up to the limit. *)
Theorem segmented_sieve_correct (limit segment_size : Z) :
  0 ≤ limit → 1 ≤ segment_size →
  ∃ known_primes,
    generate_known_primes_segmented limit segment_size = Ok known_primes ∧
    ∀ n, n ∈ known_primes ↔ 2 ≤ n ≤ limit ∧ prime n.
Proof. apply segmented_sieve_elem. Qed.

Lemma segmented_sieve_correct_witness :
  0 ≤ 30 ∧ 1 ≤ 7 ∧
  ∃ known_primes,
    generate_known_primes_segmented 30 7 = Ok known_primes ∧
    ∀ n, n ∈ known_primes ↔ 2 ≤ n ≤ 30 ∧ prime n.
Proof.
  split; [lia|]. split; [lia|]. apply (segmented_sieve_correct 30 7); lia.
Defined.

(** X3.  For every limit from 2 on, the bit sieve returns the set of the
    primes up to the limit. *)
Theorem bit_sieve_correct (limit : Z) :
  2 ≤ limit →
  ∃ known_primes,
    generate_known_primes_bit_sieve limit = Ok known_primes ∧
    ∀ n, n ∈ known_primes ↔ 2 ≤ n ≤ limit ∧ prime n.
Proof. apply bit_sieve_elem. Qed.

Lemma bit_sieve_correct_witness :
  2 ≤ 100 ∧
  ∃ known_primes,
    generate_known_primes_bit_sieve 100 = Ok known_primes ∧
    ∀ n, n ∈ known_primes ↔ 2 ≤ n ≤ 100 ∧ prime n.
Proof. split; [lia | apply (bit_sieve_correct 100); lia]. Defined.

Lemma standard_negative (limit : Z) :
  limit < 0 → generate_known_primes_standard limit = Raise ValueError.
Proof.
  intros Hl. unfold generate_known_primes_standard, np_ones.
  destruct (Z.ltb_spec (limit + 1) 0); [done|]. rewrite bind_Ok.
  unfold int_sqrt. by destruct (Z.ltb_spec limit 0); [|lia].
Qed.





(** X5.  The window of the segmented sieve is not checked.  For a limit
    from 0 on, a window of 0 raises [ValueError], and a negative window
    makes the sieve return, without any error, only the primes up to the
    square root of the limit. *)
Theorem segmented_sieve_bad_window (limit segment_size : Z) :
  0 ≤ limit → segment_size < 0 →
  generate_known_primes_segmented limit 0 = Raise ValueError
  ∧ ∃ known_primes,
      generate_known_primes_segmented limit segment_size = Ok known_primes
      ∧ ∀ n, n ∈ known_primes ↔ 2 ≤ n ≤ isqrt limit ∧ prime n.
Proof.
  intros Hl Hsz. unfold generate_known_primes_segmented, int_sqrt.
  destruct (Z.ltb_spec limit 0); [lia|]. rewrite !bind_Ok.
  pose proof (Z.sqrt_nonneg limit) as Hs0.
  pose proof (Z.sqrt_spec limit Hl) as Hsqrt. simpl in Hsqrt.
  destruct (standard_sieve_elem (isqrt limit) Hs0) as (base & Hbase & Helem).
  rewrite Hbase, !bind_Ok. split; [done|].
  unfold py_range. destruct (Z.eqb_spec segment_size 0) as [|_]; [lia|].
  rewrite bind_Ok.
  assert (range3 (isqrt limit + 1) (limit + 1) segment_size = []) as ->.
  { unfold range3, range_len, isqrt.
    destruct (Z.ltb_spec 0 segment_size); [lia|].
    destruct (Z.ltb_spec (limit + 1) (Z.sqrt limit + 1)); [nia | done]. }
  by exists base.
Qed.

Lemma segmented_sieve_bad_window_witness :
  0 ≤ 30 ∧ -5 < 0 ∧
  generate_known_primes_segmented 30 0 = Raise ValueError
  ∧ ∃ known_primes,
      generate_known_primes_segmented 30 (-5) = Ok known_primes
      ∧ ∀ n, n ∈ known_primes ↔ 2 ≤ n ≤ isqrt 30 ∧ prime n.
Proof.
  split; [lia|]. split; [lia|].
  apply (segmented_sieve_bad_window 30 (-5)); lia.
Defined.

(** X6.  Whatever the method name and the memory mode,
    [generate_known_primes] returns the set of the primes up to the limit
    for every limit from 2 on. *)
Theorem generate_known_primes_correct (low_memory : bool) (method : string)
    (limit : Z) :
  2 ≤ limit →
  ∃ known_primes,
    generate_known_primes low_memory limit method = Ok known_primes ∧
    ∀ n, n ∈ known_primes ↔ 2 ≤ n ≤ limit ∧ prime n.
Proof.
  intros Hl. unfold generate_known_primes.
  destruct (_ || _); [by apply standard_sieve_elem; lia|].
  destruct (_ || _); [by apply bit_sieve_elem|].
  apply segmented_sieve_elem; [lia | unfold default_segment_size; lia].
Qed.

Lemma generate_known_primes_correct_witness :
  2 ≤ 50 ∧
  ∃ known_primes,
    generate_known_primes true 50 "auto" = Ok known_primes ∧
    ∀ n, n ∈ known_primes ↔ 2 ≤ n ≤ 50 ∧ prime n.
Proof.
  split; [lia | apply (generate_known_primes_correct true "auto" 50); lia].
Defined.

(** X7.  The sieve of the plain validator returns the set of the primes up
    to the limit for every limit from 0 on, and raises [ValueError] for a
    negative limit. *)
Theorem plain_sieve_correct (limit : Z) :
  (0 ≤ limit →
   ∃ known_primes,
     PrimeValidator.generate_known_primes limit = Ok known_primes ∧
     ∀ n, n ∈ known_primes ↔ 2 ≤ n ≤ limit ∧ prime n)
  ∧ (limit < 0 →
     PrimeValidator.generate_known_primes limit = Raise ValueError).
Proof.
  change (PrimeValidator.generate_known_primes limit)
    with (generate_known_primes_standard limit).
  split; [apply standard_sieve_elem | apply standard_negative].
Qed.

Lemma plain_sieve_correct_witness :
  (∃ known_primes,
     PrimeValidator.generate_known_primes 30 = Ok known_primes ∧
     ∀ n, n ∈ known_primes ↔ 2 ≤ n ≤ 30 ∧ prime n)
  ∧ PrimeValidator.generate_known_primes (-3) = Raise ValueError.
Proof.
  split.
  - apply (proj1 (plain_sieve_correct 30)). lia.
  - apply (proj2 (plain_sieve_correct (-3))). lia.
Defined.

(** * Further properties of the classifier *)

Lemma primeb_prime (n : Z) : primeb n = true ↔ prime n.
Proof.
  unfold primeb. rewrite andb_true_iff, Z.leb_le. split.
  - intros [Hn Ht]. by apply trial_division_prime.
  - intros Hp. pose proof (Z.prime_ge_2 n (proj2 (prime_alt n) Hp)).
    split; [done|]. by apply trial_division_prime.
Qed.

Lemma is_prime_fresh_primeb (n : Z) :
  (PrimeClassifier.is_prime n ∅).1 = primeb n.
Proof.
  apply eq_true_iff_eq. rewrite is_prime_fresh. symmetry. apply primeb_prime.
Qed.

Lemma is_prime_reachable_primeb (n : Z) (c : gmap Z bool) :
  PrimeClassifier.reachable c → (PrimeClassifier.is_prime n c).1 = primeb n.
Proof.
  intros Hc. rewrite is_prime_cache_independent by done.
  apply is_prime_fresh_primeb.
Qed.

(** ** The classifier as the interpreter runs it *)

(** A call that returns leaves its answer in the cache and changes no other
    entry. *)
Lemma is_prime_in_doubles_cache (n : Z) (c c' : gmap Z bool) (b : bool) :
  PrimeClassifier.is_prime_in_doubles n c = Ok (b, c') →
  c' !! n = Some b ∧ ∀ m, m ≠ n → c' !! m = c !! m.
Proof.
  unfold PrimeClassifier.is_prime_in_doubles.
  destruct (c !! n) as [b0|] eqn:Hn; [by intros [= <- <-]|].
  assert (∀ v, Ok (v, <[n:=v]> c) = Ok (b, c') →
               c' !! n = Some b ∧ ∀ m, m ≠ n → c' !! m = c !! m) as Hins.
  { intros v [= <- <-]. rewrite lookup_insert_eq. split; [done|].
    intros m Hm. by rewrite lookup_insert_ne. }
  destruct (n <? 2); [apply Hins|].
  destruct ((n =? 2) || (n =? 3)); [apply Hins|].
  destruct (n mod 2 =? 0); [apply Hins|].
  destruct (math_sqrt_int n) as [sqrt_n|e]; [|done].
  rewrite bind_Ok. apply Hins.
Qed.

(** On a cache whose entries below [2^52] are right, the model with the
    integer square root gives the right answer below [2^52]. *)
Lemma is_prime_right_below (n : Z) (c : gmap Z bool) :
  (∀ m b, m < 2 ^ 52 → c !! m = Some b → b = primeb m) →
  n < 2 ^ 52 → (PrimeClassifier.is_prime n c).1 = primeb n.
Proof.
  intros Hc Hn. rewrite <- is_prime_fresh_primeb.
  unfold PrimeClassifier.is_prime at 1.
  destruct (c !! n) as [b|] eqn:Hcn.
  - simpl. rewrite (Hc n b Hn Hcn). symmetry. apply is_prime_fresh_primeb.
  - unfold PrimeClassifier.is_prime. rewrite lookup_empty.
    destruct (n <? 2); [done|].
    destruct ((n =? 2) || (n =? 3)); [done|].
    by destruct (n mod 2 =? 0).
Qed.

(** Whatever numbers a running classifier has been asked about, the
    entries of its cache below [2^52] are right. *)
Lemma reachable_in_doubles_right (c : gmap Z bool) :
  PrimeClassifier.reachable_in_doubles c →
  ∀ m b, m < 2 ^ 52 → c !! m = Some b → b = primeb m.
Proof.
  induction 1 as [|n c b c' Hc IH Hcall]; intros m b0 Hm Hlook.
  - by rewrite lookup_empty in Hlook.
  - destruct (is_prime_in_doubles_cache n c c' b Hcall) as [Hn Hother].
    destruct (decide (m = n)) as [->|Hne].
    + rewrite Hn in Hlook. injection Hlook as <-.
      rewrite is_prime_in_doubles_exact in Hcall by done.
      injection Hcall as Hb. rewrite <- (is_prime_right_below n c IH Hm).
      by rewrite Hb.
    + rewrite Hother in Hlook by done. by apply IH.
Qed.

(** A call below [2^52] on a running classifier returns the right
    answer. *)
Lemma is_prime_in_doubles_spec (n : Z) (c : gmap Z bool) :
  n < 2 ^ 52 → PrimeClassifier.reachable_in_doubles c →
  ∃ c', PrimeClassifier.is_prime_in_doubles n c = Ok (primeb n, c')
        ∧ PrimeClassifier.reachable_in_doubles c'.
Proof.
  intros Hn Hc.
  pose proof (is_prime_right_below n c (reachable_in_doubles_right c Hc) Hn)
    as Hb.
  pose proof (is_prime_in_doubles_exact n c Hn) as Hrun.
  destruct (PrimeClassifier.is_prime n c) as [b c'].
  simpl in Hb. subst b. exists c'. split; [done|].
  by apply (PrimeClassifier.reachable_in_doubles_call n c (primeb n) c').
Qed.



(** X8.  On every cache that the classifier of a running program can hold,
    a call of [is_prime] on a number below [2^52], where the square root in
    double precision is the integer square root, returns and leaves its
    answer for the number in the cache, changing no other entry; and every
    entry below [2^52] of the cache it leaves is right: true exactly for a
    prime. *)
Theorem is_prime_cache_update (n : Z) (c : gmap Z bool) :
  n < 2 ^ 52 → PrimeClassifier.reachable_in_doubles c →
  ∃ answer c',
    PrimeClassifier.is_prime_in_doubles n c = Ok (answer, c')
    ∧ c' !! n = Some answer
    ∧ (∀ m, m ≠ n → c' !! m = c !! m)
    ∧ (∀ m b, m < 2 ^ 52 → c' !! m = Some b → (b = true ↔ prime m)).
Proof.
  intros Hn Hc.
  destruct (is_prime_in_doubles_spec n c Hn Hc) as (c' & Hrun & Hc').
  destruct (is_prime_in_doubles_cache n c c' _ Hrun) as [Hcached Hother].
  exists (primeb n), c'. split; [exact Hrun|]. split; [exact Hcached|].
  split; [exact Hother|].
  intros m b Hm Hlook.
  rewrite (reachable_in_doubles_right c' Hc' m b Hm Hlook).
  apply primeb_prime.
Qed.

Lemma is_prime_cache_update_witness :
  7 < 2 ^ 52
  ∧ PrimeClassifier.reachable_in_doubles {[ 9 := false ]}
  ∧ ∃ answer c',
      PrimeClassifier.is_prime_in_doubles 7 {[ 9 := false ]}
      = Ok (answer, c')
      ∧ c' !! 7 = Some answer
      ∧ (∀ m, m ≠ 7 → c' !! m = ({[ 9 := false ]} : gmap Z bool) !! m)
      ∧ (∀ m b, m < 2 ^ 52 → c' !! m = Some b → (b = true ↔ prime m)).
Proof.
  assert (PrimeClassifier.reachable_in_doubles {[ 9 := false ]}) as Hc.
  { apply (PrimeClassifier.reachable_in_doubles_call 9 ∅ false);
      [apply PrimeClassifier.reachable_in_doubles_init|].
    vm_compute. reflexivity. }
  split; [done|]. split; [exact Hc|].
  by apply (is_prime_cache_update 7 {[ 9 := false ]}).
Defined.

Section ClassificationProps.
Variable inner_score : Z → Q.
Variable outer_score : Z → Q.
Variable cross_score : Z → Q.

Lemma classification_of_eq (n : Z) :
  classification_of inner_score outer_score cross_score n
  = if primeb n then
      let best :=
        PrimeClassifier.max_by_score ("inner_octave", inner_score n)
          [("outer_octave", outer_score n);
           ("cross_resonant", cross_score n)] in
      (true, best.1, best.2)
    else (false, "non_prime", 0%Q).
Proof.
  unfold classification_of, PrimeClassifier.classify_prime,
    PrimeClassifier.init.
  cbn [PrimeClassifier.classification_cache PrimeClassifier.prime_cache].
  rewrite lookup_empty.
  pose proof (is_prime_fresh_primeb n) as Hf.
  destruct (PrimeClassifier.is_prime n ∅) as [b c]. simpl in Hf. subst b.
  by destruct (primeb n).
Qed.

(** The caches of a classifier a program can hold: the prime cache is one
    [is_prime] can leave, and every cached classification is the one a new
    classifier computes. *)
Lemma reachable_classifier_sound (self : PrimeClassifier.t) :
  PrimeClassifier.reachable_classifier inner_score outer_score cross_score
    self →
  PrimeClassifier.reachable (PrimeClassifier.prime_cache self)
  ∧ ∀ n r, PrimeClassifier.classification_cache self !! n = Some r →
           r = classification_of inner_score outer_score cross_score n.
Proof.
  induction 1 as [|n self Hself [IHp IHc]|n self Hself [IHp IHc]].
  - split; [apply PrimeClassifier.reachable_init|].
    intros n r. simpl. by rewrite lookup_empty.
  - split; [by apply PrimeClassifier.reachable_call | done].
  - unfold PrimeClassifier.classify_prime.
    destruct (PrimeClassifier.classification_cache self !! n) as [r0|] eqn:Hn;
      [by split|].
    pose proof (is_prime_reachable_primeb n _ IHp) as Hb.
    pose proof (PrimeClassifier.reachable_call n _ IHp) as Hreach.
    pose proof (classification_of_eq n) as Hfresh.
    destruct (PrimeClassifier.is_prime n (PrimeClassifier.prime_cache self))
      as [b c]. simpl in Hb, Hreach. subst b.
    destruct (primeb n); simpl; (split; [done|]); intros m r;
      (destruct (decide (n = m)) as [<-|Hne];
       [rewrite lookup_insert_eq; intros [= <-]; by rewrite Hfresh
       |rewrite lookup_insert_ne by done; apply IHc]).
Qed.

Lemma classify_prime_spec (n : Z) (self : PrimeClassifier.t) :
  PrimeClassifier.reachable_classifier inner_score outer_score cross_score
    self →
  (PrimeClassifier.classify_prime inner_score outer_score cross_score n
     self).1
  = classification_of inner_score outer_score cross_score n.
Proof.
  intros Hself.
  destruct (reachable_classifier_sound self Hself) as [Hp Hc].
  unfold PrimeClassifier.classify_prime.
  destruct (PrimeClassifier.classification_cache self !! n) as [r0|] eqn:Hn;
    [by apply Hc|].
  pose proof (is_prime_reachable_primeb n _ Hp) as Hb.
  rewrite classification_of_eq.
  destruct (PrimeClassifier.is_prime n (PrimeClassifier.prime_cache self))
    as [b c]. simpl in Hb. subst b.
  by destruct (primeb n).
Qed.

Lemma max_by_score_name (best : string * Q) (items : list (string * Q)) :
  (PrimeClassifier.max_by_score best items).1 ∈ best.1 :: items.*1.
Proof.
  revert best. induction items as [|x items IH]; intros best; simpl.
  - left.
  - destruct (Qle_bool x.2 best.2).
    + specialize (IH best). apply elem_of_cons in IH as [->|IH];
        [left | right; by right].
    + right. apply IH.
Qed.

(** X9.  On every classifier a program can hold and every number below
    [2^52], where the square root of [is_prime] is exact, [classify_prime]
    answers what a new classifier answers, whatever the caches hold by
    then: for a prime, the flag is true and the class is one of
    [inner_octave], [outer_octave] and [cross_resonant]; for any other
    number the answer is [(False, "non_prime", 0)].  The first part says
    that the call of [is_prime] inside, as the interpreter runs it, returns
    what the model has. *)
Theorem classify_prime_answer (n : Z) (self : PrimeClassifier.t) :
  n < 2 ^ 52 →
  PrimeClassifier.reachable_classifier inner_score outer_score cross_score
    self →
  let answer :=
    (PrimeClassifier.classify_prime inner_score outer_score cross_score n
       self).1 in
  (∀ c, PrimeClassifier.is_prime_in_doubles n c
        = Ok (PrimeClassifier.is_prime n c))
  ∧ answer = classification_of inner_score outer_score cross_score n
  ∧ (prime n →
     answer.1.1 = true
     ∧ answer.1.2 ∈ ["inner_octave"; "outer_octave"; "cross_resonant"])
  ∧ (¬ prime n → answer = (false, "non_prime", 0%Q)).
Proof.
  intros Hbound Hself answer. unfold answer.
  split; [intros; by apply is_prime_in_doubles_exact|].
  rewrite (classify_prime_spec n self Hself), classification_of_eq.
  split; [done|]. split.
  - intros Hp. apply primeb_prime in Hp. rewrite Hp. simpl. split; [done|].
    apply (max_by_score_name ("inner_octave", inner_score n)
             [("outer_octave", outer_score n);
              ("cross_resonant", cross_score n)]).
  - intros Hnp. destruct (primeb n) eqn:Hb; [|done].
    by apply primeb_prime in Hb.
Qed.
End ClassificationProps.

Lemma classify_prime_answer_witness :
  15 < 2 ^ 52
  ∧ PrimeClassifier.reachable_classifier example_inner_score
    example_outer_score example_cross_score
    (example_classify_prime 13 PrimeClassifier.init).2
  ∧ (let self := (example_classify_prime 13 PrimeClassifier.init).2 in
     let answer := (example_classify_prime 15 self).1 in
     (∀ c, PrimeClassifier.is_prime_in_doubles 15 c
           = Ok (PrimeClassifier.is_prime 15 c))
     ∧ answer
     = classification_of example_inner_score example_outer_score
         example_cross_score 15
     ∧ (prime 15 →
        answer.1.1 = true
        ∧ answer.1.2 ∈ ["inner_octave"; "outer_octave"; "cross_resonant"])
     ∧ (¬ prime 15 → answer = (false, "non_prime", 0%Q))).
Proof.
  assert (PrimeClassifier.reachable_classifier example_inner_score
            example_outer_score example_cross_score
            (example_classify_prime 13 PrimeClassifier.init).2) as Hself
    by apply PrimeClassifier.reachable_classify,
         PrimeClassifier.reachable_new.
  split; [done|]. split; [exact Hself|].
  by apply (classify_prime_answer example_inner_score example_outer_score
              example_cross_score 15).
Defined.

(** ** The scans of the classifier *)

Lemma even_above_2_not_prime (n : Z) :
  (2 <? n) && (n mod 2 =? 0) = true → primeb n = false.
Proof.
  intros [Hn He]%andb_true_iff. apply Z.ltb_lt in Hn. apply Z.eqb_eq in He.
  destruct (primeb n) eqn:Hb; [|done].
  apply primeb_prime in Hb.
  assert ((2 | n)) as Hd by (apply Z.mod_divide; [lia | done]).
  destruct (Z.divide_prime_r 2 n (proj2 (prime_alt n) Hb) Hd)
    as [?|[?|[?|?]]]; lia.
Qed.

Lemma take_budget (A : Type) (max_count count : Z) (x : A) (l : list A) :
  take (Z.to_nat (Z.max 1 (max_count - count))) (x :: l)
  = if max_count <=? count + 1 then [x]
    else x :: take (Z.to_nat (Z.max 1 (max_count - (count + 1)))) l.
Proof.
  destruct (Z.leb_spec max_count (count + 1)).
  - replace (Z.to_nat (Z.max 1 (max_count - count))) with 1%nat by lia.
    simpl. by rewrite take_0.
  - replace (Z.to_nat (Z.max 1 (max_count - count)))
      with (S (Z.to_nat (Z.max 1 (max_count - (count + 1))))) by lia.
    done.
Qed.

Section ClassifierScans.
Variable inner_score : Z → Q.
Variable outer_score : Z → Q.
Variable cross_score : Z → Q.

Lemma classification_of_prime_flag (n : Z) :
  (classification_of inner_score outer_score cross_score n).1.1 = primeb n.
Proof. rewrite classification_of_eq. by destruct (primeb n). Qed.

Lemma batch_classify_loop_spec (max_count : Z) (ns : list Z)
    (results : list PrimeClassifier.entry) (count : Z)
    (self : PrimeClassifier.t) :
  PrimeClassifier.reachable_classifier inner_score outer_score cross_score
    self →
  let out :=
    PrimeClassifier.batch_classify_loop inner_score outer_score cross_score
      max_count ns results count self in
  out.1
  = results
    ++ (entry_of inner_score outer_score cross_score
          <$> take (Z.to_nat (Z.max 1 (max_count - count)))
                (filter (λ n, primeb n = true) ns))
  ∧ PrimeClassifier.reachable_classifier inner_score outer_score cross_score
      out.2.
Proof.
  revert results count self.
  induction ns as [|n ns IH]; intros results count self Hself; simpl.
  - rewrite filter_nil, take_nil. simpl. by rewrite app_nil_r.
  - destruct ((2 <? n) && (n mod 2 =? 0)) eqn:Heven.
    { rewrite filter_cons_False
        by (rewrite (even_above_2_not_prime n Heven); done).
      by apply IH. }
    destruct (reachable_classifier_sound inner_score outer_score cross_score
                self Hself) as [Hp _].
    pose proof (is_prime_reachable_primeb n _ Hp) as Hb.
    pose proof (PrimeClassifier.reachable_is_prime inner_score outer_score
                  cross_score n self Hself) as Hself1.
    destruct (PrimeClassifier.is_prime n (PrimeClassifier.prime_cache self))
      as [b cache]. simpl in Hb, Hself1. subst b.
    destruct (primeb n) eqn:Hprime.
    + pose proof (classify_prime_spec inner_score outer_score cross_score n
                    _ Hself1) as Hc.
      pose proof (PrimeClassifier.reachable_classify inner_score outer_score
                    cross_score n _ Hself1) as Hself2.
      destruct (PrimeClassifier.classify_prime inner_score outer_score
                  cross_score n
                  (PrimeClassifier.mk
                     (PrimeClassifier.classification_cache self) cache))
        as [[[flag classification] confidence] self2].
      simpl in Hc, Hself2.
      rewrite filter_cons_True by done. rewrite take_budget.
      assert (PrimeClassifier.Entry n classification confidence
              = entry_of inner_score outer_score cross_score n) as ->
        by (unfold entry_of; by rewrite <- Hc).
      destruct (max_count <=? count + 1).
      * by split.
      * destruct (IH (results
                        ++ [entry_of inner_score outer_score cross_score n])
                    (count + 1) self2 Hself2) as [-> H2].
        split; [|done]. by rewrite <- app_assoc.
    + rewrite filter_cons_False by (rewrite Hprime; done).
      by apply IH.
Qed.

Lemma in_class_prime (wanted : string) (n : Z) :
  in_class inner_score outer_score cross_score wanted n = true →
  primeb n = true.
Proof.
  unfold in_class. rewrite classification_of_prime_flag.
  by intros [? _]%andb_true_iff.
Qed.

Lemma find_primes_loop_spec (wanted : string) (max_count : Z) (ns : list Z)
    (matching_primes : list PrimeClassifier.entry) (count : Z)
    (self : PrimeClassifier.t) :
  PrimeClassifier.reachable_classifier inner_score outer_score cross_score
    self →
  let out :=
    PrimeClassifier.find_primes_loop inner_score outer_score cross_score
      wanted max_count ns matching_primes count self in
  out.1
  = matching_primes
    ++ (match_of inner_score outer_score cross_score wanted
          <$> take (Z.to_nat (Z.max 1 (max_count - count)))
                (filter (λ n, in_class inner_score outer_score cross_score
                                wanted n = true) ns))
  ∧ PrimeClassifier.reachable_classifier inner_score outer_score cross_score
      out.2.
Proof.
  revert matching_primes count self.
  induction ns as [|n ns IH]; intros matching_primes count self Hself; simpl.
  - rewrite filter_nil, take_nil. simpl. by rewrite app_nil_r.
  - destruct ((2 <? n) && (n mod 2 =? 0)) eqn:Heven.
    { rewrite filter_cons_False; [by apply IH|].
      intros Hc%in_class_prime.
      by rewrite (even_above_2_not_prime n Heven) in Hc. }
    pose proof (classify_prime_spec inner_score outer_score cross_score n
                  _ Hself) as Hc.
    pose proof (PrimeClassifier.reachable_classify inner_score outer_score
                  cross_score n _ Hself) as Hself2.
    destruct (PrimeClassifier.classify_prime inner_score outer_score
                cross_score n self)
      as [[[flag prime_class] confidence] self2].
    simpl in Hc, Hself2.
    assert (flag && String.eqb prime_class wanted
            = in_class inner_score outer_score cross_score wanted n) as ->
      by (unfold in_class; by rewrite <- Hc).
    assert (PrimeClassifier.Entry n wanted confidence
            = match_of inner_score outer_score cross_score wanted n) as ->
      by (unfold match_of; by rewrite <- Hc).
    destruct (in_class inner_score outer_score cross_score wanted n)
      eqn:Hin.
    + rewrite filter_cons_True by done. rewrite take_budget.
      destruct (max_count <=? count + 1).
      * by split.
      * destruct (IH (matching_primes
                        ++ [match_of inner_score outer_score cross_score
                              wanted n])
                    (count + 1) self2 Hself2) as [-> H2].
        split; [|done]. by rewrite <- app_assoc.
    + rewrite filter_cons_False by (rewrite Hin; done).
      by apply IH.
Qed.

(** X10.  On every classifier a program can hold and every range that
    ends below [2^52], where the square root of [is_prime] is exact,
    [batch_classify_primes] lists the primes of [start..end] in increasing
    order, each with the class and the confidence a new classifier gives
    it, and stops after [max_count] of them; with a [max_count] of 0 or less
    it still lists one prime when the range has one.  Every listed number
    is a prime of the range.  The first part says that the calls of
    [is_prime], as the interpreter runs them, return what the model has. *)
Theorem batch_classify_primes_spec (start end_ max_count : Z)
    (self : PrimeClassifier.t) :
  end_ < 2 ^ 52 →
  PrimeClassifier.reachable_classifier inner_score outer_score cross_score
    self →
  let results :=
    (PrimeClassifier.batch_classify_primes inner_score outer_score
       cross_score start end_ max_count self).1 in
  (∀ n c, n ≤ end_ →
     PrimeClassifier.is_prime_in_doubles n c
     = Ok (PrimeClassifier.is_prime n c))
  ∧ results
    = entry_of inner_score outer_score cross_score
        <$> take (Z.to_nat (Z.max 1 max_count))
              (filter (λ n, primeb n = true) (range2 start (end_ + 1)))
  ∧ (∀ e, e ∈ results →
       prime (PrimeClassifier.number e)
       ∧ start ≤ PrimeClassifier.number e ≤ end_)
  ∧ Z.of_nat (length results) ≤ Z.max 1 max_count.
Proof.
  intros Hend Hself results.
  split; [intros; apply is_prime_in_doubles_exact; lia|].
  assert (results
          = entry_of inner_score outer_score cross_score
              <$> take (Z.to_nat (Z.max 1 max_count))
                    (filter (λ n, primeb n = true)
                       (range2 start (end_ + 1)))) as Hres.
  { unfold results, PrimeClassifier.batch_classify_primes.
    destruct (batch_classify_loop_spec max_count (range2 start (end_ + 1))
                [] 0 self Hself) as [-> _].
    simpl. by rewrite Z.sub_0_r. }
  split; [done|]. rewrite Hres. split.
  - intros e (n & -> & Hn%(subseteq_take _ _ n))%list_elem_of_fmap.
    apply list_elem_of_filter in Hn as [Hp Hn].
    apply primeb_prime in Hp. apply elem_of_range2 in Hn.
    simpl. split; [done | lia].
  - rewrite length_fmap, length_take. lia.
Qed.

(** X11.  On every classifier a program can hold and every range that
    ends below [2^52], where the square root of [is_prime] is exact,
    [find_primes_by_classification] lists, in increasing order, the primes
    of [start..end] that a new classifier puts in the wanted class, each
    with its confidence, and stops after [max_count] of them (after one when
    [max_count] is 0 or less); it lists no number that is not prime,
    whatever the wanted class.  The first part says that the calls of
    [is_prime], as the interpreter runs them, return what the model has. *)
Theorem find_primes_by_classification_spec (wanted : string)
    (start end_ max_count : Z) (self : PrimeClassifier.t) :
  end_ < 2 ^ 52 →
  PrimeClassifier.reachable_classifier inner_score outer_score cross_score
    self →
  let matching_primes :=
    (PrimeClassifier.find_primes_by_classification inner_score outer_score
       cross_score wanted start end_ max_count self).1 in
  (∀ n c, n ≤ end_ →
     PrimeClassifier.is_prime_in_doubles n c
     = Ok (PrimeClassifier.is_prime n c))
  ∧ matching_primes
    = match_of inner_score outer_score cross_score wanted
        <$> take (Z.to_nat (Z.max 1 max_count))
              (filter (λ n, in_class inner_score outer_score cross_score
                              wanted n = true)
                 (range2 start (end_ + 1)))
  ∧ (∀ e, e ∈ matching_primes →
       prime (PrimeClassifier.number e)
       ∧ start ≤ PrimeClassifier.number e ≤ end_
       ∧ PrimeClassifier.classification e = wanted)
  ∧ Z.of_nat (length matching_primes) ≤ Z.max 1 max_count.
Proof.
  intros Hend Hself matching_primes.
  split; [intros; apply is_prime_in_doubles_exact; lia|].
  assert (matching_primes
          = match_of inner_score outer_score cross_score wanted
              <$> take (Z.to_nat (Z.max 1 max_count))
                    (filter (λ n, in_class inner_score outer_score
                                    cross_score wanted n = true)
                       (range2 start (end_ + 1)))) as Hres.
  { unfold matching_primes, PrimeClassifier.find_primes_by_classification.
    destruct (find_primes_loop_spec wanted max_count
                (range2 start (end_ + 1)) [] 0 self Hself) as [-> _].
    simpl. by rewrite Z.sub_0_r. }
  split; [done|]. rewrite Hres. split.
  - intros e (n & -> & Hn%(subseteq_take _ _ n))%list_elem_of_fmap.
    apply list_elem_of_filter in Hn as [Hp Hn].
    apply in_class_prime, primeb_prime in Hp. apply elem_of_range2 in Hn.
    simpl. split; [done|]. split; [lia | done].
  - rewrite length_fmap, length_take. lia.
Qed.
End ClassifierScans.

Lemma batch_classify_primes_spec_witness :
  30 < 2 ^ 52
  ∧ PrimeClassifier.reachable_classifier example_inner_score
      example_outer_score example_cross_score
      (example_classify_prime 13 PrimeClassifier.init).2
  ∧ (let results :=
       (PrimeClassifier.batch_classify_primes example_inner_score
          example_outer_score example_cross_score 10 30 3
          (example_classify_prime 13 PrimeClassifier.init).2).1 in
     (∀ n c, n ≤ 30 →
        PrimeClassifier.is_prime_in_doubles n c
        = Ok (PrimeClassifier.is_prime n c))
     ∧ results
     = entry_of example_inner_score example_outer_score example_cross_score
         <$> take (Z.to_nat (Z.max 1 3))
               (filter (λ n, primeb n = true) (range2 10 (30 + 1)))
     ∧ (∀ e, e ∈ results →
          prime (PrimeClassifier.number e)
          ∧ 10 ≤ PrimeClassifier.number e ≤ 30)
     ∧ Z.of_nat (length results) ≤ Z.max 1 3).
Proof.
  assert (PrimeClassifier.reachable_classifier example_inner_score
            example_outer_score example_cross_score
            (example_classify_prime 13 PrimeClassifier.init).2) as Hself
    by apply PrimeClassifier.reachable_classify,
         PrimeClassifier.reachable_new.
  split; [done|]. split; [exact Hself|].
  by apply (batch_classify_primes_spec example_inner_score
              example_outer_score example_cross_score 10 30 3).
Defined.

Lemma find_primes_by_classification_spec_witness :
  60 < 2 ^ 52
  ∧ PrimeClassifier.reachable_classifier example_inner_score
      example_outer_score example_cross_score
      (example_classify_prime 13 PrimeClassifier.init).2
  ∧ (let matching_primes :=
       (PrimeClassifier.find_primes_by_classification example_inner_score
          example_outer_score example_cross_score "outer_octave" 10 60 0
          (example_classify_prime 13 PrimeClassifier.init).2).1 in
     (∀ n c, n ≤ 60 →
        PrimeClassifier.is_prime_in_doubles n c
        = Ok (PrimeClassifier.is_prime n c))
     ∧ matching_primes
     = match_of example_inner_score example_outer_score example_cross_score
         "outer_octave"
         <$> take (Z.to_nat (Z.max 1 0))
               (filter (λ n, in_class example_inner_score example_outer_score
                               example_cross_score "outer_octave" n = true)
                  (range2 10 (60 + 1)))
     ∧ (∀ e, e ∈ matching_primes →
          prime (PrimeClassifier.number e)
          ∧ 10 ≤ PrimeClassifier.number e ≤ 60
          ∧ PrimeClassifier.classification e = "outer_octave")
     ∧ Z.of_nat (length matching_primes) ≤ Z.max 1 0).
Proof.
  assert (PrimeClassifier.reachable_classifier example_inner_score
            example_outer_score example_cross_score
            (example_classify_prime 13 PrimeClassifier.init).2) as Hself
    by apply PrimeClassifier.reachable_classify,
         PrimeClassifier.reachable_new.
  split; [done|]. split; [exact Hself|].
  by apply (find_primes_by_classification_spec example_inner_score
              example_outer_score example_cross_score "outer_octave" 10 60 0).
Defined.

(** ** The plain validator *)

Lemma NoDup_range_from (n : nat) (start : Z) : NoDup (range_from n start 1).
Proof.
  revert start. induction n as [|n IH]; intros start; simpl.
  - constructor.
  - constructor; [|apply IH].
    rewrite elem_of_range_from. intros (i & _ & Hi). lia.
Qed.

Lemma NoDup_range2 (start stop : Z) : NoDup (range2 start stop).
Proof. rewrite range2_range_from. apply NoDup_range_from. Qed.

Lemma filter_none {A : Type} (P : A → Prop) `{!∀ x, Decision (P x)}
    (l : list A) :
  (∀ x, x ∈ l → ¬ P x) → filter P l = [].
Proof.
  induction l as [|x l IH]; intros Hl; [done|].
  rewrite filter_cons_False by (apply Hl; left).
  apply IH. intros y Hy. apply Hl. by right.
Qed.

Lemma filter_ext_elem {A : Type} (P Q : A → Prop) `{!∀ x, Decision (P x)}
    `{!∀ x, Decision (Q x)} (l : list A) :
  (∀ x, x ∈ l → (P x ↔ Q x)) → filter P l = filter Q l.
Proof.
  induction l as [|x l IH]; intros Hl; [done|].
  assert (filter P l = filter Q l) as Hrec
    by (apply IH; intros y Hy; apply Hl; by right).
  destruct (decide (P x)) as [Hx|Hx].
  - rewrite !filter_cons_True by (done || by apply Hl; [left|]).
    by rewrite Hrec.
  - rewrite !filter_cons_False; [done| |done].
    intros HQ. apply Hx, Hl; [left | done].
Qed.

(** A ground-truth set that holds the primes up to the limit has as many
    members up to the limit as the range [2..limit] has primes. *)
Lemma count_known_primes (known_primes : gset Z) (limit : Z) :
  (∀ n, n ∈ known_primes ↔ 2 ≤ n ≤ limit ∧ prime n) →
  count_known known_primes limit
  = Z.of_nat (length (agreed_primes primeb known_primes
                        (range2 2 (limit + 1)))).
Proof.
  intros Hk. unfold count_known, agreed_primes. f_equal.
  apply Permutation_length, NoDup_Permutation.
  - apply NoDup_filter, NoDup_elements.
  - apply NoDup_filter, NoDup_range2.
  - intros n. rewrite !list_elem_of_filter, elem_of_elements, elem_of_range2,
      primeb_prime, !Hk. intuition lia.
Qed.

Lemma plain_scan_spec (known_primes : gset Z) (ns : list Z) (st : Batch.t)
    (prime_cache : gmap Z bool) :
  PrimeClassifier.reachable prime_cache →
  let out :=
    foldl (PrimeValidator.check_number known_primes) (st, prime_cache) ns in
  Batch.true_positives out.1
  = Batch.true_positives st
    + Z.of_nat (length (agreed_primes primeb known_primes ns))
  ∧ Batch.false_positives out.1
    = Batch.false_positives st
      + Z.of_nat (length (wrongly_accepted primeb known_primes ns))
  ∧ Batch.false_negatives out.1
    = Batch.false_negatives st
      + Z.of_nat (length (wrongly_refused primeb known_primes ns))
  ∧ Batch.false_positive_numbers out.1
    = Batch.false_positive_numbers st
      ++ wrongly_accepted primeb known_primes ns
  ∧ Batch.false_negative_numbers out.1
    = Batch.false_negative_numbers st
      ++ wrongly_refused primeb known_primes ns
  ∧ Batch.classifier_calls out.1 = reverse ns ++ Batch.classifier_calls st
  ∧ PrimeClassifier.reachable out.2.
Proof.
  revert st prime_cache.
  induction ns as [|n ns IH]; intros st prime_cache Hc; cbv zeta.
  - simpl. rewrite !app_nil_r. repeat split; (lia || done).
  - cbn [foldl].
    set (acc := PrimeValidator.check_number known_primes (st, prime_cache) n).
    assert (acc
            = PrimeValidator.check_number known_primes (st, prime_cache) n)
      as Hacc by done.
    clearbody acc. unfold PrimeValidator.check_number in Hacc.
    pose proof (is_prime_reachable_primeb n _ Hc) as Hb.
    pose proof (PrimeClassifier.reachable_call n _ Hc) as Hc'.
    destruct (PrimeClassifier.is_prime n prime_cache) as [b c'].
    simpl in Hb, Hc'. subst b.
    unfold agreed_primes, wrongly_accepted, wrongly_refused in *.
    rewrite reverse_cons, <- app_assoc.
    destruct (primeb n) eqn:Hp;
      destruct (decide (n ∈ known_primes)) as [Hin|Hin];
      [rewrite (bool_decide_eq_true_2 _ Hin) in Hacc
      |rewrite (bool_decide_eq_false_2 _ Hin) in Hacc
      |rewrite (bool_decide_eq_true_2 _ Hin) in Hacc
      |rewrite (bool_decide_eq_false_2 _ Hin) in Hacc];
      cbn [andb negb] in Hacc; subst acc;
      match goal with
      | |- context [foldl _ (?st', _) _] =>
          pose proof (IH st' c' Hc') as IH';
          cbv zeta in IH';
          destruct IH' as (H1 & H2 & H3 & H4 & H5 & H6 & H7)
      end;
      cbn [Batch.true_positives Batch.false_positives Batch.false_negatives
           Batch.false_positive_numbers Batch.false_negative_numbers
           Batch.classifier_calls] in *;
      rewrite H1, H2, H3, H4, H5, H6.
    + rewrite (filter_cons_True (λ n, primeb n = true ∧ n ∈ known_primes) n) by done.
      rewrite (filter_cons_False (λ n, primeb n = true ∧ n ∉ known_primes) n)
        by (intros [? ?]; congruence || tauto).
      rewrite (filter_cons_False (λ n, primeb n = false ∧ n ∈ known_primes) n)
        by (intros [? ?]; congruence || tauto).
      cbn [length]. rewrite <- ?app_assoc.
      repeat split; (lia || done).
    + rewrite (filter_cons_False (λ n, primeb n = true ∧ n ∈ known_primes) n)
        by (intros [? ?]; congruence || tauto).
      rewrite (filter_cons_True (λ n, primeb n = true ∧ n ∉ known_primes) n) by done.
      rewrite (filter_cons_False (λ n, primeb n = false ∧ n ∈ known_primes) n)
        by (intros [? ?]; congruence || tauto).
      cbn [length]. rewrite <- ?app_assoc.
      repeat split; (lia || done).
    + rewrite (filter_cons_False (λ n, primeb n = true ∧ n ∈ known_primes) n)
        by (intros [? ?]; congruence || tauto).
      rewrite (filter_cons_False (λ n, primeb n = true ∧ n ∉ known_primes) n)
        by (intros [? ?]; congruence || tauto).
      rewrite (filter_cons_True (λ n, primeb n = false ∧ n ∈ known_primes) n) by done.
      cbn [length]. rewrite <- ?app_assoc.
      repeat split; (lia || done).
    + rewrite (filter_cons_False (λ n, primeb n = true ∧ n ∈ known_primes) n)
        by (intros [? ?]; congruence || tauto).
      rewrite (filter_cons_False (λ n, primeb n = true ∧ n ∉ known_primes) n)
        by (intros [? ?]; congruence || tauto).
      rewrite (filter_cons_False (λ n, primeb n = false ∧ n ∈ known_primes) n)
        by (intros [? ?]; congruence || tauto).
      cbn [length]. rewrite <- ?app_assoc.
      repeat split; (lia || done).
Qed.

(** The run of the plain validator on a supplied ground-truth set. *)
Lemma plain_run_spec (limit : Z) (known_primes : gset Z)
    (prime_cache : gmap Z bool) :
  PrimeClassifier.reachable prime_cache →
  ∃ r prime_cache',
    PrimeValidator.validate_primality_test limit (Some known_primes)
      prime_cache = Ok (r, prime_cache')
    ∧ Results.false_positive_numbers r
      = wrongly_accepted primeb known_primes (range2 2 (limit + 1))
    ∧ Results.false_negative_numbers r
      = wrongly_refused primeb known_primes (range2 2 (limit + 1))
    ∧ Results.true_positives r
      = Z.of_nat (length (agreed_primes primeb known_primes
                            (range2 2 (limit + 1))))
    ∧ Results.false_positives r
      = Z.of_nat (length (Results.false_positive_numbers r))
    ∧ Results.false_negatives r
      = Z.of_nat (length (Results.false_negative_numbers r))
    ∧ Results.classifier_calls r = reverse (range2 2 (limit + 1))
    ∧ metrics_as_designed r
    ∧ PrimeClassifier.reachable prime_cache'.
Proof.
  intros Hc. unfold PrimeValidator.validate_primality_test.
  rewrite bind_Ok.
  destruct (plain_scan_spec known_primes (range2 2 (limit + 1)) Batch.zero
              prime_cache Hc) as (H1 & H2 & H3 & H4 & H5 & H6 & H7).
  destruct (foldl (PrimeValidator.check_number known_primes)
              (Batch.zero, prime_cache) (range2 2 (limit + 1)))
    as [st c'].
  cbn [fst snd Batch.zero Batch.true_positives Batch.false_positives
       Batch.false_negatives Batch.false_positive_numbers
       Batch.false_negative_numbers Batch.classifier_calls] in *.
  destruct (compile_results_spec limit known_primes st)
    as (r & -> & Hm & Hcnt & Hcalls & Hfp & Hfn & Htot).
  { unfold batch_counts. lia. }
  rewrite bind_Ok. exists r, c'. split; [done|].
  unfold result_counters, counters in Hcnt.
  injection Hcnt as Htp Hfpc Hfnc.
  rewrite Hfp, Hfn, Htp, Hfpc, Hfnc, Hcalls, H1, H2, H3, H4, H5, H6.
  rewrite app_nil_r. simpl. repeat split; (done || apply Hm).
Qed.

(** X12.  On every cache its classifier can hold and for every supplied
    ground-truth set, the plain validator puts every number of [2..limit]
    to the classifier, in increasing order, and reports exactly the
    disagreements: the false positives are the primes of the range that the
    set lacks, the false negatives the members of the set in the range that
    are not prime, both listed in full and in increasing order, and the
    three counters are the numbers of agreed primes, of false positives and
    of false negatives.  ([primeb] is primality, by [primeb_prime].) *)
Theorem plain_validation_exact (limit : Z) (known_primes : gset Z)
    (prime_cache : gmap Z bool) :
  PrimeClassifier.reachable prime_cache →
  ∃ r prime_cache',
    PrimeValidator.validate_primality_test limit (Some known_primes)
      prime_cache = Ok (r, prime_cache')
    ∧ Results.false_positive_numbers r
      = wrongly_accepted primeb known_primes (range2 2 (limit + 1))
    ∧ Results.false_negative_numbers r
      = wrongly_refused primeb known_primes (range2 2 (limit + 1))
    ∧ Results.true_positives r
      = Z.of_nat (length (agreed_primes primeb known_primes
                            (range2 2 (limit + 1))))
    ∧ Results.false_positives r
      = Z.of_nat (length (Results.false_positive_numbers r))
    ∧ Results.false_negatives r
      = Z.of_nat (length (Results.false_negative_numbers r))
    ∧ Results.classifier_calls r = reverse (range2 2 (limit + 1))
    ∧ metrics_as_designed r
    ∧ PrimeClassifier.reachable prime_cache'.
Proof. apply plain_run_spec. Qed.

Lemma plain_validation_exact_witness :
  PrimeClassifier.reachable (PrimeClassifier.is_prime 9 ∅).2
  ∧ ∃ r prime_cache',
      PrimeValidator.validate_primality_test 30 (Some example_known_primes)
        (PrimeClassifier.is_prime 9 ∅).2 = Ok (r, prime_cache')
      ∧ Results.false_positive_numbers r
        = wrongly_accepted primeb example_known_primes (range2 2 (30 + 1))
      ∧ Results.false_negative_numbers r
        = wrongly_refused primeb example_known_primes (range2 2 (30 + 1))
      ∧ Results.true_positives r
        = Z.of_nat (length (agreed_primes primeb example_known_primes
                              (range2 2 (30 + 1))))
      ∧ Results.false_positives r
        = Z.of_nat (length (Results.false_positive_numbers r))
      ∧ Results.false_negatives r
        = Z.of_nat (length (Results.false_negative_numbers r))
      ∧ Results.classifier_calls r = reverse (range2 2 (30 + 1))
      ∧ metrics_as_designed r
      ∧ PrimeClassifier.reachable prime_cache'.
Proof.
  assert (PrimeClassifier.reachable (PrimeClassifier.is_prime 9 ∅).2) as Hc
    by apply PrimeClassifier.reachable_call, PrimeClassifier.reachable_init.
  split; [exact Hc|].
  apply (plain_validation_exact 30 example_known_primes _ Hc).
Defined.

(** When the ground truth is the set of the primes up to the limit, nothing
    is listed as a disagreement. *)
Lemma no_disagreement (known_primes : gset Z) (limit : Z) :
  (∀ n, n ∈ known_primes ↔ 2 ≤ n ≤ limit ∧ prime n) →
  wrongly_accepted primeb known_primes (range2 2 (limit + 1)) = []
  ∧ wrongly_refused primeb known_primes (range2 2 (limit + 1)) = [].
Proof.
  intros Hk. unfold wrongly_accepted, wrongly_refused.
  split; apply filter_none; intros n; rewrite elem_of_range2, Hk;
    intros Hr [Hp Hn].
  - apply primeb_prime in Hp. apply Hn. split; [lia | done].
  - destruct Hn as [_ Hn]. apply primeb_prime in Hn. congruence.
Qed.

Lemma two_is_agreed (known_primes : gset Z) (limit : Z) :
  2 ≤ limit →
  (∀ n, n ∈ known_primes ↔ 2 ≤ n ≤ limit ∧ prime n) →
  0 < Z.of_nat (length (agreed_primes primeb known_primes
                          (range2 2 (limit + 1)))).
Proof.
  intros Hl Hk.
  assert (2 ∈ agreed_primes primeb known_primes (range2 2 (limit + 1)))
    as Hin.
  { apply list_elem_of_filter. split; [split|].
    - done.
    - apply Hk. split; [lia | apply prime_alt, Z.prime_2].
    - apply elem_of_range2. lia. }
  destruct (agreed_primes primeb known_primes (range2 2 (limit + 1)));
    [by apply elem_of_nil in Hin | simpl; lia].
Qed.

(** The metrics of a result without disagreement and with at least one
    prime found are all 1. *)
Lemma perfect_metrics (r : Results.t) :
  metrics_as_designed r →
  0 < Results.true_positives r →
  Results.false_positives r = 0 → Results.false_negatives r = 0 →
  Results.total_known_primes r = Results.true_positives r →
  (Results.precision r == 1)%Q ∧ (Results.recall r == 1)%Q
  ∧ (Results.f1_score r == 1)%Q ∧ (Results.accuracy r == 1)%Q.
Proof.
  intros (Hp & Hr & Hf & Ha) Htp Hfp Hfn Htot.
  rewrite Hfp, Z.add_0_r in Hp. rewrite Hfn, Z.add_0_r in Hr.
  rewrite Htot in Ha.
  assert (ratio_or_zero (inject_Z (Results.true_positives r))
            (inject_Z (Results.true_positives r)) == 1)%Q as H1.
  { unfold ratio_or_zero. rewrite Qeq_bool_0. simpl.
    destruct (Z.eqb_spec (Results.true_positives r) 0); [lia|].
    apply Qmult_inv_r. unfold Qeq. simpl. lia. }
  assert (Results.precision r == 1)%Q as Hp1 by (by rewrite Hp).
  assert (Results.recall r == 1)%Q as Hr1 by (by rewrite Hr).
  assert (Results.accuracy r == 1)%Q as Ha1 by (by rewrite Ha).
  repeat split; try done.
  rewrite Hf. unfold ratio_or_zero.
  destruct (Qeq_bool (Results.precision r + Results.recall r) 0) eqn:Hz.
  - apply Qeq_bool_iff in Hz. rewrite Hp1, Hr1 in Hz. discriminate Hz.
  - rewrite Hp1, Hr1. reflexivity.
Qed.

(** X13.  The classifier of the repository passes the validation of the
    plain validator without an error: for every limit from 2 on and every
    cache the classifier can hold, a run that generates its ground truth
    reports no false positive and no false negative, counts every prime up
    to the limit as a true positive, and gives precision, recall, F1 and
    accuracy 1. *)
Theorem plain_validation_perfect (limit : Z) (prime_cache : gmap Z bool) :
  2 ≤ limit → PrimeClassifier.reachable prime_cache →
  ∃ r prime_cache',
    PrimeValidator.validate_primality_test limit None prime_cache
    = Ok (r, prime_cache')
    ∧ Results.true_positives r
      = Z.of_nat (length (filter (λ n, primeb n = true)
                            (range2 2 (limit + 1))))
    ∧ Results.total_known_primes r = Results.true_positives r
    ∧ Results.false_positives r = 0 ∧ Results.false_negatives r = 0
    ∧ Results.false_positive_numbers r = []
    ∧ Results.false_negative_numbers r = []
    ∧ (Results.precision r == 1)%Q ∧ (Results.recall r == 1)%Q
    ∧ (Results.f1_score r == 1)%Q ∧ (Results.accuracy r == 1)%Q.
Proof.
  intros Hl Hc.
  assert (∃ known_primes,
            PrimeValidator.generate_known_primes limit = Ok known_primes
            ∧ ∀ n, n ∈ known_primes ↔ 2 ≤ n ≤ limit ∧ prime n)
    as (known_primes & Hgen & Hk)
    by (apply (standard_sieve_elem limit); lia).
  unfold PrimeValidator.validate_primality_test. rewrite Hgen, bind_Ok.
  destruct (plain_scan_spec known_primes (range2 2 (limit + 1)) Batch.zero
              prime_cache Hc) as (H1 & H2 & H3 & H4 & H5 & H6 & H7).
  destruct (no_disagreement known_primes limit Hk) as [Ha Hr].
  pose proof (two_is_agreed known_primes limit Hl Hk) as Hpos.
  rewrite Ha in H2, H4. rewrite Hr in H3, H5.
  destruct (foldl (PrimeValidator.check_number known_primes)
              (Batch.zero, prime_cache) (range2 2 (limit + 1)))
    as [st c'].
  cbn [fst snd Batch.zero Batch.true_positives Batch.false_positives
       Batch.false_negatives Batch.false_positive_numbers
       Batch.false_negative_numbers Batch.classifier_calls length] in *.
  destruct (compile_results_spec limit known_primes st)
    as (r & -> & Hm & Hcnt & Hcalls & Hfp & Hfn & Htot).
  { unfold batch_counts. lia. }
  rewrite bind_Ok. exists r, c'. split; [done|].
  unfold result_counters, counters in Hcnt.
  injection Hcnt as Htp Hfpc Hfnc.
  rewrite (count_known_primes known_primes limit Hk) in Htot.
  assert (agreed_primes primeb known_primes (range2 2 (limit + 1))
          = filter (λ n, primeb n = true) (range2 2 (limit + 1))) as Hag.
  { unfold agreed_primes. apply filter_ext_elem.
    intros n Hn%elem_of_range2. rewrite Hk, primeb_prime. intuition lia. }
  assert (Results.total_known_primes r = Results.true_positives r) as Heq
    by lia.
  destruct (perfect_metrics r Hm) as (Q1 & Q2 & Q3 & Q4); [lia..|done|].
  rewrite <- Hag. rewrite Hfp, Hfn, H4, H5.
  repeat split; (done || lia).
Qed.

Lemma plain_validation_perfect_witness :
  2 ≤ 100 ∧ PrimeClassifier.reachable ∅
  ∧ ∃ r prime_cache',
      PrimeValidator.validate_primality_test 100 None ∅
      = Ok (r, prime_cache')
      ∧ Results.true_positives r
        = Z.of_nat (length (filter (λ n, primeb n = true)
                              (range2 2 (100 + 1))))
      ∧ Results.total_known_primes r = Results.true_positives r
      ∧ Results.false_positives r = 0 ∧ Results.false_negatives r = 0
      ∧ Results.false_positive_numbers r = []
      ∧ Results.false_negative_numbers r = []
      ∧ (Results.precision r == 1)%Q ∧ (Results.recall r == 1)%Q
      ∧ (Results.f1_score r == 1)%Q ∧ (Results.accuracy r == 1)%Q.
Proof.
  split; [lia|]. split; [apply PrimeClassifier.reachable_init|].
  apply (plain_validation_perfect 100 ∅); [lia|].
  apply PrimeClassifier.reachable_init.
Defined.

(** ** The scan of the enhanced validator *)

Lemma cap_samples {A : Type} (cap : Z) (old : list A) (x : A)
    (rest : list A) :
  let new := if Z.of_nat (length old) <? cap then old ++ [x] else old in
  new ++ take (Z.to_nat (cap - Z.of_nat (length new))) rest
  = old ++ take (Z.to_nat (cap - Z.of_nat (length old))) (x :: rest).
Proof.
  cbv zeta. destruct (Z.ltb_spec (Z.of_nat (length old)) cap).
  - rewrite length_app. cbn [length].
    replace (Z.to_nat (cap - Z.of_nat (length old)))
      with (S (Z.to_nat (cap - Z.of_nat (length old + 1)))) by lia.
    by rewrite <- app_assoc.
  - replace (Z.to_nat (cap - Z.of_nat (length old))) with 0%nat by lia.
    by rewrite !take_0.
Qed.

Section EnhancedScans.
Variable classify : Z → bool.

Lemma scan_exact (cap : Z) (known_primes : gset Z) (ns : list Z)
    (st : Batch.t) :
  let out := foldl (check_number classify cap known_primes) st ns in
  let cs := candidates ns in
  Batch.true_positives out
  = Batch.true_positives st
    + Z.of_nat (length (agreed_primes classify known_primes cs))
  ∧ Batch.false_positives out
    = Batch.false_positives st
      + Z.of_nat (length (wrongly_accepted classify known_primes cs))
  ∧ Batch.false_negatives out
    = Batch.false_negatives st
      + Z.of_nat (length (wrongly_refused classify known_primes cs))
  ∧ Batch.false_positive_numbers out
    = Batch.false_positive_numbers st
      ++ take (Z.to_nat
                 (cap - Z.of_nat (length (Batch.false_positive_numbers st))))
           (wrongly_accepted classify known_primes cs)
  ∧ Batch.false_negative_numbers out
    = Batch.false_negative_numbers st
      ++ take (Z.to_nat
                 (cap - Z.of_nat (length (Batch.false_negative_numbers st))))
           (wrongly_refused classify known_primes cs)
  ∧ Batch.classifier_calls out = reverse cs ++ Batch.classifier_calls st.
Proof.
  revert st. induction ns as [|n ns IH]; intros st; cbv zeta.
  - unfold candidates, agreed_primes, wrongly_accepted, wrongly_refused.
    rewrite !filter_nil, !take_nil, !app_nil_r. simpl.
    repeat split; lia.
  - cbn [foldl].
    set (st1 := check_number classify cap known_primes st n).
    assert (st1 = check_number classify cap known_primes st n) as Hst1
      by done.
    clearbody st1. unfold check_number in Hst1.
    pose proof (IH st1) as IH'. cbv zeta in IH'.
    destruct IH' as (H1 & H2 & H3 & H4 & H5 & H6).
    rewrite H1, H2, H3, H4, H5, H6. clear H1 H2 H3 H4 H5 H6.
    unfold candidates, agreed_primes, wrongly_accepted, wrongly_refused.
    destruct ((2 <? n) && (n mod 2 =? 0)) eqn:Hskip.
    { subst st1.
      rewrite (filter_cons_False
                 (λ n, (2 <? n) && (n mod 2 =? 0) = false) n)
        by congruence.
      done. }
    rewrite (filter_cons_True (λ n, (2 <? n) && (n mod 2 =? 0) = false) n)
      by done.
    rewrite reverse_cons, <- app_assoc.
    set (cs := filter (λ n, (2 <? n) && (n mod 2 =? 0) = false) ns) in *.
    destruct (classify n) eqn:Hp;
      destruct (decide (n ∈ known_primes)) as [Hin|Hin];
      [rewrite (bool_decide_eq_true_2 _ Hin) in Hst1
      |rewrite (bool_decide_eq_false_2 _ Hin) in Hst1
      |rewrite (bool_decide_eq_true_2 _ Hin) in Hst1
      |rewrite (bool_decide_eq_false_2 _ Hin) in Hst1];
      cbn [andb negb] in Hst1; subst st1;
      cbn [Batch.true_positives Batch.false_positives Batch.false_negatives
           Batch.false_positive_numbers Batch.false_negative_numbers
           Batch.classifier_calls].
    + rewrite (filter_cons_True (λ n, classify n = true ∧ n ∈ known_primes) n)
        by done.
      rewrite (filter_cons_False
                 (λ n, classify n = true ∧ n ∉ known_primes) n)
        by (intros [? ?]; congruence || tauto).
      rewrite (filter_cons_False
                 (λ n, classify n = false ∧ n ∈ known_primes) n)
        by (intros [? ?]; congruence || tauto).
      cbn [length]. repeat split; (lia || done).
    + rewrite (filter_cons_False
                 (λ n, classify n = true ∧ n ∈ known_primes) n)
        by (intros [? ?]; congruence || tauto).
      rewrite (filter_cons_True (λ n, classify n = true ∧ n ∉ known_primes) n)
        by done.
      rewrite (filter_cons_False
                 (λ n, classify n = false ∧ n ∈ known_primes) n)
        by (intros [? ?]; congruence || tauto).
      cbn [length].
      rewrite (cap_samples cap (Batch.false_positive_numbers st) n).
      repeat split; (lia || done).
    + rewrite (filter_cons_False
                 (λ n, classify n = true ∧ n ∈ known_primes) n)
        by (intros [? ?]; congruence || tauto).
      rewrite (filter_cons_False
                 (λ n, classify n = true ∧ n ∉ known_primes) n)
        by (intros [? ?]; congruence || tauto).
      rewrite (filter_cons_True
                 (λ n, classify n = false ∧ n ∈ known_primes) n)
        by done.
      cbn [length].
      rewrite (cap_samples cap (Batch.false_negative_numbers st) n).
      repeat split; (lia || done).
    + rewrite (filter_cons_False
                 (λ n, classify n = true ∧ n ∈ known_primes) n)
        by (intros [? ?]; congruence || tauto).
      rewrite (filter_cons_False
                 (λ n, classify n = true ∧ n ∉ known_primes) n)
        by (intros [? ?]; congruence || tauto).
      rewrite (filter_cons_False
                 (λ n, classify n = false ∧ n ∈ known_primes) n)
        by (intros [? ?]; congruence || tauto).
      repeat split; (lia || done).
Qed.

Section SequentialExact.
Variable low_memory : bool.
Variable cpu_count : positive.
Variable checkpoint_file : Z → string.
Variable isoformat_now : nat → string.

(** The sequential run that starts from no checkpoint. *)
Lemma fresh_run_spec (limit : Z) (known_primes : gset Z)
    (use_checkpoint : bool) (batch_size : Z) (w : world) :
  1 ≤ batch_size →
  (use_checkpoint = true → load_checkpoint checkpoint_file limit w = None) →
  ∃ r w',
    validate_primality_test low_memory classify cpu_count checkpoint_file
      isoformat_now limit (Some known_primes) use_checkpoint batch_size
      false w = Ok (r, w')
    ∧ compile_results limit known_primes
        (scan classify 1000 known_primes 2 limit Batch.zero) = Ok r
    ∧ w' = (foldl (process_batch classify checkpoint_file isoformat_now
                     limit known_primes use_checkpoint batch_size)
              (Batch.zero, w) (range3 2 (limit + 1) batch_size)).2.
Proof.
  intros Hbs Hfresh. unfold validate_primality_test. rewrite bind_Ok.
  assert (initial_scan checkpoint_file limit use_checkpoint w
          = (2, Batch.zero)) as ->.
  { unfold initial_scan. destruct use_checkpoint; [|done].
    by rewrite Hfresh. }
  unfold py_range.
  destruct (Z.eqb_spec batch_size 0) as [|_]; [lia|]. rewrite bind_Ok.
  pose proof (sequential_batches classify checkpoint_file isoformat_now limit
                known_primes use_checkpoint batch_size 2 Batch.zero w Hbs)
    as Hseq.
  destruct (foldl _ (Batch.zero, w) _) as [st w'] eqn:Hfold.
  simpl in Hseq. subst st.
  destruct (compile_results_never_raises limit known_primes
              (scan classify 1000 known_primes 2 limit Batch.zero))
    as (r & Hr).
  rewrite Hr, bind_Ok. by exists r, w'.
Qed.

(** The results of the sequential run that starts from no checkpoint. *)
Lemma sequential_run_exact (limit : Z) (known_primes : gset Z)
    (use_checkpoint : bool) (batch_size : Z) (w : world) :
  1 ≤ batch_size →
  (use_checkpoint = true → load_checkpoint checkpoint_file limit w = None) →
  ∃ r w',
    validate_primality_test low_memory classify cpu_count checkpoint_file
      isoformat_now limit (Some known_primes) use_checkpoint batch_size
      false w = Ok (r, w')
    ∧ (let cs := candidates (range2 2 (limit + 1)) in
       Results.classifier_calls r = reverse cs
       ∧ Results.true_positives r
         = Z.of_nat (length (agreed_primes classify known_primes cs))
       ∧ Results.false_positives r
         = Z.of_nat (length (wrongly_accepted classify known_primes cs))
       ∧ Results.false_negatives r
         = Z.of_nat (length (wrongly_refused classify known_primes cs))
       ∧ Results.false_positive_numbers r
         = take 1000 (wrongly_accepted classify known_primes cs)
       ∧ Results.false_negative_numbers r
         = take 1000 (wrongly_refused classify known_primes cs)).
Proof.
  intros Hbs Hfresh.
  destruct (fresh_run_spec limit known_primes use_checkpoint batch_size w
              Hbs Hfresh) as (r & w' & Hrun & Hr & _).
  exists r, w'. split; [done|]. cbv zeta.
  destruct (compile_results_spec limit known_primes
              (scan classify 1000 known_primes 2 limit Batch.zero))
    as (r' & Hr' & _ & Hcnt & Hcalls & Hfp & Hfn & _);
    [apply scan_counts, batch_zero_counts|].
  rewrite Hr in Hr'. injection Hr' as <-.
  unfold result_counters, counters in Hcnt. injection Hcnt as Htp Hfpc Hfnc.
  pose proof (scan_exact 1000 known_primes (range2 2 (limit + 1)) Batch.zero)
    as Hscan.
  cbv zeta in Hscan. fold (scan classify 1000 known_primes 2 limit Batch.zero)
    in Hscan.
  destruct Hscan as (H1 & H2 & H3 & H4 & H5 & H6).
  rewrite Hcalls, Htp, Hfpc, Hfnc, Hfp, Hfn, H1, H2, H3, H4, H5, H6.
  simpl. rewrite app_nil_r. done.
Qed.

(** X14.  A sequential run of the enhanced validator that starts from no
    checkpoint (none asked for, none there, or an unreadable one) puts to
    the classifier 2 and the odd numbers of [2..limit], in increasing order,
    and never an even number above 2.  Its three counters are the numbers
    of agreed primes, of false positives and of false negatives among these
    candidates, whatever the batch size, and each sample list holds the
    first 1000 of its disagreements. *)
Theorem sequential_validation_exact (limit : Z) (known_primes : gset Z)
    (use_checkpoint : bool) (batch_size : Z) (w : world) :
  1 ≤ batch_size →
  (use_checkpoint = true → load_checkpoint checkpoint_file limit w = None) →
  ∃ r w',
    validate_primality_test low_memory classify cpu_count checkpoint_file
      isoformat_now limit (Some known_primes) use_checkpoint batch_size
      false w = Ok (r, w')
    ∧ (let cs := candidates (range2 2 (limit + 1)) in
       Results.classifier_calls r = reverse cs
       ∧ Results.true_positives r
         = Z.of_nat (length (agreed_primes classify known_primes cs))
       ∧ Results.false_positives r
         = Z.of_nat (length (wrongly_accepted classify known_primes cs))
       ∧ Results.false_negatives r
         = Z.of_nat (length (wrongly_refused classify known_primes cs))
       ∧ Results.false_positive_numbers r
         = take 1000 (wrongly_accepted classify known_primes cs)
       ∧ Results.false_negative_numbers r
         = take 1000 (wrongly_refused classify known_primes cs)).
Proof. apply sequential_run_exact. Qed.
End SequentialExact.
End EnhancedScans.

Lemma sequential_validation_exact_witness :
  1 ≤ 8
  ∧ (true = true →
     load_checkpoint example_checkpoint_file 30
       (World {[ example_checkpoint_file 30 := Corrupt ]} 0) = None)
  ∧ ∃ r w',
      example_validate 30 (Some example_known_primes) true 8 false
        (World {[ example_checkpoint_file 30 := Corrupt ]} 0) = Ok (r, w')
      ∧ (let cs := candidates (range2 2 (30 + 1)) in
         Results.classifier_calls r = reverse cs
         ∧ Results.true_positives r
           = Z.of_nat (length (agreed_primes example_classifier
                                 example_known_primes cs))
         ∧ Results.false_positives r
           = Z.of_nat (length (wrongly_accepted example_classifier
                                 example_known_primes cs))
         ∧ Results.false_negatives r
           = Z.of_nat (length (wrongly_refused example_classifier
                                 example_known_primes cs))
         ∧ Results.false_positive_numbers r
           = take 1000 (wrongly_accepted example_classifier
                          example_known_primes cs)
         ∧ Results.false_negative_numbers r
           = take 1000 (wrongly_refused example_classifier
                          example_known_primes cs)).
Proof.
  assert (true = true →
          load_checkpoint example_checkpoint_file 30
            (World {[ example_checkpoint_file 30 := Corrupt ]} 0) = None)
    as Hfresh.
  { intros _. unfold load_checkpoint. simpl.
    by rewrite lookup_singleton_eq. }
  split; [lia|]. split; [exact Hfresh|].
  apply (sequential_validation_exact example_classifier false 4%positive
           example_checkpoint_file example_clock 30 example_known_primes
           true 8 _ ltac:(lia) Hfresh).
Defined.

(** ** Runs of the enhanced validator *)

Lemma skipped_not_prime (n : Z) :
  primeb n = true → (2 <? n) && (n mod 2 =? 0) = false.
Proof.
  intros Hp. destruct ((2 <? n) && (n mod 2 =? 0)) eqn:Hs; [|done].
  by rewrite (even_above_2_not_prime n Hs) in Hp.
Qed.

Lemma filter_candidates (P : Z → Prop) `{!∀ n, Decision (P n)}
    (ns : list Z) :
  (∀ n, n ∈ ns → P n → primeb n = true) →
  filter P (candidates ns) = filter P ns.
Proof.
  intros HP. unfold candidates. rewrite list_filter_filter.
  apply filter_ext_elem. intros n Hn. split; [by intros [? _]|].
  intros Hpn. split; [done|]. by apply skipped_not_prime, HP.
Qed.

Lemma candidates_filter (P : Z → Prop) `{!∀ n, Decision (P n)}
    (ns : list Z) :
  filter P (candidates ns) = candidates (filter P ns).
Proof.
  unfold candidates. rewrite !list_filter_filter.
  apply list_filter_iff. tauto.
Qed.

Lemma ratio_bounds (a b : Z) :
  0 ≤ a ≤ b →
  (0 <= ratio_or_zero (inject_Z a) (inject_Z b) <= 1)%Q.
Proof.
  intros Hab. unfold ratio_or_zero. rewrite Qeq_bool_0. simpl.
  destruct (Z.eqb_spec b 0) as [|Hb]; [split; discriminate|].
  assert (0 < inject_Z b)%Q as Hpos by (unfold Qlt; simpl; lia).
  split.
  - apply Qle_shift_div_l; [done|]. rewrite Qmult_0_l.
    unfold Qle. simpl. lia.
  - apply Qle_shift_div_r; [done|]. rewrite Qmult_1_l.
    unfold Qle. simpl. lia.
Qed.

Lemma harmonic_bounds (p r : Q) :
  (0 <= p <= 1)%Q → (0 <= r <= 1)%Q →
  (0 <= ratio_or_zero (2 * p * r) (p + r) <= 1)%Q.
Proof.
  intros [Hp0 Hp1] [Hr0 Hr1]. unfold ratio_or_zero.
  destruct (Qeq_bool (p + r) 0) eqn:Hz; [split; discriminate|].
  apply Qeq_bool_neq in Hz.
  assert (0 < p + r)%Q as Hpos.
  { apply Qle_lt_or_eq in Hp0, Hr0.
    destruct Hp0 as [?|Hp0], Hr0 as [?|Hr0]; lra. }
  split.
  - apply Qle_shift_div_l; [done|]. nra.
  - apply Qle_shift_div_r; [done|]. nra.
Qed.

Lemma metrics_bounds (r : Results.t) :
  metrics_as_designed r →
  0 ≤ Results.true_positives r → 0 ≤ Results.false_positives r →
  0 ≤ Results.false_negatives r →
  Results.true_positives r ≤ Results.total_known_primes r →
  (0 <= Results.precision r <= 1)%Q ∧ (0 <= Results.recall r <= 1)%Q
  ∧ (0 <= Results.f1_score r <= 1)%Q ∧ (0 <= Results.accuracy r <= 1)%Q.
Proof.
  intros (Hp & Hr & Hf & Ha) Htp Hfp Hfn Htot.
  assert (0 <= Results.precision r <= 1)%Q as Bp
    by (rewrite Hp; apply ratio_bounds; lia).
  assert (0 <= Results.recall r <= 1)%Q as Br
    by (rewrite Hr; apply ratio_bounds; lia).
  split; [done|]. split; [done|]. split.
  - rewrite Hf. by apply harmonic_bounds.
  - rewrite Ha. apply ratio_bounds. lia.
Qed.

(** The candidates a ground-truth set holds are no more than its members up
    to the limit. *)
Lemma known_candidates_count (test : Z → bool) (known_primes : gset Z)
    (limit : Z) :
  let cs := candidates (range2 2 (limit + 1)) in
  Z.of_nat (length (agreed_primes test known_primes cs))
  + Z.of_nat (length (wrongly_refused test known_primes cs))
  ≤ count_known known_primes limit.
Proof.
  intros cs. unfold count_known.
  rewrite <- Nat2Z.inj_add, <- length_app. apply inj_le.
  apply submseteq_length, NoDup_submseteq.
  - assert (NoDup cs) as Hcs by apply NoDup_filter, NoDup_range2.
    apply NoDup_app. split; [by apply NoDup_filter|].
    split; [|by apply NoDup_filter].
    intros n [[Ht _] _]%list_elem_of_filter [[Hf _] _]%list_elem_of_filter.
    congruence.
  - intros n Hn.
    apply list_elem_of_filter. rewrite elem_of_elements.
    apply elem_of_app in Hn as [Hn|Hn];
      apply list_elem_of_filter in Hn as [[_ Hk] Hn];
      apply list_elem_of_filter in Hn as [_ Hn];
      apply elem_of_range2 in Hn; (split; [lia | done]).
Qed.

Section EnhancedRuns.
Variable low_memory : bool.
Variable classify : Z → bool.
Variable cpu_count : positive.
Variable checkpoint_file : Z → string.
Variable isoformat_now : nat → string.

(** The distributed run, with its sample lists. *)
Lemma distributed_run_spec (limit : Z) (known_primes : gset Z)
    (batch_size : Z) (num_processes : option positive) :
  1 ≤ batch_size →
  ∃ r,
    validate_primality_test_distributed classify cpu_count limit known_primes
      batch_size num_processes = Ok r
    ∧ metrics_as_designed r
    ∧ result_counters r
      = counters (scan classify 1000 known_primes 2 limit Batch.zero)
    ∧ Results.total_known_primes r = count_known known_primes limit
    ∧ (Results.false_positive_numbers r, Results.false_negative_numbers r)
      = combine_samples
          (batch_results_of classify limit known_primes batch_size
             (range3 2 (limit + 1) batch_size)).
Proof.
  intros Hbs.
  destruct (validate_distributed_spec classify cpu_count limit known_primes
              batch_size num_processes Hbs) as (r & Hr & Hm & Hc).
  exists r. split; [done|]. split; [done|]. split; [done|].
  unfold validate_primality_test_distributed, py_range in Hr.
  destruct (Z.eqb_spec batch_size 0) as [|_]; [lia|].
  rewrite bind_Ok in Hr. unfold pool_starmap in Hr.
  change (_ <$> (_ <$> range3 2 (limit + 1) batch_size))
    with (batch_results_of classify limit known_primes batch_size
            (range3 2 (limit + 1) batch_size)) in Hr.
  set (rs := batch_results_of classify limit known_primes batch_size
               (range3 2 (limit + 1) batch_size)) in *.
  destruct (combine_samples rs) as [fps fns].
  destruct (compile_results_spec limit known_primes
              (Batch.mk (py_sum (Batch.true_positives <$> rs))
                 (py_sum (Batch.false_positives <$> rs))
                 (py_sum (Batch.false_negatives <$> rs)) fps fns
                 (concat (reverse (Batch.classifier_calls <$> rs)))))
    as (r' & Hr' & _ & _ & _ & Hfp & Hfn & Htot);
    [apply batch_sums_counts|].
  rewrite Hr' in Hr. injection Hr as <-.
  split; [done|]. by rewrite Hfp, Hfn.
Qed.

(** What the merge of the batches keeps of their sample lists. *)
Lemma combine_samples_spec (P N : Z → Prop) (rs : list Batch.t) :
  (∀ b, b ∈ rs → Forall P (Batch.false_positive_numbers b)
                 ∧ Forall N (Batch.false_negative_numbers b)) →
  Forall P (combine_samples rs).1 ∧ Forall N (combine_samples rs).2
  ∧ (length (combine_samples rs).1 ≤ 1000)%nat
  ∧ (length (combine_samples rs).2 ≤ 1000)%nat.
Proof.
  unfold combine_samples.
  assert (∀ fps fns,
            Forall P fps → Forall N fns →
            (length fps ≤ 1000)%nat → (length fns ≤ 1000)%nat →
            (∀ b, b ∈ rs → Forall P (Batch.false_positive_numbers b)
                           ∧ Forall N (Batch.false_negative_numbers b)) →
            let out :=
              foldl (λ '(fps, fns) result,
                       let fps :=
                         fps ++ take 100 (Batch.false_positive_numbers result)
                       in
                       let fns :=
                         fns ++ take 100 (Batch.false_negative_numbers result)
                       in
                       let fps := if 1000 <=? Z.of_nat (length fps)
                                  then take 1000 fps else fps in
                       let fns := if 1000 <=? Z.of_nat (length fns)
                                  then take 1000 fns else fns in
                       (fps, fns)) (fps, fns) rs in
            Forall P out.1 ∧ Forall N out.2
            ∧ (length out.1 ≤ 1000)%nat ∧ (length out.2 ≤ 1000)%nat) as Hgen.
  { induction rs as [|b rs IH]; intros fps fns HP HN Lp Ln Hrs; cbv zeta.
    - done.
    - cbn [foldl].
      destruct (Hrs b ltac:(left)) as [Hbp Hbn].
      apply IH.
      + destruct (1000 <=? _); [apply Forall_take|];
          (apply Forall_app; split; [done | by apply Forall_take]).
      + destruct (1000 <=? _); [apply Forall_take|];
          (apply Forall_app; split; [done | by apply Forall_take]).
      + destruct (Z.leb_spec 1000
                    (Z.of_nat (length (fps ++ take 100
                                 (Batch.false_positive_numbers b)))));
          [rewrite length_take; lia | lia].
      + destruct (Z.leb_spec 1000
                    (Z.of_nat (length (fns ++ take 100
                                 (Batch.false_negative_numbers b)))));
          [rewrite length_take; lia | lia].
      + intros b' Hb'. apply Hrs. by right. }
  intros Hrs. apply (Hgen [] []); (done || simpl; lia).
Qed.

(** The samples of a batch inside [2..limit] are disagreements. *)
Lemma batch_samples (limit : Z) (known_primes : gset Z) (batch_size : Z)
    (starts : list Z) (b : Batch.t) :
  (∀ s, s ∈ starts → 2 ≤ s) →
  b ∈ batch_results_of classify limit known_primes batch_size starts →
  Forall (λ n, 2 ≤ n ≤ limit ∧ classify n = true ∧ n ∉ known_primes)
    (Batch.false_positive_numbers b)
  ∧ Forall (λ n, 2 ≤ n ≤ limit ∧ classify n = false ∧ n ∈ known_primes)
      (Batch.false_negative_numbers b).
Proof.
  intros Hstarts Hb. unfold batch_results_of in Hb.
  apply list_elem_of_fmap in Hb as ([x y] & -> & Hxy).
  apply list_elem_of_fmap in Hxy as (s & [= -> ->] & Hs).
  apply Hstarts in Hs. cbn [fst snd].
  unfold validate_primality_test_batch, scan.
  pose proof (scan_exact classify 100 known_primes
                (range2 s (Z.min (s + batch_size - 1) limit + 1))
                Batch.zero) as Hscan.
  cbv zeta in Hscan. destruct Hscan as (_ & _ & _ & -> & -> & _).
  simpl.
  split; apply Forall_forall; intros n Hn%(subseteq_take _ _ n);
    apply list_elem_of_filter in Hn as [[Hc Hk] Hn];
    apply list_elem_of_filter in Hn as [_ Hn];
    apply elem_of_range2 in Hn; (split; [lia | done]).
Qed.

(** X15.  The sample lists of a distributed run hold at most 1000 numbers
    each, and what they hold are disagreements inside [2..limit]: a listed
    false positive is a number the classifier accepts and the ground truth
    lacks, a listed false negative one the ground truth holds and the
    classifier refuses. *)
Theorem distributed_samples_sound (limit : Z) (known_primes : gset Z)
    (batch_size : Z) (num_processes : option positive) :
  1 ≤ batch_size →
  ∃ r,
    validate_primality_test_distributed classify cpu_count limit known_primes
      batch_size num_processes = Ok r
    ∧ (length (Results.false_positive_numbers r) ≤ 1000)%nat
    ∧ (length (Results.false_negative_numbers r) ≤ 1000)%nat
    ∧ (∀ n, n ∈ Results.false_positive_numbers r →
            2 ≤ n ≤ limit ∧ classify n = true ∧ n ∉ known_primes)
    ∧ (∀ n, n ∈ Results.false_negative_numbers r →
            2 ≤ n ≤ limit ∧ classify n = false ∧ n ∈ known_primes).
Proof.
  intros Hbs.
  destruct (distributed_run_spec limit known_primes batch_size num_processes
              Hbs) as (r & Hr & _ & _ & _ & Hs).
  exists r. split; [done|].
  destruct (combine_samples_spec
              (λ n, 2 ≤ n ≤ limit ∧ classify n = true ∧ n ∉ known_primes)
              (λ n, 2 ≤ n ≤ limit ∧ classify n = false ∧ n ∈ known_primes)
              (batch_results_of classify limit known_primes batch_size
                 (range3 2 (limit + 1) batch_size)))
    as (HP & HN & LP & LN).
  { intros b. apply batch_samples.
    intros s Hs'%elem_of_range3; lia. }
  rewrite <- Hs in HP, HN, LP, LN. cbn [fst snd] in *.
  rewrite Forall_forall in HP. rewrite Forall_forall in HN.
  split; [exact LP|]. split; [exact LN|]. split; [exact HP | exact HN].
Qed.

(** X16.  In a run that starts from no checkpoint, sequential or
    distributed, the true positives and the false negatives together are no
    more than the known primes up to the limit, and precision, recall, F1
    and accuracy all lie between 0 and 1. *)
Theorem metrics_between_0_and_1 (limit : Z) (known_primes : gset Z)
    (use_checkpoint : bool) (batch_size : Z) (distributed : bool)
    (w : world) :
  1 ≤ batch_size →
  (use_checkpoint = true → load_checkpoint checkpoint_file limit w = None) →
  ∃ r w',
    validate_primality_test low_memory classify cpu_count checkpoint_file
      isoformat_now limit (Some known_primes) use_checkpoint batch_size
      distributed w = Ok (r, w')
    ∧ Results.true_positives r + Results.false_negatives r
      ≤ Results.total_known_primes r
    ∧ (0 <= Results.precision r <= 1)%Q ∧ (0 <= Results.recall r <= 1)%Q
    ∧ (0 <= Results.f1_score r <= 1)%Q ∧ (0 <= Results.accuracy r <= 1)%Q.
Proof.
  intros Hbs Hfresh.
  assert (∃ r w',
            validate_primality_test low_memory classify cpu_count
              checkpoint_file isoformat_now limit (Some known_primes)
              use_checkpoint batch_size distributed w = Ok (r, w')
            ∧ metrics_as_designed r
            ∧ result_counters r
              = counters (scan classify 1000 known_primes 2 limit Batch.zero)
            ∧ Results.total_known_primes r = count_known known_primes limit)
    as (r & w' & Hrun & Hm & Hc & Htot).
  { destruct distributed.
    - destruct (distributed_run_spec limit known_primes batch_size None Hbs)
        as (r & Hr & Hm & Hc & Htot & _).
      exists r, w. unfold validate_primality_test.
      rewrite bind_Ok, Hr, bind_Ok.
      split; [done|]. split; [exact Hm|]. split; [exact Hc | exact Htot].
    - destruct (fresh_run_spec classify low_memory cpu_count checkpoint_file
                  isoformat_now limit known_primes use_checkpoint batch_size
                  w Hbs Hfresh) as (r & w' & Hrun & Hr & _).
      destruct (compile_results_spec limit known_primes
                  (scan classify 1000 known_primes 2 limit Batch.zero))
        as (r' & Hr' & Hm & Hc & _ & _ & _ & Htot);
        [apply scan_counts, batch_zero_counts|].
      rewrite Hr in Hr'. injection Hr' as <-.
      exists r, w'.
      split; [done|]. split; [exact Hm|]. split; [exact Hc | exact Htot]. }
  exists r, w'. split; [done|].
  unfold result_counters, counters in Hc. injection Hc as Htp Hfp Hfn.
  pose proof (scan_exact classify 1000 known_primes (range2 2 (limit + 1))
                Batch.zero) as Hscan.
  cbv zeta in Hscan.
  fold (scan classify 1000 known_primes 2 limit Batch.zero) in Hscan.
  destruct Hscan as (H1 & H2 & H3 & _).
  pose proof (known_candidates_count classify known_primes limit) as Hle.
  cbv zeta in Hle. simpl in H1, H2, H3.
  assert (Results.true_positives r + Results.false_negatives r
          ≤ Results.total_known_primes r) as Hsum by lia.
  split; [done|]. apply metrics_bounds; (done || lia).
Qed.
End EnhancedRuns.

Lemma distributed_samples_sound_witness :
  1 ≤ 7
  ∧ ∃ r,
      validate_primality_test_distributed odd_classifier 4%positive 100
        example_known_primes 7 (Some 3%positive) = Ok r
      ∧ (length (Results.false_positive_numbers r) ≤ 1000)%nat
      ∧ (length (Results.false_negative_numbers r) ≤ 1000)%nat
      ∧ (∀ n, n ∈ Results.false_positive_numbers r →
              2 ≤ n ≤ 100 ∧ odd_classifier n = true
              ∧ n ∉ example_known_primes)
      ∧ (∀ n, n ∈ Results.false_negative_numbers r →
              2 ≤ n ≤ 100 ∧ odd_classifier n = false
              ∧ n ∈ example_known_primes).
Proof.
  split; [lia|].
  apply (distributed_samples_sound odd_classifier 4%positive 100
           example_known_primes 7 (Some 3%positive)). lia.
Defined.

Lemma metrics_between_0_and_1_witness :
  1 ≤ 8
  ∧ (false = true →
     load_checkpoint example_checkpoint_file 50 (World ∅ 0) = None)
  ∧ ∃ r w',
      validate_primality_test false odd_classifier 4%positive
        example_checkpoint_file example_clock 50 (Some example_known_primes)
        false 8 false (World ∅ 0) = Ok (r, w')
      ∧ Results.true_positives r + Results.false_negatives r
        ≤ Results.total_known_primes r
      ∧ (0 <= Results.precision r <= 1)%Q ∧ (0 <= Results.recall r <= 1)%Q
      ∧ (0 <= Results.f1_score r <= 1)%Q
      ∧ (0 <= Results.accuracy r <= 1)%Q.
Proof.
  split; [lia|]. split; [done|].
  apply (metrics_between_0_and_1 false odd_classifier 4%positive
           example_checkpoint_file example_clock 50 example_known_primes
           false 8 false (World ∅ 0)); [lia | done].
Defined.

(** ** A classifier that is right, and the two validators side by side *)

(** From limit 2 on, the ground truth a run generates for itself is the set
    of the primes up to the limit. *)
Lemma generated_ground_truth_elem (low_memory : bool) (limit : Z) :
  2 ≤ limit →
  ∃ known_primes,
    (if low_memory then generate_known_primes low_memory limit "segmented"
     else generate_known_primes low_memory limit "auto") = Ok known_primes
    ∧ ∀ n, n ∈ known_primes ↔ 2 ≤ n ≤ limit ∧ prime n.
Proof.
  intros Hl. unfold generate_known_primes.
  destruct low_memory; simpl.
  - apply segmented_sieve_elem; [lia | unfold default_segment_size; lia].
  - destruct (limit <=? 10000000); simpl;
      [by apply standard_sieve_elem; lia|].
    destruct (limit <=? 100000000); [by apply bit_sieve_elem|].
    apply segmented_sieve_elem; [lia | unfold default_segment_size; lia].
Qed.

Lemma example_classifier_primeb (n : Z) : example_classifier n = primeb n.
Proof. apply is_prime_fresh_primeb. Qed.

Section RightClassifier.
Variable low_memory : bool.
Variable classify : Z → bool.
Variable cpu_count : positive.
Variable checkpoint_file : Z → string.
Variable isoformat_now : nat → string.

(** With a classifier that is right on [2..limit] and the primes up to the
    limit as ground truth, the candidates hold every agreed prime and no
    disagreement. *)
Lemma right_classifier_scan (limit : Z) (known_primes : gset Z) :
  (∀ n, 2 ≤ n ≤ limit → (classify n = true ↔ prime n)) →
  (∀ n, n ∈ known_primes ↔ 2 ≤ n ≤ limit ∧ prime n) →
  let cs := candidates (range2 2 (limit + 1)) in
  agreed_primes classify known_primes cs
  = filter (λ n, primeb n = true) (range2 2 (limit + 1))
  ∧ (∀ a b, 2 ≤ a → b ≤ limit →
       wrongly_accepted classify known_primes (candidates (range2 a (b + 1)))
       = []
       ∧ wrongly_refused classify known_primes
           (candidates (range2 a (b + 1))) = [])
  ∧ count_known known_primes limit
    = Z.of_nat (length (filter (λ n, primeb n = true)
                          (range2 2 (limit + 1)))).
Proof.
  intros Hright Hk cs. split; [|split].
  - unfold cs, agreed_primes. rewrite filter_candidates.
    + apply filter_ext_elem. intros n Hn%elem_of_range2.
      rewrite Hk, primeb_prime, Hright by lia. intuition lia.
    + intros n _ [_ Hn]. apply primeb_prime. by apply Hk.
  - intros a b Ha Hb. unfold wrongly_accepted, wrongly_refused.
    split; apply filter_none; intros n [_ Hn%elem_of_range2]%list_elem_of_filter
      [Hc Hin].
    + apply Hin, Hk. split; [lia|]. apply Hright; [lia | done].
    + apply Hk in Hin as [_ Hp]. apply Hright in Hp; [congruence | lia].
  - rewrite (count_known_primes known_primes limit Hk). do 2 f_equal.
    unfold agreed_primes. apply filter_ext_elem.
    intros n Hn%elem_of_range2. rewrite Hk, primeb_prime. intuition lia.
Qed.

(** X17.  A classifier that is right on [2..limit] gets the perfect score
    from the enhanced validator: for every limit from 2 on and every batch
    size from 1 on, a run that generates its ground truth and does not
    resume from a checkpoint (none asked for, none there, or an unreadable
    one), sequential or distributed and in either memory mode, returns with
    every prime up to the limit counted as a true positive, no false
    positive, no false negative, empty sample lists, and precision, recall,
    F1 and accuracy 1. *)
Theorem enhanced_validation_perfect (limit batch_size : Z)
    (use_checkpoint distributed : bool) (w : world) :
  2 ≤ limit → 1 ≤ batch_size →
  (use_checkpoint = true → load_checkpoint checkpoint_file limit w = None) →
  (∀ n, 2 ≤ n ≤ limit → (classify n = true ↔ prime n)) →
  ∃ r w',
    validate_primality_test low_memory classify cpu_count checkpoint_file
      isoformat_now limit None use_checkpoint batch_size distributed w
    = Ok (r, w')
    ∧ Results.true_positives r
      = Z.of_nat (length (filter (λ n, primeb n = true)
                            (range2 2 (limit + 1))))
    ∧ Results.total_known_primes r = Results.true_positives r
    ∧ Results.false_positives r = 0 ∧ Results.false_negatives r = 0
    ∧ Results.false_positive_numbers r = []
    ∧ Results.false_negative_numbers r = []
    ∧ (Results.precision r == 1)%Q ∧ (Results.recall r == 1)%Q
    ∧ (Results.f1_score r == 1)%Q ∧ (Results.accuracy r == 1)%Q.
Proof.
  intros Hl Hbs Hfresh Hright.
  destruct (generated_ground_truth_elem low_memory limit Hl)
    as (known_primes & Hgen & Hk).
  destruct (right_classifier_scan limit known_primes Hright Hk)
    as (Hag & Hnone & Hcount).
  pose proof (scan_exact classify 1000 known_primes (range2 2 (limit + 1))
                Batch.zero) as Hscan.
  cbv zeta in Hscan.
  fold (scan classify 1000 known_primes 2 limit Batch.zero) in Hscan.
  destruct (Hnone 2 limit ltac:(lia) ltac:(lia)) as [Hwa Hwr].
  rewrite Hag, Hwa, Hwr in Hscan. simpl in Hscan.
  destruct Hscan as (H1 & H2 & H3 & H4 & H5 & _).
  assert (∃ r w',
            validate_primality_test low_memory classify cpu_count
              checkpoint_file isoformat_now limit None use_checkpoint
              batch_size distributed w = Ok (r, w')
            ∧ metrics_as_designed r
            ∧ result_counters r
              = counters (scan classify 1000 known_primes 2 limit Batch.zero)
            ∧ Results.total_known_primes r = count_known known_primes limit
            ∧ Results.false_positive_numbers r = []
            ∧ Results.false_negative_numbers r = [])
    as (r & w' & Hrun & Hm & Hc & Htot & Hfps & Hfns).
  { unfold validate_primality_test. rewrite Hgen, bind_Ok.
    destruct distributed.
    - destruct (distributed_run_spec classify cpu_count limit known_primes
                  batch_size None Hbs) as (r & Hr & Hm & Hc & Htot & Hs).
      exists r, w. rewrite Hr, bind_Ok.
      split; [done|]. split; [exact Hm|]. split; [exact Hc|].
      split; [exact Htot|].
      destruct (combine_samples_spec (λ _, False) (λ _, False)
                  (batch_results_of classify limit known_primes batch_size
                     (range3 2 (limit + 1) batch_size)))
        as (HP & HN & _).
      { intros b Hb. unfold batch_results_of in Hb.
        apply list_elem_of_fmap in Hb as ([x y] & -> & Hxy).
        apply list_elem_of_fmap in Hxy as (s & [= -> ->] & Hs').
        apply elem_of_range3 in Hs' as [Hs' _]; [|lia]. cbn [fst snd].
        unfold validate_primality_test_batch, scan.
        pose proof (scan_exact classify 100 known_primes
                      (range2 s (Z.min (s + batch_size - 1) limit + 1))
                      Batch.zero) as Hb.
        cbv zeta in Hb. destruct Hb as (_ & _ & _ & -> & -> & _).
        destruct (Hnone s (Z.min (s + batch_size - 1) limit)
                    ltac:(lia) ltac:(lia)) as [-> ->].
        simpl. rewrite ?take_nil. by split. }
      rewrite <- Hs in HP, HN. cbn [fst snd] in HP, HN.
      split.
      + destruct (Results.false_positive_numbers r) as [|x l]; [done|].
        by apply Forall_cons in HP as [? _].
      + destruct (Results.false_negative_numbers r) as [|x l]; [done|].
        by apply Forall_cons in HN as [? _].
    - pose proof (fresh_run_spec classify low_memory cpu_count
                    checkpoint_file isoformat_now limit known_primes
                    use_checkpoint batch_size w Hbs Hfresh)
        as (r & w' & Hrun & Hr & _).
      unfold validate_primality_test in Hrun. rewrite bind_Ok in Hrun.
      exists r, w'. split; [exact Hrun|].
      destruct (compile_results_spec limit known_primes
                  (scan classify 1000 known_primes 2 limit Batch.zero))
        as (r' & Hr' & Hm & Hc & _ & Hfp & Hfn & Htot);
        [apply scan_counts, batch_zero_counts|].
      rewrite Hr in Hr'. injection Hr' as <-.
      split; [exact Hm|]. split; [exact Hc|]. split; [exact Htot|].
      by rewrite Hfp, Hfn, H4, H5. }
  exists r, w'. split; [exact Hrun|].
  unfold result_counters, counters in Hc. injection Hc as Htp Hfp Hfn.
  assert (0 < Results.true_positives r) as Hpos.
  { rewrite Htp, H1, <- Hag.
    pose proof (two_is_agreed known_primes limit Hl Hk) as H2pos.
    destruct (right_classifier_scan limit known_primes Hright Hk)
      as (Hag' & _ & Hcount').
    rewrite Hag, <- Hcount'.
    rewrite (count_known_primes known_primes limit Hk). lia. }
  assert (Results.total_known_primes r = Results.true_positives r) as Heq
    by (rewrite Htot, Hcount, Htp, H1; lia).
  destruct (perfect_metrics r Hm) as (Q1 & Q2 & Q3 & Q4);
    [lia | lia | lia | done |].
  split; [lia|]. split; [done|]. split; [lia|]. split; [lia|].
  split; [done|]. split; [done|]. by repeat split.
Qed.
End RightClassifier.

Lemma enhanced_validation_perfect_witness :
  2 ≤ 100 ∧ 1 ≤ 7
  ∧ (true = true →
     load_checkpoint example_checkpoint_file 100 (World ∅ 0) = None)
  ∧ (∀ n, 2 ≤ n ≤ 100 → (example_classifier n = true ↔ prime n))
  ∧ ∃ r w',
      validate_primality_test true example_classifier 4%positive
        example_checkpoint_file example_clock 100 None true 7 false
        (World ∅ 0) = Ok (r, w')
      ∧ Results.true_positives r
        = Z.of_nat (length (filter (λ n, primeb n = true)
                              (range2 2 (100 + 1))))
      ∧ Results.total_known_primes r = Results.true_positives r
      ∧ Results.false_positives r = 0 ∧ Results.false_negatives r = 0
      ∧ Results.false_positive_numbers r = []
      ∧ Results.false_negative_numbers r = []
      ∧ (Results.precision r == 1)%Q ∧ (Results.recall r == 1)%Q
      ∧ (Results.f1_score r == 1)%Q ∧ (Results.accuracy r == 1)%Q.
Proof.
  assert (∀ n, 2 ≤ n ≤ 100 → (example_classifier n = true ↔ prime n))
    as Hright by (intros n _; apply is_prime_fresh).
  split; [lia|]. split; [lia|]. split; [done|]. split; [exact Hright|].
  apply (enhanced_validation_perfect true example_classifier 4%positive
           example_checkpoint_file example_clock 100 7 true false
           (World ∅ 0)); [lia | lia | done | exact Hright].
Defined.

Section SideBySide.
Variable low_memory : bool.
Variable cpu_count : positive.
Variable checkpoint_file : Z → string.
Variable isoformat_now : nat → string.

(** X18.  The two validators on the same supplied ground truth, both with
    the classifier of the repository: they report the same true positives
    and the same false positives, the enhanced one listing the first 1000
    of them; they differ on the even numbers above 2 that the ground truth
    holds, which the plain validator reports as false negatives and the
    enhanced one never looks at. *)
Theorem validators_side_by_side (limit : Z) (known_primes : gset Z)
    (prime_cache : gmap Z bool) (batch_size : Z) (w : world) :
  1 ≤ batch_size → PrimeClassifier.reachable prime_cache →
  ∃ plain prime_cache' enhanced,
    PrimeValidator.validate_primality_test limit (Some known_primes)
      prime_cache = Ok (plain, prime_cache')
    ∧ validate_primality_test low_memory example_classifier cpu_count
        checkpoint_file isoformat_now limit (Some known_primes) false
        batch_size false w = Ok (enhanced, w)
    ∧ Results.true_positives enhanced = Results.true_positives plain
    ∧ Results.false_positives enhanced = Results.false_positives plain
    ∧ Results.false_positive_numbers enhanced
      = take 1000 (Results.false_positive_numbers plain)
    ∧ Results.false_negative_numbers enhanced
      = take 1000 (candidates (Results.false_negative_numbers plain))
    ∧ Results.false_negatives enhanced
      = Z.of_nat (length (candidates (Results.false_negative_numbers plain))).
Proof.
  intros Hbs Hc.
  destruct (plain_run_spec limit known_primes prime_cache Hc)
    as (plain & c' & Hp & Pfps & Pfns & Ptp & Pfp & Pfn & _).
  destruct (sequential_run_exact example_classifier low_memory cpu_count
              checkpoint_file isoformat_now limit known_primes false
              batch_size w Hbs ltac:(done))
    as (enhanced & w' & He & Hex).
  cbv zeta in Hex. destruct Hex as (_ & Etp & Efp & Efn & Efps & Efns).
  assert (w' = w) as ->.
  { destruct (validate_sequential_spec low_memory example_classifier
                cpu_count checkpoint_file isoformat_now limit known_primes
                false batch_size w Hbs)
      as (r2 & w2 & Hr2 & _ & _ & Hw);
      [apply batch_zero_counts|].
    rewrite He in Hr2. injection Hr2 as _ <-. by apply Hw. }
  exists plain, c', enhanced. split; [exact Hp|]. split; [exact He|].
  assert (∀ known ns,
            agreed_primes example_classifier known ns
            = agreed_primes primeb known ns
            ∧ wrongly_accepted example_classifier known ns
              = wrongly_accepted primeb known ns
            ∧ wrongly_refused example_classifier known ns
              = wrongly_refused primeb known ns) as Hsame.
  { intros known ns. unfold agreed_primes, wrongly_accepted, wrongly_refused.
    repeat split; apply list_filter_iff; intros n;
      by rewrite example_classifier_primeb. }
  destruct (Hsame known_primes (candidates (range2 2 (limit + 1))))
    as (S1 & S2 & S3).
  rewrite S1 in Etp. rewrite S2 in Efp, Efps. rewrite S3 in Efn, Efns.
  unfold agreed_primes in Etp. unfold wrongly_accepted in Efp, Efps.
  unfold wrongly_refused in Efn, Efns.
  rewrite filter_candidates in Etp by (by intros n _ [? _]).
  rewrite filter_candidates in Efp by (by intros n _ [? _]).
  rewrite filter_candidates in Efps by (by intros n _ [? _]).
  rewrite candidates_filter in Efn, Efns.
  rewrite Etp, Efp, Efps, Efn, Efns, Ptp, Pfp, Pfps, Pfns.
  done.
Qed.
End SideBySide.

Lemma validators_side_by_side_witness :
  1 ≤ 8 ∧ PrimeClassifier.reachable ∅
  ∧ ∃ plain prime_cache' enhanced,
      PrimeValidator.validate_primality_test 30
        (Some (list_to_set [2; 3; 4; 9; 10])) ∅ = Ok (plain, prime_cache')
      ∧ example_validate 30 (Some (list_to_set [2; 3; 4; 9; 10])) false 8
          false (World ∅ 0) = Ok (enhanced, World ∅ 0)
      ∧ Results.true_positives enhanced = Results.true_positives plain
      ∧ Results.false_positives enhanced = Results.false_positives plain
      ∧ Results.false_positive_numbers enhanced
        = take 1000 (Results.false_positive_numbers plain)
      ∧ Results.false_negative_numbers enhanced
        = take 1000 (candidates (Results.false_negative_numbers plain))
      ∧ Results.false_negatives enhanced
        = Z.of_nat (length (candidates
                              (Results.false_negative_numbers plain))).
Proof.
  split; [lia|]. split; [apply PrimeClassifier.reachable_init|].
  apply (validators_side_by_side false 4%positive example_checkpoint_file
           example_clock 30 (list_to_set [2; 3; 4; 9; 10]) ∅ 8 (World ∅ 0));
    [lia | apply PrimeClassifier.reachable_init].
Defined.

(** ** Checkpoints of a run *)

Section CheckpointedRuns.
Variable low_memory : bool.
Variable classify : Z → bool.
Variable cpu_count : positive.
Variable checkpoint_file : Z → string.
Variable isoformat_now : nat → string.

(** Once a batch is done, the checkpoint of the limit holds its end and the
    counters so far, and no other checkpoint file has changed. *)
Lemma process_batches_checkpoint (limit : Z) (known_primes : gset Z)
    (batch_size start : Z) (st : Batch.t) (w : world) :
  1 ≤ batch_size → start ≤ limit →
  let out :=
    foldl (process_batch classify checkpoint_file isoformat_now limit
             known_primes true batch_size)
      (st, w) (range3 start (limit + 1) batch_size) in
  (∃ ts,
     load_checkpoint checkpoint_file limit out.2
     = Some (Checkpoint.mk limit (Batch.true_positives out.1)
               (Batch.false_positives out.1) (Batch.false_negatives out.1)
               ts))
  ∧ ∀ path, path ≠ checkpoint_file limit →
            files out.2 !! path = files w !! path.
Proof.
  intros Hbs Hstart out. unfold range3 in out.
  pose proof (range_len_nonneg start (limit + 1) batch_size ltac:(lia))
    as Hlen0.
  set (len := range_len start (limit + 1) batch_size) in *.
  pose proof (foldl_range_from
    (λ x (acc : Batch.t * world),
       (start < x →
        ∃ ts,
          load_checkpoint checkpoint_file limit acc.2
          = Some (Checkpoint.mk (Z.min (x - 1) limit)
                    (Batch.true_positives acc.1)
                    (Batch.false_positives acc.1)
                    (Batch.false_negatives acc.1) ts))
       ∧ ∀ path, path ≠ checkpoint_file limit →
                 files acc.2 !! path = files w !! path)
    (process_batch classify checkpoint_file isoformat_now limit known_primes
       true batch_size)
    (Z.to_nat len) start batch_size (st, w)) as Hloop.
  cbv beta in Hloop. fold out in Hloop.
  destruct Hloop as [Hck Hframe].
  - split; [lia | done].
  - intros k [st1 w1] Hk [_ Hfr]. unfold process_batch. cbn [fst snd].
    split.
    + intros _. eexists. unfold load_checkpoint, save_checkpoint.
      cbn [files]. rewrite lookup_insert_eq. do 3 f_equal. lia.
    + intros path Hpath. unfold save_checkpoint. cbn [files].
      rewrite lookup_insert_ne by done. by apply Hfr.
  - split; [|exact Hframe].
    assert (start < limit + 1) as H0 by lia.
    assert (0 < len) as Hlen.
    { apply (range_len_spec start (limit + 1) batch_size 0); lia. }
    assert (¬ (start + len * batch_size < limit + 1)) as Hend.
    { rewrite <- range_len_spec by lia. fold len. lia. }
    rewrite Z2Nat.id in Hck by lia.
    destruct Hck as [ts Hts]; [nia|].
    exists ts. rewrite Hts. do 2 f_equal. lia.
Qed.

(** X19.  A sequential run with checkpoints that starts from none, for a
    limit from 2 on and a batch size from 1 on, leaves under the checkpoint
    file of its limit a checkpoint whose [last_processed] is the limit and
    whose counters are those of the result, and leaves the checkpoints of
    the other limits as they were. *)
Theorem completed_run_checkpoint (limit : Z) (known_primes : gset Z)
    (batch_size : Z) (w : world) :
  2 ≤ limit → 1 ≤ batch_size →
  load_checkpoint checkpoint_file limit w = None →
  ∃ r w' ts,
    validate_primality_test low_memory classify cpu_count checkpoint_file
      isoformat_now limit (Some known_primes) true batch_size false w
    = Ok (r, w')
    ∧ load_checkpoint checkpoint_file limit w'
      = Some (Checkpoint.mk limit (Results.true_positives r)
                (Results.false_positives r) (Results.false_negatives r) ts)
    ∧ ∀ other, checkpoint_file other ≠ checkpoint_file limit →
               load_checkpoint checkpoint_file other w'
               = load_checkpoint checkpoint_file other w.
Proof.
  intros Hl Hbs Hnone.
  destruct (fresh_run_spec classify low_memory cpu_count checkpoint_file
              isoformat_now limit known_primes true batch_size w Hbs
              ltac:(done)) as (r & w' & Hrun & Hr & Hw).
  destruct (process_batches_checkpoint limit known_primes batch_size 2
              Batch.zero w Hbs Hl) as [[ts Hts] Hframe].
  pose proof (sequential_batches classify checkpoint_file isoformat_now limit
                known_primes true batch_size 2 Batch.zero w Hbs) as Hseq.
  rewrite <- Hw in Hts, Hframe. rewrite Hseq in Hts.
  destruct (compile_results_spec limit known_primes
              (scan classify 1000 known_primes 2 limit Batch.zero))
    as (r' & Hr' & _ & Hc & _); [apply scan_counts, batch_zero_counts|].
  rewrite Hr in Hr'. injection Hr' as <-.
  unfold result_counters, counters in Hc. injection Hc as Htp Hfp Hfn.
  exists r, w', ts. split; [done|]. split; [by rewrite Htp, Hfp, Hfn|].
  intros other Hother. unfold load_checkpoint. by rewrite Hframe.
Qed.



(** X21.  The batch size is not checked.  With a batch size of 0 a run on a
    supplied ground truth raises [ValueError], sequential or distributed;
    with a negative batch size and a limit from 2 on it returns, without an
    error and without looking at any number, a result whose counters are
    all 0. *)
Theorem bad_batch_size (limit batch_size : Z) (known_primes : gset Z)
    (distributed : bool) (w : world) :
  2 ≤ limit → batch_size < 0 →
  validate_primality_test low_memory classify cpu_count checkpoint_file
    isoformat_now limit (Some known_primes) false 0 distributed w
  = Raise ValueError
  ∧ ∃ r,
      validate_primality_test low_memory classify cpu_count checkpoint_file
        isoformat_now limit (Some known_primes) false batch_size distributed
        w = Ok (r, w)
      ∧ result_counters r = (0, 0, 0)
      ∧ Results.classifier_calls r = []
      ∧ Results.total_known_primes r = count_known known_primes limit.
Proof.
  intros Hl Hbs. split.
  - unfold validate_primality_test, validate_primality_test_distributed.
    rewrite bind_Ok. by destruct distributed.
  - assert (range3 2 (limit + 1) batch_size = []) as Hempty.
    { unfold range3, range_len.
      destruct (Z.ltb_spec 0 batch_size); [lia|].
      by destruct (Z.ltb_spec (limit + 1) 2); [lia|]. }
    destruct (compile_results_spec limit known_primes Batch.zero)
      as (r & Hr & _ & Hc & Hcalls & _ & _ & Htot);
      [apply batch_zero_counts|].
    exists r.
    unfold validate_primality_test, validate_primality_test_distributed,
      py_range.
    rewrite bind_Ok.
    destruct (Z.eqb_spec batch_size 0) as [|_]; [lia|].
    destruct distributed.
    + rewrite bind_Ok, Hempty. simpl.
      change (Batch.mk (py_sum []) (py_sum []) (py_sum []) [] [] [])
        with Batch.zero.
      rewrite Hr, !bind_Ok. by repeat split.
    + simpl. rewrite Hempty. simpl. rewrite Hr, bind_Ok. by repeat split.
Qed.
End CheckpointedRuns.

Lemma completed_run_checkpoint_witness :
  2 ≤ 50 ∧ 1 ≤ 8
  ∧ load_checkpoint example_checkpoint_file 50 (World ∅ 0) = None
  ∧ ∃ r w' ts,
      example_validate 50 (Some example_known_primes) true 8 false
        (World ∅ 0) = Ok (r, w')
      ∧ load_checkpoint example_checkpoint_file 50 w'
        = Some (Checkpoint.mk 50 (Results.true_positives r)
                  (Results.false_positives r) (Results.false_negatives r) ts)
      ∧ ∀ other,
          example_checkpoint_file other ≠ example_checkpoint_file 50 →
          load_checkpoint example_checkpoint_file other w'
          = load_checkpoint example_checkpoint_file other (World ∅ 0).
Proof.
  split; [lia|]. split; [lia|]. split; [done|].
  apply (completed_run_checkpoint false example_classifier 4%positive
           example_checkpoint_file example_clock 50 example_known_primes 8
           (World ∅ 0)); [lia | lia | done].
Defined.


Lemma bad_batch_size_witness :
  2 ≤ 50 ∧ -8 < 0
  ∧ example_validate 50 (Some example_known_primes) false 0 true (World ∅ 0)
    = Raise ValueError
  ∧ ∃ r,
      example_validate 50 (Some example_known_primes) false (-8) true
        (World ∅ 0) = Ok (r, World ∅ 0)
      ∧ result_counters r = (0, 0, 0)
      ∧ Results.classifier_calls r = []
      ∧ Results.total_known_primes r
        = count_known example_known_primes 50.
Proof.
  split; [lia|]. split; [lia|].
  apply (bad_batch_size false example_classifier 4%positive
           example_checkpoint_file example_clock 50 (-8)
           example_known_primes true (World ∅ 0)); lia.
Defined.

(** ** The OEIS table and the runs at several limits *)

Lemma elem_of_primes_up_to (limit n : Z) :
  n ∈ primes_up_to limit ↔ 2 ≤ n ≤ limit ∧ prime n.
Proof.
  unfold primes_up_to.
  rewrite elem_of_list_to_set, list_elem_of_filter, elem_of_range2,
    primeb_prime.
  intuition lia.
Qed.

(** The table holds the primes up to 541, all of them and nothing else. *)
Lemma oeis_primes_table :
  oeis_primes = filter (λ n, primeb n = true) (range2 2 542).
Proof. vm_compute. reflexivity. Qed.

Lemma oeis_primes_up_to (limit : Z) :
  limit ≤ 541 →
  list_to_set (filter (λ p, p ≤ limit) oeis_primes) = primes_up_to limit.
Proof.
  intros Hl. apply set_eq. intros n.
  rewrite elem_of_primes_up_to, elem_of_list_to_set, list_elem_of_filter,
    oeis_primes_table, list_elem_of_filter, elem_of_range2, primeb_prime.
  intuition lia.
Qed.

Lemma sieve_primes_up_to (limit : Z) (known_primes : gset Z) :
  (∀ n, n ∈ known_primes ↔ 2 ≤ n ≤ limit ∧ prime n) →
  known_primes = primes_up_to limit.
Proof.
  intros Hk. apply set_eq. intros n. by rewrite Hk, elem_of_primes_up_to.
Qed.

Lemma auto_ground_truth_elem (low_memory : bool) (limit : Z) :
  2 ≤ limit →
  ∃ known_primes,
    generate_known_primes low_memory limit "auto" = Ok known_primes
    ∧ ∀ n, n ∈ known_primes ↔ 2 ≤ n ≤ limit ∧ prime n.
Proof.
  intros Hl. unfold generate_known_primes.
  destruct (_ || _); [by apply standard_sieve_elem; lia|].
  destruct (_ || _); [by apply bit_sieve_elem|].
  apply segmented_sieve_elem; [lia | unfold default_segment_size; lia].
Qed.

(** X22.  In both validators [validate_with_oeis_primes] validates against
    the set of the primes up to the limit, for every limit: up to 541 the
    table gives exactly that set, and beyond 541 the sieve does. *)
Theorem oeis_ground_truth (low_memory : bool) (classify : Z → bool)
    (cpu_count : positive) (checkpoint_file : Z → string)
    (isoformat_now : nat → string) (limit : Z) (w : world)
    (prime_cache : gmap Z bool) :
  validate_with_oeis_primes low_memory classify cpu_count checkpoint_file
    isoformat_now limit w
  = validate_primality_test low_memory classify cpu_count checkpoint_file
      isoformat_now limit (Some (primes_up_to limit)) false 1000000 false w
  ∧ PrimeValidator.validate_with_oeis_primes limit prime_cache
    = PrimeValidator.validate_primality_test limit
        (Some (primes_up_to limit)) prime_cache.
Proof.
  unfold validate_with_oeis_primes, PrimeValidator.validate_with_oeis_primes.
  destruct (Z.ltb_spec 541 limit) as [Hl|Hl].
  - destruct (auto_ground_truth_elem low_memory limit)
      as (k1 & -> & Hk1); [lia|].
    assert (∃ k2, PrimeValidator.generate_known_primes limit = Ok k2
                  ∧ ∀ n, n ∈ k2 ↔ 2 ≤ n ≤ limit ∧ prime n)
      as (k2 & -> & Hk2) by (apply (standard_sieve_elem limit); lia).
    rewrite !bind_Ok.
    by rewrite (sieve_primes_up_to limit k1 Hk1),
      (sieve_primes_up_to limit k2 Hk2).
  - rewrite !bind_Ok. by rewrite (oeis_primes_up_to limit Hl).
Qed.

(** The scan of the plain validator leaves the same counters and lists on
    every cache its classifier can hold. *)
Lemma plain_scan_cache_independent (known_primes : gset Z) (ns : list Z)
    (c : gmap Z bool) :
  PrimeClassifier.reachable c →
  (foldl (PrimeValidator.check_number known_primes) (Batch.zero, c) ns).1
  = (foldl (PrimeValidator.check_number known_primes) (Batch.zero, ∅) ns).1
  ∧ PrimeClassifier.reachable
      (foldl (PrimeValidator.check_number known_primes) (Batch.zero, c) ns).2.
Proof.
  intros Hc.
  pose proof (plain_scan_spec known_primes ns Batch.zero c Hc) as H1.
  pose proof (plain_scan_spec known_primes ns Batch.zero ∅
                PrimeClassifier.reachable_init) as H2.
  cbv zeta in H1, H2.
  destruct H1 as (A1 & A2 & A3 & A4 & A5 & A6 & A7).
  destruct H2 as (B1 & B2 & B3 & B4 & B5 & B6 & _).
  split; [|exact A7].
  destruct (foldl _ (Batch.zero, c) ns).1, (foldl _ (Batch.zero, ∅) ns).1.
  simpl in *. congruence.
Qed.

(** A run of the plain validator that generates its ground truth returns
    for every limit from 0 on, with the result of a new validator. *)
Lemma plain_run_cache_independent (limit : Z) (c : gmap Z bool) :
  0 ≤ limit → PrimeClassifier.reachable c →
  ∃ r c' c0,
    PrimeValidator.validate_primality_test limit None c = Ok (r, c')
    ∧ PrimeValidator.validate_primality_test limit None ∅ = Ok (r, c0)
    ∧ PrimeClassifier.reachable c'.
Proof.
  intros Hl Hc. unfold PrimeValidator.validate_primality_test.
  assert (∃ k, PrimeValidator.generate_known_primes limit = Ok k)
    as (k & ->).
  { destruct (standard_sieve_elem limit Hl) as (k & Hk & _). by exists k. }
  rewrite !bind_Ok.
  destruct (plain_scan_cache_independent k (range2 2 (limit + 1)) c Hc)
    as [Heq Hreach].
  destruct (foldl _ (Batch.zero, c) _) as [st c'].
  destruct (foldl _ (Batch.zero, ∅) _) as [st0 c0].
  simpl in Heq, Hreach. subst st0.
  destruct (compile_results_never_raises limit k st) as (r & ->).
  rewrite !bind_Ok. by exists r, c', c0.
Qed.

Lemma plain_run_negative (limit : Z) (c : gmap Z bool) :
  limit < 0 →
  PrimeValidator.validate_primality_test limit None c = Raise ValueError.
Proof.
  intros Hl. unfold PrimeValidator.validate_primality_test.
  change (PrimeValidator.generate_known_primes limit)
    with (generate_known_primes_standard limit).
  by rewrite (standard_negative limit Hl).
Qed.

Lemma plain_comprehensive_loop (limits : list Z)
    (all_results : gmap Z Results.t) (c : gmap Z bool) :
  Forall (λ limit, 0 ≤ limit) limits → PrimeClassifier.reachable c →
  (∀ limit r, all_results !! limit = Some r →
     ∃ c0, PrimeValidator.validate_primality_test limit None ∅ = Ok (r, c0)) →
  ∃ all_results' c',
    for_each limits
      (λ '(all_results, prime_cache) limit,
         '(results, prime_cache) ←
           PrimeValidator.validate_primality_test limit None prime_cache;
         mret (<[limit := results]> all_results, prime_cache))
      (all_results, c) = Ok (all_results', c')
    ∧ dom all_results' = dom all_results ∪ list_to_set limits
    ∧ ∀ limit r, all_results' !! limit = Some r →
        ∃ c0, PrimeValidator.validate_primality_test limit None ∅
              = Ok (r, c0).
Proof.
  revert all_results c.
  induction limits as [|limit limits IH]; intros all_results c Hl Hc Hall.
  - exists all_results, c. simpl. split; [done|]. split; [|done].
    by rewrite (right_id_L ∅ (∪)).
  - apply Forall_cons in Hl as [Hlimit Hl]. cbn [for_each].
    destruct (plain_run_cache_independent limit c Hlimit Hc)
      as (r & c' & c0 & -> & Hr0 & Hc').
    rewrite bind_Ok. cbn [mret res_ret].
    destruct (IH (<[limit := r]> all_results) c' Hl Hc')
      as (m & c'' & Hrun & Hdom & Hm).
    { intros l r'. destruct (decide (l = limit)) as [->|Hne].
      - rewrite lookup_insert_eq. intros [= <-]. by exists c0.
      - rewrite lookup_insert_ne by done. apply Hall. }
    exists m, c''. split; [exact Hrun|]. split; [|exact Hm].
    rewrite Hdom, dom_insert_L, list_to_set_cons.
    rewrite (comm_L (∪) {[limit]}). by rewrite (assoc_L (∪)).
Qed.

(** X23.  [run_comprehensive_validation] of the plain validator, for limits
    from 0 on: the classifier's cache is carried from one run to the next,
    and yet the result stored for each limit is the result of a run on a
    new validator; the dictionary has one entry for each limit given.  A
    negative limit in the list makes the call raise [ValueError]. *)
Theorem plain_comprehensive_validation (limits : list Z)
    (prime_cache : gmap Z bool) :
  PrimeClassifier.reachable prime_cache →
  (Forall (λ limit, 0 ≤ limit) limits →
   ∃ all_results prime_cache',
     PrimeValidator.run_comprehensive_validation limits prime_cache
     = Ok (all_results, prime_cache')
     ∧ dom all_results = list_to_set limits
     ∧ ∀ limit r, all_results !! limit = Some r →
         ∃ c0, PrimeValidator.validate_primality_test limit None ∅
               = Ok (r, c0))
  ∧ (Exists (λ limit, limit < 0) limits →
     PrimeValidator.run_comprehensive_validation limits prime_cache
     = Raise ValueError).
Proof.
  intros Hc. split.
  - intros Hl. unfold PrimeValidator.run_comprehensive_validation.
    destruct (plain_comprehensive_loop limits ∅ prime_cache Hl Hc)
      as (m & c' & Hrun & Hdom & Hm).
    { intros l r. by rewrite lookup_empty. }
    exists m, c'. split; [exact Hrun|]. split; [|exact Hm].
    by rewrite Hdom, dom_empty_L, (left_id_L ∅ (∪)).
  - unfold PrimeValidator.run_comprehensive_validation.
    generalize (∅ : gmap Z Results.t). revert prime_cache Hc.
    induction limits as [|limit limits IH]; intros c Hc m Hex.
    + by apply Exists_nil in Hex.
    + cbn [for_each].
      destruct (Z.lt_ge_cases limit 0) as [Hneg|Hpos].
      * by rewrite (plain_run_negative limit c Hneg).
      * destruct (plain_run_cache_independent limit c Hpos Hc)
          as (r & c' & c0 & -> & _ & Hc').
        rewrite bind_Ok. cbn [mret res_ret].
        apply IH; [exact Hc'|].
        apply Exists_cons in Hex as [Hex|Hex]; [lia | exact Hex].
Qed.

Lemma plain_comprehensive_validation_witness :
  PrimeClassifier.reachable ∅
  ∧ (∃ all_results prime_cache',
       PrimeValidator.run_comprehensive_validation [100; 1000] ∅
       = Ok (all_results, prime_cache')
       ∧ dom all_results = list_to_set [100; 1000]
       ∧ ∀ limit r, all_results !! limit = Some r →
           ∃ c0, PrimeValidator.validate_primality_test limit None ∅
                 = Ok (r, c0))
  ∧ PrimeValidator.run_comprehensive_validation [100; -1; 1000] ∅
    = Raise ValueError.
Proof.
  split; [apply PrimeClassifier.reachable_init|]. split.
  - apply (proj1 (plain_comprehensive_validation [100; 1000] ∅
                    PrimeClassifier.reachable_init)).
    repeat constructor; lia.
  - apply (proj2 (plain_comprehensive_validation [100; -1; 1000] ∅
                    PrimeClassifier.reachable_init)).
    apply Exists_cons_tl, Exists_cons_hd. lia.
Defined.

Section EnhancedComprehensive.
Variable low_memory : bool.
Variable classify : Z → bool.
Variable cpu_count : positive.
Variable checkpoint_file : Z → string.
Variable isoformat_now : nat → string.



End EnhancedComprehensive.


(** ** Resumed runs *)

Section ResumedRuns.
Variable low_memory : bool.
Variable classify : Z → bool.
Variable cpu_count : positive.
Variable checkpoint_file : Z → string.
Variable isoformat_now : nat → string.


(** A run resumed from a checkpoint. *)
Lemma resumed_run_spec (limit : Z) (known_primes : gset Z)
    (batch_size : Z) (c : Checkpoint.t) (w : world) :
  1 ≤ batch_size →
  load_checkpoint checkpoint_file limit w = Some c →
  checkpoint_counts c →
  ∃ r w',
    validate_primality_test low_memory classify cpu_count checkpoint_file
      isoformat_now limit (Some known_primes) true batch_size false w
    = Ok (r, w')
    ∧ (let cs :=
         candidates (range2 (Checkpoint.last_processed c + 1) (limit + 1)) in
       Results.classifier_calls r = reverse cs
       ∧ Results.true_positives r
         = Checkpoint.true_positives c
           + Z.of_nat (length (agreed_primes classify known_primes cs))
       ∧ Results.false_positives r
         = Checkpoint.false_positives c
           + Z.of_nat (length (wrongly_accepted classify known_primes cs))
       ∧ Results.false_negatives r
         = Checkpoint.false_negatives c
           + Z.of_nat (length (wrongly_refused classify known_primes cs))
       ∧ Results.false_positive_numbers r
         = take 1000 (wrongly_accepted classify known_primes cs)
       ∧ Results.false_negative_numbers r
         = take 1000 (wrongly_refused classify known_primes cs)).
Proof.
  intros Hbs Hload Hcounts.
  assert (initial_scan checkpoint_file limit true w
          = (Checkpoint.last_processed c + 1,
             Batch.mk (Checkpoint.true_positives c)
               (Checkpoint.false_positives c)
               (Checkpoint.false_negatives c) [] [] [])) as Hinit
    by (unfold initial_scan; by rewrite Hload).
  set (st0 := Batch.mk (Checkpoint.true_positives c)
                (Checkpoint.false_positives c)
                (Checkpoint.false_negatives c) [] [] []) in *.
  unfold validate_primality_test. rewrite bind_Ok, Hinit. unfold py_range.
  destruct (Z.eqb_spec batch_size 0) as [|_]; [lia|]. rewrite bind_Ok.
  pose proof (sequential_batches classify checkpoint_file isoformat_now limit
                known_primes true batch_size
                (Checkpoint.last_processed c + 1) st0 w Hbs) as Hseq.
  destruct (foldl _ (st0, w) _) as [st w'].
  simpl in Hseq. subst st.
  destruct (compile_results_spec limit known_primes
              (scan classify 1000 known_primes
                 (Checkpoint.last_processed c + 1) limit st0))
    as (r & Hr & _ & Hcnt & Hcalls & Hfp & Hfn & _);
    [by apply scan_counts|].
  rewrite Hr, bind_Ok. exists r, w'. split; [done|]. cbv zeta.
  unfold result_counters, counters in Hcnt. injection Hcnt as Htp Hfpc Hfnc.
  pose proof (scan_exact classify 1000 known_primes
                (range2 (Checkpoint.last_processed c + 1) (limit + 1)) st0)
    as Hscan.
  cbv zeta in Hscan.
  fold (scan classify 1000 known_primes (Checkpoint.last_processed c + 1)
          limit st0) in Hscan.
  destruct Hscan as (H1 & H2 & H3 & H4 & H5 & H6).
  rewrite Hcalls, Htp, Hfpc, Hfnc, Hfp, Hfn, H1, H2, H3, H4, H5, H6.
  simpl. by rewrite app_nil_r.
Qed.


(** C4.  For every limit from 2 on and every [k] with [2 <= k < limit]: the
    first batch of a checkpointed run that ends at [k] leaves a checkpoint
    with [last_processed = k] and the counters of the scan of [2..k].  The
    run resumed from it starts with these counters and scans on from
    [k + 1]: it puts to the classifier the candidates of [k+1..limit] and
    no earlier number, and adds their agreements and disagreements to the
    counters of the checkpoint.  It returns the counters of the one-pass
    scan, which puts the candidates of all of [2..limit] to the
    classifier. *)
Theorem resume_equals_one_pass (limit k : Z) (known_primes : gset Z)
    (batch_size resumed_batch_size : Z) (w : world) :
  2 ≤ limit → 2 ≤ k < limit → 1 ≤ batch_size → 1 ≤ resumed_batch_size →
  let interrupted :=
    process_batch classify checkpoint_file isoformat_now limit known_primes
      true (k - 1) (Batch.zero, w) 2 in
  let scanned := scan classify 1000 known_primes 2 k Batch.zero in
  let rest := candidates (range2 (k + 1) (limit + 1)) in
  load_checkpoint checkpoint_file limit interrupted.2
  = Some (Checkpoint.mk k (Batch.true_positives scanned)
            (Batch.false_positives scanned) (Batch.false_negatives scanned)
            (isoformat_now (ticks w)))
  ∧ ∃ r1 w1 r2 w2,
      validate_primality_test low_memory classify cpu_count checkpoint_file
        isoformat_now limit (Some known_primes) false batch_size false w
      = Ok (r1, w1)
      ∧ validate_primality_test low_memory classify cpu_count
          checkpoint_file isoformat_now limit (Some known_primes) true
          resumed_batch_size false interrupted.2 = Ok (r2, w2)
      ∧ result_counters r2 = result_counters r1
      ∧ Results.classifier_calls r1
        = reverse (candidates (range2 2 (limit + 1)))
      ∧ Results.classifier_calls r2 = reverse rest
      ∧ Results.true_positives r2
        = Batch.true_positives scanned
          + Z.of_nat (length (agreed_primes classify known_primes rest))
      ∧ Results.false_positives r2
        = Batch.false_positives scanned
          + Z.of_nat (length (wrongly_accepted classify known_primes rest))
      ∧ Results.false_negatives r2
        = Batch.false_negatives scanned
          + Z.of_nat (length (wrongly_refused classify known_primes rest)).
Proof.
  intros Hl Hk Hbs Hrbs interrupted scanned rest.
  set (c := Checkpoint.mk k (Batch.true_positives scanned)
              (Batch.false_positives scanned)
              (Batch.false_negatives scanned) (isoformat_now (ticks w))).
  assert (interrupted
          = (scanned,
             save_checkpoint checkpoint_file c limit
               (World (files w) (S (ticks w))))) as Hint.
  { unfold interrupted, process_batch, scanned, c.
    by replace (Z.min (2 + (k - 1) - 1) limit) with k by lia. }
  rewrite Hint. cbn [snd].
  set (w0 := save_checkpoint checkpoint_file c limit
               (World (files w) (S (ticks w)))).
  assert (load_checkpoint checkpoint_file limit w0 = Some c) as Hload
    by apply load_save_checkpoint.
  split; [exact Hload|].
  assert (batch_counts scanned) as Hscanned
    by apply scan_counts, batch_zero_counts.
  (* the one-pass run *)
  destruct (sequential_run_exact classify low_memory cpu_count
              checkpoint_file isoformat_now limit known_primes false
              batch_size w Hbs ltac:(done))
    as (r1 & w1 & Hr1 & Hcalls1 & _).
  destruct (validate_sequential_spec low_memory classify cpu_count
              checkpoint_file isoformat_now limit known_primes false
              batch_size w Hbs)
    as (r1' & w1' & Hr1' & _ & [Hc1 _] & _); [apply batch_zero_counts|].
  rewrite Hr1 in Hr1'. injection Hr1' as <- <-.
  (* the resumed run *)
  destruct (resumed_run_spec limit known_primes resumed_batch_size c w0
              Hrbs Hload Hscanned)
    as (r2 & w2 & Hr2 & Hcalls2 & Htp2 & Hfp2 & Hfn2 & _).
  assert (initial_scan checkpoint_file limit true w0
          = (k + 1,
             Batch.mk (Batch.true_positives scanned)
               (Batch.false_positives scanned)
               (Batch.false_negatives scanned) [] [] [])) as Hinit.
  { unfold initial_scan. by rewrite Hload. }
  destruct (validate_sequential_spec low_memory classify cpu_count
              checkpoint_file isoformat_now limit known_primes true
              resumed_batch_size w0 Hrbs)
    as (r2' & w2' & Hr2' & _ & [Hc2 _] & _).
  { by rewrite Hinit. }
  rewrite Hr2 in Hr2'. injection Hr2' as <- <-.
  exists r1, w1, r2, w2. split; [done|]. split; [done|].
  split; [|by repeat split].
  rewrite Hc1, Hc2, Hinit. cbn [fst snd initial_scan].
  rewrite (scan_split classify 1000 known_primes 2 k limit) by lia.
  fold scanned. unfold counters, scan.
  set (seed := Batch.mk _ _ _ [] [] []).
  pose proof (foldl_counters classify 1000 1000 known_primes
                (range2 (k + 1) (limit + 1)) seed scanned) as (H1 & H2 & H3).
  simpl in H1, H2, H3. f_equal; [f_equal|]; lia.
Qed.
End ResumedRuns.

Lemma resume_equals_one_pass_witness :
  2 ≤ 50 ∧ 2 ≤ 20 < 50 ∧ 1 ≤ 1000000 ∧ 1 ≤ 8 ∧
  (let interrupted :=
     process_batch odd_classifier example_checkpoint_file example_clock
       50 example_known_primes true (20 - 1) (Batch.zero, World ∅ 0) 2 in
   let scanned :=
     scan odd_classifier 1000 example_known_primes 2 20 Batch.zero in
   let rest := candidates (range2 (20 + 1) (50 + 1)) in
   load_checkpoint example_checkpoint_file 50 interrupted.2
   = Some (Checkpoint.mk 20 (Batch.true_positives scanned)
             (Batch.false_positives scanned) (Batch.false_negatives scanned)
             (example_clock (ticks (World ∅ 0))))
   ∧ ∃ r1 w1 r2 w2,
       validate_primality_test false odd_classifier 4%positive
         example_checkpoint_file example_clock 50
         (Some example_known_primes) false 1000000 false (World ∅ 0)
       = Ok (r1, w1)
       ∧ validate_primality_test false odd_classifier 4%positive
           example_checkpoint_file example_clock 50
           (Some example_known_primes) true 8 false interrupted.2
         = Ok (r2, w2)
       ∧ result_counters r2 = result_counters r1
       ∧ Results.classifier_calls r1
         = reverse (candidates (range2 2 (50 + 1)))
       ∧ Results.classifier_calls r2 = reverse rest
       ∧ Results.true_positives r2
         = Batch.true_positives scanned
           + Z.of_nat (length (agreed_primes odd_classifier
                                 example_known_primes rest))
       ∧ Results.false_positives r2
         = Batch.false_positives scanned
           + Z.of_nat (length (wrongly_accepted odd_classifier
                                 example_known_primes rest))
       ∧ Results.false_negatives r2
         = Batch.false_negatives scanned
           + Z.of_nat (length (wrongly_refused odd_classifier
                                 example_known_primes rest))).
Proof.
  split; [lia|]. split; [lia|]. split; [lia|]. split; [lia|].
  apply (resume_equals_one_pass false odd_classifier 4%positive
           example_checkpoint_file example_clock 50 20 example_known_primes
           1000000 8 (World ∅ 0)); lia.
Defined.

(** ** The command line *)


Section CommandLine.
Variable classify : Z → bool.
Variable cpu_count : positive.
Variable checkpoint_file : Z → string.
Variable isoformat_now : nat → string.



End CommandLine.


Lemma plain_oeis_run_returns (limit : Z) :
  ∃ r c, PrimeValidator.validate_with_oeis_primes limit ∅ = Ok (r, c).
Proof.
  unfold PrimeValidator.validate_with_oeis_primes.
  assert (∃ k,
            (if 541 <? limit then PrimeValidator.generate_known_primes limit
             else Ok (list_to_set (filter (λ p, p ≤ limit) oeis_primes)))
            = Ok k) as (k & ->).
  { destruct (Z.ltb_spec 541 limit); [|by eexists].
    destruct (standard_sieve_elem limit) as (k & Hk & _); [lia|].
    by exists k. }
  rewrite bind_Ok.
  destruct (plain_run_spec limit k ∅ PrimeClassifier.reachable_init)
    as (r & c & Hr & _).
  by exists r, c.
Qed.

(** X27.  The outcome of the command line of the plain validator, leaving
    the report and the plots aside: in the comprehensive and in the OEIS
    mode it succeeds for every limit, and a plain run succeeds for every
    limit from 0 on and raises [ValueError] for a negative one. *)
Theorem plain_main_outcome (args : PrimeValidator.Args.t) :
  (PrimeValidator.Args.comprehensive args = true
   ∨ PrimeValidator.Args.oeis args = true →
   PrimeValidator.main args = Ok ())
  ∧ (PrimeValidator.Args.comprehensive args = false →
     PrimeValidator.Args.oeis args = false →
     (0 ≤ PrimeValidator.Args.limit args → PrimeValidator.main args = Ok ())
     ∧ (PrimeValidator.Args.limit args < 0 →
        PrimeValidator.main args = Raise ValueError)).
Proof.
  destruct args as [limit comprehensive oeis].
  unfold PrimeValidator.main.
  cbn [PrimeValidator.Args.limit PrimeValidator.Args.comprehensive
       PrimeValidator.Args.oeis].
  split.
  - intros Hmode. destruct comprehensive.
    + unfold PrimeValidator.run_comprehensive_validation.
      destruct (plain_comprehensive_loop
                  (if 10000 <? limit then [100; 1000; 10000] ++ [limit]
                   else [100; 1000; 10000]) ∅ ∅)
        as (m & c & -> & _).
      * destruct (Z.ltb_spec 10000 limit); simpl; repeat constructor; lia.
      * apply PrimeClassifier.reachable_init.
      * intros l r. by rewrite lookup_empty.
      * by rewrite bind_Ok.
    + destruct Hmode as [Hmode | ->]; [done|].
      destruct (plain_oeis_run_returns limit) as (r & c & ->).
      by rewrite bind_Ok.
  - intros -> ->. split.
    + intros Hl.
      destruct (plain_run_cache_independent limit ∅ Hl
                  PrimeClassifier.reachable_init) as (r & c & _ & -> & _).
      by rewrite bind_Ok.
    + intros Hl. by rewrite (plain_run_negative limit ∅ Hl).
Qed.

Lemma plain_main_outcome_witness :
  PrimeValidator.main (PrimeValidator.Args.mk (-5) false true) = Ok ()
  ∧ PrimeValidator.main (PrimeValidator.Args.mk 50 false false) = Ok ()
  ∧ PrimeValidator.main (PrimeValidator.Args.mk (-5) false false)
    = Raise ValueError.
Proof.
  split; [|split].
  - apply (proj1 (plain_main_outcome
                    (PrimeValidator.Args.mk (-5) false true))).
    by right.
  - apply (proj1 (proj2 (plain_main_outcome
                           (PrimeValidator.Args.mk 50 false false))
                    eq_refl eq_refl)).
    simpl. lia.
  - apply (proj2 (proj2 (plain_main_outcome
                           (PrimeValidator.Args.mk (-5) false false))
                    eq_refl eq_refl)).
    simpl. lia.
Defined.

(** ** Invalid ranges *)

Section InvalidRanges.
Variable low_memory : bool.
Variable classify : Z → bool.
Variable cpu_count : positive.
Variable checkpoint_file : Z → string.
Variable isoformat_now : nat → string.

End InvalidRanges.


(** A run with limit -5 that resumes from a checkpoint with
    [last_processed = -12] puts the numbers from -11 to -5 to the
    classifier. *)
Example resumed_negative_limit :
  ∃ r w',
    example_validate (-5) (Some example_known_primes) true 1000000 false
      (save_checkpoint example_checkpoint_file
         (Checkpoint.mk (-12) 0 0 0 "2025-01-01T00:00:00.0") (-5)
         (World ∅ 1)) = Ok (r, w')
    ∧ Results.classifier_calls r = [-5; -6; -7; -8; -9; -10; -11].
Proof.
  destruct (example_validate (-5) (Some example_known_primes) true 1000000
              false _) as [[r w']|e] eqn:Hrun;
    vm_compute in Hrun; [|discriminate].
  exists r, w'. split; [done|]. by injection Hrun as <- <-.
Qed.
